(** * Progress recording and course aggregation

    A shallow embedding of the server action [saveActivityProgress] and of
    its helper [updateCourseProgress] (module app/actions/activity-actions),
    over an explicit model of the row store they talk to, and the properties
    of that code.

    Conventions of the embedding.
    - The hosted row store is a record of four tables (lists of typed rows), a
      generator of fresh row ids and a schedule of faults: every store call
      takes the next entry of the schedule and, when it is an error, answers
      with that error and leaves the tables untouched.  An empty schedule is
      a store that answers every call.
    - Every write statement the code issues is appended to [writes], with the
      payload and the equality filters exactly as the code chains them.
    - JavaScript numbers are integers here ([Z]); quotients are exact
      rationals ([Q]), not binary64 values, and [Math.round] is
      [floor (x + 1/2)].  The divisor of every division is recorded in
      [divisors].
    - Timestamp columns ([created_at], [updated_at]) and console logging are
      left out: no branch of the code reads them.
    - Store calls report failures through the [error] field of their
      response, as the client library does; no modelled step throws, so the
      [catch] blocks have no counterpart. *)

From Stdlib Require Import ZArith QArith Qround String List Bool Lia Lqa.
From Stdlib Require Import Ascii.
Import ListNotations.

Local Open Scope string_scope.
Local Open Scope list_scope.
Local Open Scope Z_scope.

(** ** JavaScript values *)

Module JS.

(** Truthiness of a number and of a string. *)
Definition truthy_num (z : Z) : bool := negb (z =? 0).
Definition truthy_str (s : string) : bool := negb (s =? "")%string.

(** [a || b] where both sides are a number or undefined. *)
Definition or (a b : option Z) : option Z :=
  match a with
  | Some z => if truthy_num z then a else b
  | None => b
  end.

(** [a || d] where the right side is a number literal. *)
Definition or_num (a : option Z) (d : Z) : Z :=
  match a with
  | Some z => if truthy_num z then z else d
  | None => d
  end.

(** [a || d] where the right side is a string literal. *)
Definition or_str (a : option string) (d : string) : string :=
  match a with
  | Some s => if truthy_str s then s else d
  | None => d
  end.

(** [Math.round]: nearest integer, ties towards plus infinity. *)
Definition Math_round (q : Q) : Z := Qfloor (q + (1 # 2)).

End JS.

(** ** Rows of the four tables *)

Record Activity := mkActivity {
  a_id : string;
  a_course_id : string;
  a_status : string
}.

Record Course := mkCourse {
  c_id : string;
  c_total_enrollment : Z
}.

Record UserCourse := mkUserCourse {
  uc_id : Z;
  uc_user_id : string;
  uc_course_id : string;
  uc_progress : Z;
  uc_score : Z
}.

Definition Json := string.

Record UserProgress := mkUserProgress {
  up_id : Z;
  up_user_id : string;
  up_activity_id : string;
  up_course_id : string;
  up_score : Z;
  up_completed : bool;
  up_answers : option Json;
  up_time_spent : Z
}.

(** ** Equality filters, one type per table, as chained with [.eq(col, v)] *)

Inductive ActivityFilter :=
| A_id (v : string)
| A_course_id (v : string)
| A_status (v : string).

Inductive CourseFilter :=
| C_id (v : string).

Inductive UserCourseFilter :=
| UC_id (v : Z)
| UC_user_id (v : string)
| UC_course_id (v : string).

Inductive UserProgressFilter :=
| UP_id (v : Z)
| UP_user_id (v : string)
| UP_activity_id (v : string)
| UP_course_id (v : string)
| UP_completed (v : bool).

Class Filterable (R F : Type) := holds : F -> R -> bool.

#[global] Instance activity_filterable : Filterable Activity ActivityFilter :=
  fun f r =>
    match f with
    | A_id v => (a_id r =? v)%string
    | A_course_id v => (a_course_id r =? v)%string
    | A_status v => (a_status r =? v)%string
    end.

#[global] Instance course_filterable : Filterable Course CourseFilter :=
  fun f r => match f with C_id v => (c_id r =? v)%string end.

#[global] Instance user_course_filterable : Filterable UserCourse UserCourseFilter :=
  fun f r =>
    match f with
    | UC_id v => uc_id r =? v
    | UC_user_id v => (uc_user_id r =? v)%string
    | UC_course_id v => (uc_course_id r =? v)%string
    end.

#[global] Instance user_progress_filterable : Filterable UserProgress UserProgressFilter :=
  fun f r =>
    match f with
    | UP_id v => up_id r =? v
    | UP_user_id v => (up_user_id r =? v)%string
    | UP_activity_id v => (up_activity_id r =? v)%string
    | UP_course_id v => (up_course_id r =? v)%string
    | UP_completed v => Bool.eqb (up_completed r) v
    end.

(** A row is selected when it passes every chained filter. *)
Definition matches {R F} `{Filterable R F} (fs : list F) (r : R) : bool :=
  forallb (fun f => holds f r) fs.

(** ** Payloads and statements *)

(** [progressData] of [saveActivityProgress]. *)
Record ProgressData := mkProgressData {
  pd_user_id : string;
  pd_activity_id : string;
  pd_course_id : string;
  pd_score : Z;
  pd_completed : bool;
  pd_answers : option Json;
  pd_time_spent : Z
}.

(** [userCourseData] of [updateCourseProgress]. *)
Record UserCourseData := mkUserCourseData {
  ucd_progress : Z;
  ucd_score : Z
}.

(** The object inserted into [user_courses]. *)
Record NewUserCourse := mkNewUserCourse {
  nuc_user_id : string;
  nuc_course_id : string;
  nuc_progress : Z;
  nuc_score : Z
}.

Inductive Stmt :=
| InsertUserCourse (row : NewUserCourse)
| UpdateCourse (total_enrollment : Z) (fs : list CourseFilter)
| UpdateUserProgress (pd : ProgressData) (fs : list UserProgressFilter)
| InsertUserProgress (pd : ProgressData)
| UpdateUserCourse (d : UserCourseData) (fs : list UserCourseFilter).

(** ** The store and the world around a request *)

Record PostgrestError := mkError {
  code : string;
  message : string
}.

Record Response (D : Type) := mkResponse {
  data : option D;
  error : option PostgrestError
}.
Arguments mkResponse {D}.
Arguments data {D}.
Arguments error {D}.

Record DB := mkDB {
  activities : list Activity;
  courses : list Course;
  user_courses : list UserCourse;
  user_progress : list UserProgress;
  next_id : Z
}.

Record World := mkWorld {
  db : DB;
  faults : list (option PostgrestError);
  writes : list Stmt;
  divisors : list Z;
  revalidated : list string
}.

Definition with_db (f : DB -> DB) (w : World) : World :=
  mkWorld (f (db w)) (faults w) (writes w) (divisors w) (revalidated w).

Definition with_faults (fs : list (option PostgrestError)) (w : World) : World :=
  mkWorld (db w) fs (writes w) (divisors w) (revalidated w).

Definition issue (s : Stmt) (w : World) : World :=
  mkWorld (db w) (faults w) (writes w ++ [s]) (divisors w) (revalidated w).

(** ** The request monad: state passing over [World] *)

Definition M (A : Type) : Type := World -> A * World.

Definition ret {A} (a : A) : M A := fun w => (a, w).

Definition bind {A B} (m : M A) (k : A -> M B) : M B :=
  fun w => let (a, w') := m w in k a w'.

Declare Scope req_scope.
Delimit Scope req_scope with req.
Notation "x <- c ;; k" := (bind c (fun x => k))
  (at level 100, c at next level, right associativity) : req_scope.
Notation "c ;;; k" := (bind c (fun _ => k))
  (at level 100, right associativity) : req_scope.
Local Open Scope req_scope.

(** One round trip to the store: the next entry of the fault schedule decides
    whether the call is answered with an error. *)
Definition call {D} (ok : World -> Response D * World) : M (Response D) :=
  fun w =>
    match faults w with
    | Some e :: fs => (mkResponse None (Some e), with_faults fs w)
    | None :: fs => ok (with_faults fs w)
    | [] => ok w
    end.

Definition PGRST116 : PostgrestError :=
  mkError "PGRST116" "JSON object requested, multiple (or no) rows returned".

(** [.single()]: exactly one row, or the error [PGRST116] and no data. *)
Definition single {R} (rows : list R) : Response R :=
  match rows with
  | [r] => mkResponse (Some r) None
  | _ => mkResponse None (Some PGRST116)
  end.

(** [from(t).select(..).eq(..)...] *)
Definition select {R F} `{Filterable R F}
    (tbl : DB -> list R) (fs : list F) : M (Response (list R)) :=
  call (fun w => (mkResponse (Some (filter (matches fs) (tbl (db w)))) None, w)).

(** [from(t).select(..).eq(..)....single()] *)
Definition select_single {R F} `{Filterable R F}
    (tbl : DB -> list R) (fs : list F) : M (Response R) :=
  call (fun w => (single (filter (matches fs) (tbl (db w))), w)).

(** Rows passing the filters are rewritten, the others are kept. *)
Definition update_where {R F} `{Filterable R F}
    (fs : list F) (set : R -> R) (rows : list R) : list R :=
  map (fun r => if matches fs r then set r else r) rows.

(** *** Writes on [user_courses] *)

Definition insert_user_courses (row : NewUserCourse) : M (Response unit) :=
  fun w =>
    call (fun w =>
      let d := db w in
      let r := mkUserCourse (next_id d) (nuc_user_id row) (nuc_course_id row)
                            (nuc_progress row) (nuc_score row) in
      (mkResponse None None,
       with_db (fun d => mkDB (activities d) (courses d) (user_courses d ++ [r])
                              (user_progress d) (next_id d + 1)) w))
      (issue (InsertUserCourse row) w).

Definition set_user_course (d : UserCourseData) (r : UserCourse) : UserCourse :=
  mkUserCourse (uc_id r) (uc_user_id r) (uc_course_id r) (ucd_progress d) (ucd_score d).

Definition update_user_courses (d : UserCourseData) (fs : list UserCourseFilter)
  : M (Response unit) :=
  fun w =>
    call (fun w =>
      (mkResponse None None,
       with_db (fun b => mkDB (activities b) (courses b)
                              (update_where fs (set_user_course d) (user_courses b))
                              (user_progress b) (next_id b)) w))
      (issue (UpdateUserCourse d fs) w).

(** *** Write on [courses] *)

Definition set_total_enrollment (n : Z) (r : Course) : Course :=
  mkCourse (c_id r) n.

Definition update_courses (total_enrollment : Z) (fs : list CourseFilter)
  : M (Response unit) :=
  fun w =>
    call (fun w =>
      (mkResponse None None,
       with_db (fun b => mkDB (activities b)
                              (update_where fs (set_total_enrollment total_enrollment) (courses b))
                              (user_courses b) (user_progress b) (next_id b)) w))
      (issue (UpdateCourse total_enrollment fs) w).

(** *** Writes on [user_progress], both followed by [.select()] *)

(** An [answers] property that is undefined is not part of the request body:
    an update keeps the stored payload, an insert stores null. *)
Definition set_user_progress (pd : ProgressData) (r : UserProgress) : UserProgress :=
  mkUserProgress (up_id r) (pd_user_id pd) (pd_activity_id pd) (pd_course_id pd)
                 (pd_score pd) (pd_completed pd)
                 (match pd_answers pd with Some a => Some a | None => up_answers r end)
                 (pd_time_spent pd).

Definition new_user_progress (id : Z) (pd : ProgressData) : UserProgress :=
  mkUserProgress id (pd_user_id pd) (pd_activity_id pd) (pd_course_id pd)
                 (pd_score pd) (pd_completed pd) (pd_answers pd) (pd_time_spent pd).

Definition update_user_progress (pd : ProgressData) (fs : list UserProgressFilter)
  : M (Response (list UserProgress)) :=
  fun w =>
    call (fun w =>
      let rows := update_where fs (set_user_progress pd) (user_progress (db w)) in
      (mkResponse (Some (map (set_user_progress pd)
                             (filter (matches fs) (user_progress (db w))))) None,
       with_db (fun b => mkDB (activities b) (courses b) (user_courses b)
                              rows (next_id b)) w))
      (issue (UpdateUserProgress pd fs) w).

Definition insert_user_progress (pd : ProgressData)
  : M (Response (list UserProgress)) :=
  fun w =>
    call (fun w =>
      let r := new_user_progress (next_id (db w)) pd in
      (mkResponse (Some [r]) None,
       with_db (fun b => mkDB (activities b) (courses b) (user_courses b)
                              (user_progress b ++ [r]) (next_id b + 1)) w))
      (issue (InsertUserProgress pd) w).

(** *** Ambient effects *)

(** [revalidatePath(p)] *)
Definition revalidatePath (p : string) : M unit :=
  fun w => (tt, mkWorld (db w) (faults w) (writes w) (divisors w) (revalidated w ++ [p])).

(** [a / b] on numbers; the divisor is recorded. *)
Definition divide (a b : Z) : M Q :=
  fun w => ((inject_Z a / inject_Z b)%Q,
            mkWorld (db w) (faults w) (writes w) (divisors w ++ [b]) (revalidated w)).

(** ** Authentication: the answer of [supabase.auth.getUser()] *)

Record User := mkUser { u_id : string }.

Record AuthError := mkAuthError { auth_message : string }.

Record AuthResponse := mkAuth {
  user : option User;
  userError : option AuthError
}.

(** ** The result handed back to the caller *)

Record SaveResult := mkResult {
  success : bool;
  result_data : option (list UserProgress);
  result_error : option string
}.

Definition failure (msg : string) : SaveResult := mkResult false None (Some msg).

(** ** [updateCourseProgress] (lines 165-266) *)

Definition updateCourseProgress (userId courseId : string) : M unit :=
  (* Get all published activities for the course *)
  r_act <- select activities [A_course_id courseId; A_status "published"] ;;
  match error r_act with
  | Some _ => ret tt
  | None =>
    match data r_act with
    | None => ret tt
    | Some acts =>
      if (Z.of_nat (length acts) =? 0) then ret tt else
      (* Get completed activities for the user in this course *)
      r_done <- select user_progress
                  [UP_user_id userId; UP_course_id courseId; UP_completed true] ;;
      match error r_done with
      | Some _ => ret tt
      | None =>
        let completedActivities := data r_done in
        let totalActivities := Z.of_nat (length acts) in
        let completedCount :=
          JS.or_num (option_map (fun l => Z.of_nat (length l)) completedActivities) 0 in
        q <- divide completedCount totalActivities ;;
        let progressPercentage := JS.Math_round (q * 100)%Q in
        let totalScore :=
          match completedActivities with
          | Some l =>
              if 0 <? Z.of_nat (length l)
              then fold_left (fun sum a => sum + JS.or_num (Some (up_score a)) 0) l 0
              else 0
          | None => 0
          end in
        averageScore <-
          (if 0 <? completedCount
           then (q' <- divide totalScore completedCount ;; ret (JS.Math_round q'))
           else ret 0) ;;
        (* Update course progress in user_courses table *)
        r_uc <- select_single user_courses [UC_user_id userId; UC_course_id courseId] ;;
        let userCourseData := mkUserCourseData progressPercentage averageScore in
        let insert :=
          (insert_user_courses
             (mkNewUserCourse userId courseId progressPercentage averageScore) ;;;
           ret tt) in
        match data r_uc with
        | Some existingUserCourse =>
            if JS.truthy_num (uc_id existingUserCourse)
            then (update_user_courses userCourseData
                    [UC_id (uc_id existingUserCourse); UC_user_id userId] ;;;
                  ret tt)
            else insert
        | None => insert
        end
      end
    end
  end.

(** ** [saveActivityProgress] (lines 7-163) *)

(** Lines 46-94: look the enrollment up and enroll the user when none is
    found.  A failed insert is only logged. *)
Definition autoEnroll (userId course_id : string) : M unit :=
  (* Check if user is enrolled in the course *)
  r_uc <- select_single user_courses [UC_user_id userId; UC_course_id course_id] ;;
  (* If user is not enrolled, enroll them automatically *)
  match data r_uc with
  | Some _ => ret tt
  | None =>
    r_enroll <- insert_user_courses (mkNewUserCourse userId course_id 0 0) ;;
    match error r_enroll with
    | Some _ => ret tt
    | None =>
      (* Update the course's total_enrollment count *)
      r_course <- select_single courses [C_id course_id] ;;
      update_courses
        (JS.or_num (option_map c_total_enrollment (data r_course)) 0 + 1)
        [C_id course_id] ;;;
      ret tt
    end
  end.

(** Lines 96-140: look the progress row up, build [progressData] and update
    the row found or insert a new one. *)
Definition writeProgress (userId activityId course_id : string) (score : Z)
    (completed : bool) (answers : option Json) (timeSpent : option Z)
  : M (Response (list UserProgress)) :=
  (* Check if progress already exists *)
  r_prog <- select_single user_progress
              [UP_user_id userId; UP_activity_id activityId] ;;
  let existingProgress := data r_prog in
  let progressData :=
    mkProgressData userId activityId course_id score completed answers
      (JS.or_num (JS.or timeSpent (option_map up_time_spent existingProgress)) 0) in
  let insert := insert_user_progress progressData in
  match existingProgress with
  | Some existing =>
      if JS.truthy_num (up_id existing)
      then update_user_progress progressData
             [UP_id (up_id existing); UP_user_id userId]
      else insert
  | None => insert
  end.

Definition saveActivityProgress (session : AuthResponse)
    (activityId : string) (score : Z) (completed : bool)
    (answers : option Json) (timeSpent : option Z) : M SaveResult :=
  (* Get the current user *)
  match userError session, user session with
  | None, Some usr =>
    (* Get the activity to find its course_id *)
    r_act <- select_single activities [A_id activityId] ;;
    match error r_act, data r_act with
    | None, Some activity =>
      let course_id := a_course_id activity in
      autoEnroll (u_id usr) course_id ;;;
      result <- writeProgress (u_id usr) activityId course_id
                  score completed answers timeSpent ;;
      match error result with
      | Some e => ret (failure (message e))
      | None =>
        (* Update course progress *)
        updateCourseProgress (u_id usr) course_id ;;;
        (* Revalidate paths *)
        revalidatePath ("/dashboard/activities/" ++ activityId)%string ;;;
        revalidatePath ("/dashboard/courses/" ++ course_id)%string ;;;
        revalidatePath "/dashboard" ;;;
        revalidatePath "/dashboard/progress" ;;;
        ret (mkResult true (data result) None)
      end
    | activityError, _ =>
        ret (failure (JS.or_str (option_map message activityError) "Activity not found"))
    end
  | userError, _ =>
      ret (failure (JS.or_str (option_map auth_message userError) "User not authenticated"))
  end.

(** * What the verification speaks of *)

(** ** Selections of the code *)

(** The published activities of a course, as the aggregator selects them. *)
Definition published (courseId : string) (d : DB) : list Activity :=
  filter (matches [A_course_id courseId; A_status "published"]) (activities d).

(** The completed progress rows of a user in a course, as the aggregator
    selects them. *)
Definition completedRows (userId courseId : string) (d : DB) : list UserProgress :=
  filter (matches [UP_user_id userId; UP_course_id courseId; UP_completed true])
         (user_progress d).

(** The enrollment rows of a user in a course, as both functions select them. *)
Definition enrollments (userId courseId : string) (d : DB) : list UserCourse :=
  filter (matches [UC_user_id userId; UC_course_id courseId]) (user_courses d).

(** The progress rows of a user for an activity, as [saveActivityProgress]
    selects them, and the row that its look-up finds. *)
Definition progressRows (userId activityId : string) (d : DB) : list UserProgress :=
  filter (matches [UP_user_id userId; UP_activity_id activityId]) (user_progress d).

Definition priorProgress (userId activityId : string) (d : DB) : option UserProgress :=
  data (single (progressRows userId activityId d)).

(** The counter value that auto-enrollment reads for a course:
    [course?.total_enrollment || 0]. *)
Definition currentEnrollment (course_id : string) (d : DB) : Z :=
  JS.or_num (option_map c_total_enrollment
               (data (single (filter (matches [C_id course_id]) (courses d))))) 0.

(** ** The figures of the aggregator *)

(** [Math.round((completedCount / totalActivities) * 100)] *)
Definition progressPercentage (completedCount totalActivities : Z) : Z :=
  JS.Math_round ((inject_Z completedCount / inject_Z totalActivities) * 100)%Q.

(** [completedActivities.reduce((sum, activity) => sum + (activity.score || 0), 0)] *)
Definition totalScore (completedActivities : list UserProgress) : Z :=
  fold_left (fun sum a => sum + JS.or_num (Some (up_score a)) 0) completedActivities 0.

(** [completedCount > 0 ? Math.round(totalScore / completedCount) : 0] *)
Definition averageScore (completedActivities : list UserProgress) : Z :=
  let completedCount := Z.of_nat (length completedActivities) in
  if 0 <? completedCount
  then JS.Math_round (inject_Z (totalScore completedActivities) / inject_Z completedCount)%Q
  else 0.

(** The payload that the aggregator writes for a user and a course. *)
Definition courseFigures (userId courseId : string) (d : DB) : UserCourseData :=
  let rows := completedRows userId courseId d in
  mkUserCourseData
    (progressPercentage (Z.of_nat (length rows)) (Z.of_nat (length (published courseId d))))
    (averageScore rows).

(** The divisions on the way to that payload. *)
Definition courseDivisors (userId courseId : string) (d : DB) : list Z :=
  let count := Z.of_nat (length (completedRows userId courseId d)) in
  Z.of_nat (length (published courseId d)) :: (if 0 <? count then [count] else []).

Definition with_divisors (l : list Z) (w : World) : World :=
  mkWorld (db w) (faults w) (writes w) (divisors w ++ l) (revalidated w).

(** Time spent as the code computes it,
    [timeSpent || existingProgress?.time_spent || 0], by cases: a supplied 0
    counts as not supplied. *)
Definition stored_time_spent (timeSpent : option Z) (prior : option UserProgress) : Z :=
  let fallback := match prior with Some r => up_time_spent r | None => 0 end in
  match timeSpent with
  | Some t => if t =? 0 then fallback else t
  | None => fallback
  end.

(** ** The wording of the specification *)

(** Time spent: the supplied value if present, else the prior row's value,
    else 0. *)
Definition spec_time_spent (timeSpent : option Z) (prior : option UserProgress) : Z :=
  match timeSpent with
  | Some t => t
  | None => match prior with Some r => up_time_spent r | None => 0 end
  end.

(** [round(100 * completedCount / totalPublishedActivities)], where round is
    [Math.round]. *)
Definition spec_progress (completedCount totalPublished : Z) : Z :=
  JS.Math_round (100 * inject_Z completedCount / inject_Z totalPublished)%Q.

Definition sumScores (rows : list UserProgress) : Z :=
  fold_right Z.add 0 (map up_score rows).

(** [round(sum(score over completed rows) / completedCount)] if
    [completedCount > 0], else 0. *)
Definition spec_average (rows : list UserProgress) : Z :=
  let completedCount := Z.of_nat (length rows) in
  if 0 <? completedCount
  then JS.Math_round (inject_Z (sumScores rows) / inject_Z completedCount)%Q
  else 0.


(** ** Relations between two worlds *)

(** Every run of [m] relates the world it starts from to the one it ends in. *)
Definition steps_in (R : World -> World -> Prop) {A} (m : M A) : Prop :=
  forall w, R w (snd (m w)).

(** A table is left as it was. *)
Definition same_progress (w w' : World) : Prop :=
  user_progress (db w') = user_progress (db w).

Definition same_activities (w w' : World) : Prop :=
  activities (db w') = activities (db w).

(** A fault schedule that is used up stays so. *)
Definition stays_quiet (w w' : World) : Prop :=
  faults w = [] -> faults w' = [].

(** What the enrollment bookkeeping and the aggregator leave alone: the
    progress rows, the activities and a used-up fault schedule. *)
Definition bookkeeping_frame (w w' : World) : Prop :=
  same_progress w w' /\ same_activities w w' /\ stays_quiet w w'.

(** Nothing but the fault schedule differs. *)
Definition only_faults (w w' : World) : Prop :=
  db w' = db w /\ writes w' = writes w /\
  divisors w' = divisors w /\ revalidated w' = revalidated w.

(** The statements issued from [w] to [w'] all satisfy [Q]. *)
Definition issued (Q : Stmt -> Prop) (w w' : World) : Prop :=
  exists l, writes w' = writes w ++ l /\ Forall Q l.

(** The divisions performed from [w] to [w'] all have a divisor in [Q]. *)
Definition divided (Q : Z -> Prop) (w w' : World) : Prop :=
  exists l, divisors w' = divisors w ++ l /\ Forall Q l.

(** The enrollment and progress rows of the users other than [u] are the
    same, in the same order. *)
Definition others_untouched (u : string) (w w' : World) : Prop :=
  filter (fun r => negb (uc_user_id r =? u)%string) (user_courses (db w'))
  = filter (fun r => negb (uc_user_id r =? u)%string) (user_courses (db w)) /\
  filter (fun r => negb (up_user_id r =? u)%string) (user_progress (db w'))
  = filter (fun r => negb (up_user_id r =? u)%string) (user_progress (db w)).

(** ** Properties of statements *)

(** The statement, when it is an update, carries an equality filter on the
    user id [u].  The filters of [courses] have no such column. *)
Definition user_filtered (u : string) (s : Stmt) : Prop :=
  match s with
  | UpdateCourse _ fs => False
  | UpdateUserProgress _ fs => In (UP_user_id u) fs
  | UpdateUserCourse _ fs => In (UC_user_id u) fs
  | InsertUserCourse _ | InsertUserProgress _ => True
  end.

(** The same, asked only of the updates of the two tables whose rows belong
    to a user; an update of [courses] is filtered by the course id alone. *)
Definition owner_filtered (u : string) (s : Stmt) : Prop :=
  match s with
  | UpdateCourse _ fs => exists c, fs = [C_id c]
  | _ => user_filtered u s
  end.

(** Statements and rows of the other users, together. *)
Definition scoped_to (u : string) (w w' : World) : Prop :=
  issued (owner_filtered u) w w' /\ others_untouched u w w'.

(** The statements that write [user_progress]. *)
Definition on_progress (s : Stmt) : bool :=
  match s with
  | UpdateUserProgress _ _ | InsertUserProgress _ => true
  | _ => false
  end.

(** The statements that insert into [user_courses], and those that update
    [courses]. *)
Definition is_enrollment_insert (s : Stmt) : bool :=
  match s with
  | InsertUserCourse _ => true
  | _ => false
  end.

Definition is_course_update (s : Stmt) : bool :=
  match s with
  | UpdateCourse _ _ => true
  | _ => false
  end.

Definition off_enrollment (s : Stmt) : Prop :=
  is_enrollment_insert s = false /\ is_course_update s = false.

(** An enrollment write carries a progress and a score between 0 and 100. *)
Definition in_range (s : Stmt) : Prop :=
  match s with
  | InsertUserCourse row =>
      0 <= nuc_progress row <= 100 /\ 0 <= nuc_score row <= 100
  | UpdateUserCourse d _ =>
      0 <= ucd_progress d <= 100 /\ 0 <= ucd_score d <= 100
  | _ => True
  end.

(** The progress rows of a user in a course all belong to published
    activities of the course and carry a score between 0 and 100. *)
Definition progress_on_published (u c : string) (d : DB) : Prop :=
  Forall (fun r =>
            up_user_id r = u -> up_course_id r = c ->
            0 <= up_score r <= 100 /\
            In (up_activity_id r) (map a_id (published c d)))
         (user_progress d).

(** ** Well-formed stores *)

(** The pair a row is looked up by: (user, course) for an enrollment,
    (user, activity) for a progress row. *)
Definition uc_key (r : UserCourse) : string * string := (uc_user_id r, uc_course_id r).
Definition up_key (r : UserProgress) : string * string := (up_user_id r, up_activity_id r).

(** Two chained string filters, read on the pair. *)
Definition key_is (k k' : string * string) : bool :=
  (fst k' =? fst k)%string && ((snd k' =? snd k)%string && true).

(** Row ids are positive, issued by the generator and primary keys; an
    enrollment is unique for its (user, course) and a progress row for its
    (user, activity). *)
Record wf (d : DB) : Prop := mkWf {
  wf_next : 0 < next_id d;
  wf_uc_ids : Forall (fun i => 0 < i < next_id d) (map uc_id (user_courses d));
  wf_up_ids : Forall (fun i => 0 < i < next_id d) (map up_id (user_progress d));
  wf_uc_ids_unique : NoDup (map uc_id (user_courses d));
  wf_up_ids_unique : NoDup (map up_id (user_progress d));
  wf_uc_key : NoDup (map uc_key (user_courses d));
  wf_up_key : NoDup (map up_key (user_progress d))
}.

(** ** Sequences of requests *)




(** ** A small store to run the code on *)

Module Demo.

Definition alice : AuthResponse := mkAuth (Some (mkUser "alice")) None.

Definition anonymous : AuthResponse := mkAuth None None.

(** Course c1 has one published activity and one draft; nobody is enrolled. *)
Definition fresh : World :=
  mkWorld (mkDB [mkActivity "a1" "c1" "published"; mkActivity "a2" "c1" "draft"]
                [mkCourse "c1" 0] [] [] 1)
          [] [] [] [].

(** Alice has completed the published activity of c1 in 50 seconds. *)
Definition enrolled : World :=
  mkWorld (mkDB [mkActivity "a1" "c1" "published"; mkActivity "a2" "c1" "draft"]
                [mkCourse "c1" 1]
                [mkUserCourse 1 "alice" "c1" 100 80]
                [mkUserProgress 2 "alice" "a1" "c1" 80 true None 50] 3)
          [] [] [] [].

(** The store of [fresh] when it refuses the seventh call of a request: for a
    first save, the write of the progress row. *)
Definition refusing : World :=
  mkWorld (db fresh)
          [None; None; None; None; None; None; Some (mkError "57014" "canceling statement")]
          [] [] [].

End Demo.

(** ** Further relations and selections *)

(** The cache keys that a successful save invalidates, in order. *)
Definition revalidatedPaths (activityId course_id : string) : list string :=
  ["/dashboard/activities/" ++ activityId; "/dashboard/courses/" ++ course_id;
   "/dashboard"; "/dashboard/progress"]%string.

(** No row is removed and no row changes its id: the activities are as they
    were, the courses keep their ids, and the ids of the enrollment and
    progress rows are the old ones followed by those of new rows. *)
Definition grows (w w' : World) : Prop :=
  activities (db w') = activities (db w) /\
  map c_id (courses (db w')) = map c_id (courses (db w)) /\
  (exists l, map uc_id (user_courses (db w')) = map uc_id (user_courses (db w)) ++ l) /\
  (exists l, map up_id (user_progress (db w')) = map up_id (user_progress (db w)) ++ l).

(** The cache keys are as they were. *)
Definition same_cache (w w' : World) : Prop := revalidated w' = revalidated w.

(** ** The rows beside those of a request *)

(** The progress rows of the other (user, activity) pairs, the enrollment
    rows of the other (user, course) pairs and the other courses, in table
    order. *)
Definition other_progress (u a : string) (d : DB) : list UserProgress :=
  filter (fun r => negb (key_is (u, a) (up_key r))) (user_progress d).

Definition other_enrollments (u c : string) (d : DB) : list UserCourse :=
  filter (fun r => negb (key_is (u, c) (uc_key r))) (user_courses d).

Definition other_courses (c : string) (d : DB) : list Course :=
  filter (fun r => negb (matches [C_id c] r)) (courses d).

(** ** The tables after each stage, on a store that answers every call *)

(** After lines 46-94. *)
Definition autoEnroll_db (u c : string) (d : DB) : DB :=
  match data (single (enrollments u c d)) with
  | Some _ => d
  | None =>
      mkDB (activities d)
           (update_where [C_id c] (set_total_enrollment (currentEnrollment c d + 1))
                         (courses d))
           (user_courses d ++ [mkUserCourse (next_id d) u c 0 0])
           (user_progress d) (next_id d + 1)
  end.

(** After lines 96-140. *)
Definition writeProgress_db (u a c : string) (score : Z) (completed : bool)
    (answers : option Json) (timeSpent : option Z) (d : DB) : DB :=
  let prior := priorProgress u a d in
  let pd := mkProgressData u a c score completed answers
                           (stored_time_spent timeSpent prior) in
  let inserted :=
    mkDB (activities d) (courses d) (user_courses d)
         (user_progress d ++ [new_user_progress (next_id d) pd]) (next_id d + 1) in
  match prior with
  | Some existing =>
      if JS.truthy_num (up_id existing)
      then mkDB (activities d) (courses d) (user_courses d)
                (update_where [UP_id (up_id existing); UP_user_id u]
                              (set_user_progress pd) (user_progress d))
                (next_id d)
      else inserted
  | None => inserted
  end.

(** After [updateCourseProgress]. *)
Definition aggregate_db (u c : string) (d : DB) : DB :=
  match published c d with
  | [] => d
  | _ :: _ =>
      let f := courseFigures u c d in
      let inserted :=
        mkDB (activities d) (courses d)
             (user_courses d ++
                [mkUserCourse (next_id d) u c (ucd_progress f) (ucd_score f)])
             (user_progress d) (next_id d + 1) in
      match data (single (enrollments u c d)) with
      | Some existing =>
          if JS.truthy_num (uc_id existing)
          then mkDB (activities d) (courses d)
                    (update_where [UC_id (uc_id existing); UC_user_id u]
                                  (set_user_course f) (user_courses d))
                    (user_progress d) (next_id d)
          else inserted
      | None => inserted
      end
  end.

(** * The activity page: next and previous activity

    The part of [ActivityPage] (app/dashboard/activities/[id]/page) that
    places the activity shown among the published activities of its course,
    lines 58-91.  The rows are the data of the page's query, in the order the
    store returns them. *)

Module ActivityPage.

Record CourseActivity := mkCourseActivity {
  ca_id : string;
  ca_order_index : Z;
  ca_status : string
}.

(** [Array.prototype.findIndex]: the index of the first element that passes
    the test, or -1. *)
Fixpoint findIndex_from {A} (test : A -> bool) (l : list A) (i : Z) : Z :=
  match l with
  | [] => -1
  | a :: l => if test a then i else findIndex_from test l (i + 1)
  end.

Definition findIndex {A} (test : A -> bool) (l : list A) : Z :=
  findIndex_from test l 0.

(** [l[i]]: undefined out of range. *)
Definition at_index {A} (l : list A) (i : Z) : option A :=
  if i <? 0 then None else nth_error l (Z.to_nat i).

Record Navigation := mkNavigation {
  nextActivityId : option string;
  prevActivityId : option string;
  isLastActivity : bool;
  isFirstActivity : bool
}.

Definition navigation (courseId : string)
    (courseActivities : option (list CourseActivity)) (activity_id : string)
  : Navigation :=
  let initial := mkNavigation None None false false in
  if JS.truthy_str courseId then
    match courseActivities with
    | Some rows =>
        if 0 <? Z.of_nat (length rows) then
          (* Find the current activity's position *)
          let currentActivityIndex :=
            findIndex (fun a => (ca_id a =? activity_id)%string) rows in
          let isFirstActivity := currentActivityIndex =? 0 in
          let isLastActivity := currentActivityIndex =? Z.of_nat (length rows) - 1 in
          let nextActivityId :=
            if negb (currentActivityIndex =? -1) &&
               (currentActivityIndex <? Z.of_nat (length rows) - 1)
            then option_map ca_id (at_index rows (currentActivityIndex + 1))
            else None in
          let prevActivityId :=
            if 0 <? currentActivityIndex
            then option_map ca_id (at_index rows (currentActivityIndex - 1))
            else None in
          mkNavigation nextActivityId prevActivityId isLastActivity isFirstActivity
        else initial
    | None => initial
    end
  else initial.

(** Three published activities of a course, in page order. *)
Definition demo_rows : list CourseActivity :=
  [mkCourseActivity "a1" 1 "published"; mkCourseActivity "a3" 2 "published";
   mkCourseActivity "a4" 3 "published"].

End ActivityPage.

(** * The activity components that call the action

    The handlers and the score computation of four client components, as far
    as they reach [saveActivityProgress]: the component state that only drives
    rendering (spinners, toasts, the result panel) is left out.  A handler
    runs on the state that the previous event left, as the component is
    rendered again between two events.  The session of the request is the
    browser's and is passed explicitly, and the answers travel as the
    serialized payload [toJson answers]. *)

(** [a === b] for [a] a string or undefined and [b] a string. *)
Definition strict_eq (a : option string) (b : string) : bool :=
  match a with
  | Some s => (s =? b)%string
  | None => false
  end.

(** [Math.round((correct / total) * 5)]; with [total] 0 the count is 0 too
    and the quotient 0/0 is not a number. *)
Definition outOfFive (correct total : Z) : option Z :=
  if total =? 0 then None
  else Some (JS.Math_round ((inject_Z correct / inject_Z total) * 5)%Q).

(** What a submit handler does towards the server. *)
Inductive Submission :=
| NoRequest                        (* the handler returns without calling the action *)
| NotANumber                       (* the score is NaN, which [Z] does not carry *)
| Sent (request : M SaveResult)    (* the call of the action *).

(** A JavaScript object used as a record of values by string key: the keys
    in insertion order with their values, each key once. *)
Module JSObject.

Definition t (V : Type) : Type := list (string * V).

(** [o[key]]: undefined for a key that is not set. *)
Definition get {V} (o : t V) (key : string) : option V :=
  option_map snd (find (fun kv => (fst kv =? key)%string) o).

(** [{ ...o, [key]: value }] *)
Definition set {V} (key : string) (value : V) (o : t V) : t V :=
  if existsb (fun kv => (fst kv =? key)%string) o
  then map (fun kv => if (fst kv =? key)%string then (key, value) else kv) o
  else o ++ [(key, value)].

Definition keys {V} (o : t V) : list string := map fst o.

Definition values {V} (o : t V) : list V := map snd o.

End JSObject.

(** ** components/activities/multiple-choice-activity *)

Module MultipleChoice.

Record Question := mkQuestion { correctAnswer : string }.

(** [Record<number, string>]: a key that is not set reads undefined. *)
Definition Answers := Z -> option string.

Definition handleAnswerSelect (currentQuestion : Z) (answer : string)
    (selectedAnswers : Answers) : Answers :=
  fun i => if i =? currentQuestion then Some answer else selectedAnswers i.

(** [handleNext]: the question shown afterwards, and whether [handleSubmit]
    is called. *)
Definition handleNext (questions : list Question) (currentQuestion : Z) : Z * bool :=
  if currentQuestion <? Z.of_nat (length questions) - 1
  then (currentQuestion + 1, false)
  else (currentQuestion, true).

Definition handlePrevious (currentQuestion : Z) : Z :=
  if 0 <? currentQuestion then currentQuestion - 1 else currentQuestion.

(** The loop of [calculateScore], lines 53-58. *)
Definition correctAnswers (questions : list Question) (selectedAnswers : Answers) : Z :=
  fold_left
    (fun correctAnswers i =>
       match nth_error questions i with
       | Some q =>
           if strict_eq (selectedAnswers (Z.of_nat i)) (correctAnswer q)
           then correctAnswers + 1 else correctAnswers
       | None => correctAnswers
       end)
    (seq 0 (length questions)) 0.

(** The test of the loop at index [i]. *)
Definition quiz_test (questions : list Question) (selectedAnswers : Answers) (i : nat)
  : bool :=
  match nth_error questions i with
  | Some q => strict_eq (selectedAnswers (Z.of_nat i)) (correctAnswer q)
  | None => false
  end.

Definition calculateScore (questions : list Question) (selectedAnswers : Answers)
  : option Z :=
  outOfFive (correctAnswers questions selectedAnswers) (Z.of_nat (length questions)).

(** [handleSubmit], line 71: the time spent is not passed. *)
Definition handleSubmit (toJson : Answers -> Json) (session : AuthResponse)
    (activity_id : string) (questions : list Question) (selectedAnswers : Answers)
  : Submission :=
  match calculateScore questions selectedAnswers with
  | Some newScore =>
      Sent (saveActivityProgress session activity_id newScore true
                                 (Some (toJson selectedAnswers)) None)
  | None => NotANumber
  end.

(** The buttons of the question view. *)
Inductive Click := Next | Previous.

Definition click (questions : list Question) (currentQuestion : Z) (c : Click) : Z :=
  match c with
  | Next => fst (handleNext questions currentQuestion)
  | Previous => handlePrevious currentQuestion
  end.

End MultipleChoice.

(** ** components/activities/fill-blanks-activity *)

Module FillBlanks.

Record Sentence := mkSentence { s_id : string; s_answer : string }.

(** [Record<string, string>] *)
Definition Answers := JSObject.t string.

Definition lookup (answers : Answers) (key : string) : option string :=
  JSObject.get answers key.

Definition Object_keys (answers : Answers) : list string := JSObject.keys answers.

(** [{ ...answers, [sentenceId]: value }] *)
Definition handleAnswerChange (sentenceId value : string) (answers : Answers) : Answers :=
  JSObject.set sentenceId value answers.

Section WithLowerCase.

(** [String.prototype.toLowerCase], left open. *)
Variable toLowerCase : string -> string.

Definition correct (sentences : list Sentence) (answers : Answers) : Z :=
  fold_left
    (fun correct sentence =>
       if strict_eq (option_map toLowerCase (lookup answers (s_id sentence)))
                    (toLowerCase (s_answer sentence))
       then correct + 1 else correct)
    sentences 0.

Definition getScore (sentences : list Sentence) (answers : Answers) : option Z :=
  outOfFive (correct sentences answers) (Z.of_nat (length sentences)).

(** [handleSubmit], lines 56-96: nothing is sent unless the number of keys
    is the number of sentences; the time spent is passed as 0. *)
Definition handleSubmit (toJson : Answers -> Json) (session : AuthResponse)
    (activity_id : string) (sentences : list Sentence) (answers : Answers)
  : Submission :=
  if negb (Z.of_nat (length (Object_keys answers)) =? Z.of_nat (length sentences))
  then NoRequest
  else
    match getScore sentences answers with
    | Some newScore =>
        if JS.truthy_str activity_id
        then Sent (saveActivityProgress session activity_id newScore true
                                        (Some (toJson answers)) (Some 0))
        else NoRequest
    | None => if JS.truthy_str activity_id then NotANumber else NoRequest
    end.

End WithLowerCase.

End FillBlanks.

(** ** components/activities/flip-cards-activity *)

Module FlipCards.

Record Pair := mkPair { p_id : string; p_term : string; p_match : string }.

Record Card := mkCard {
  card_id : string;
  card_content : string;
  pairId : string;
  card_type : string
}.

(** The cards of lines 80-83, before they are shuffled. *)
Definition allCards (pairs : list Pair) : list Card :=
  flat_map (fun pair =>
              [mkCard ("term-" ++ p_id pair)%string (p_term pair) (p_id pair) "term";
               mkCard ("match-" ++ p_id pair)%string (p_match pair) (p_id pair) "match"])
           pairs.

(** [s.split(sep)] for a separator of one character. *)
Fixpoint split (sep : ascii) (s : string) : list string :=
  match s with
  | EmptyString => [EmptyString]
  | String c rest =>
      if Ascii.eqb c sep then EmptyString :: split sep rest
      else match split sep rest with
           | piece :: pieces => String c piece :: pieces
           | [] => [String c EmptyString]
           end
  end.

(** [l.includes(x)] for [x] a string or undefined, [l] holding strings. *)
Definition includes (l : list string) (x : option string) : bool :=
  match x with
  | Some s => existsb (String.eqb s) l
  | None => false
  end.

(** The state that the handlers read and write, and the delays of the
    timers that are pending. *)
Record State := mkState {
  isCompleted : bool;
  cards : list Card;
  flippedCards : list string;
  matchedPairs : list string;
  timers : list Z
}.

(** The component as it is shown for an activity that is not completed yet:
    the effect of lines 77-101 has set the shuffled cards. *)
Definition initial (cards : list Card) : State := mkState false cards [] [] [].

(** [handleCardClick], lines 104-136. *)
Definition handleCardClick (st : State) (cardId : string) : State :=
  if isCompleted st || includes (matchedPairs st) (nth_error (split "-" cardId) 1)
  then st
  (* Don't allow clicking more than 2 cards at once *)
  else if Z.of_nat (length (flippedCards st)) =? 2 then st
  (* Don't allow clicking the same card twice *)
  else if includes (flippedCards st) (Some cardId) then st
  else
    (* Flip the card *)
    let flipped := flippedCards st ++ [cardId] in
    (* If this is the second card, check for a match *)
    if Z.of_nat (length (flippedCards st)) =? 1 then
      let firstCard :=
        match hd_error (flippedCards st) with
        | Some first => find (fun card => (card_id card =? first)%string) (cards st)
        | None => None
        end in
      let secondCard := find (fun card => (card_id card =? cardId)%string) (cards st) in
      match firstCard, secondCard with
      | Some first, Some second =>
          if (pairId first =? pairId second)%string
          then mkState (isCompleted st) (cards st) flipped
                       (matchedPairs st ++ [pairId first]) (timers st ++ [1000])
          else mkState (isCompleted st) (cards st) flipped (matchedPairs st)
                       (timers st ++ [1500])
      | _, _ =>
          mkState (isCompleted st) (cards st) flipped (matchedPairs st)
                  (timers st ++ [1500])
      end
    else mkState (isCompleted st) (cards st) flipped (matchedPairs st) (timers st).

(** A pending timer fires: [setFlippedCards([])]. *)
Definition timeout (st : State) : State :=
  match timers st with
  | [] => st
  | _ :: pending =>
      mkState (isCompleted st) (cards st) [] (matchedPairs st) pending
  end.

Inductive Event := Click (cardId : string) | Timeout.

Definition step (st : State) (e : Event) : State :=
  match e with
  | Click cardId => handleCardClick st cardId
  | Timeout => timeout st
  end.

(** [Math.round((correctMatches / totalPairs) * 100)], lines 146-148; with no
    pair the quotient is not a finite number. *)
Definition calculatedScore (pairs : list Pair) (st : State) : option Z :=
  let totalPairs := Z.of_nat (length pairs) in
  let correctMatches := Z.of_nat (length (matchedPairs st)) in
  if totalPairs =? 0 then None
  else Some (JS.Math_round ((inject_Z correctMatches / inject_Z totalPairs) * 100)%Q).

(** [handleSave], lines 139-179, towards the server; [elapsed] is the time
    in milliseconds since the component was shown. *)
Definition handleSave (toJson : list string -> Json) (session : AuthResponse)
    (activity_id : string) (pairs : list Pair) (elapsed : Z) (st : State)
  : Submission :=
  if isCompleted st then NoRequest
  else
    match calculatedScore pairs st with
    | Some score =>
        let timeSpent := JS.Math_round (inject_Z elapsed / 1000)%Q in
        Sent (saveActivityProgress session activity_id score true
                                   (Some (toJson (matchedPairs st))) (Some timeSpent))
    | None => NotANumber
    end.

(** The character does not occur in the string. *)
Fixpoint without (c : ascii) (s : string) : bool :=
  match s with
  | EmptyString => true
  | String a rest => negb (Ascii.eqb a c) && without c rest
  end.

(** What the clicks and timers keep: the cards, and matched pairs that are
    distinct pairs of the activity. *)
Definition flip_invariant (pairs : list Pair) (cards0 : list Card) (st : State) : Prop :=
  cards st = cards0 /\ NoDup (matchedPairs st) /\
  incl (matchedPairs st) (map p_id pairs).

End FlipCards.

(** ** components/activities/match-lines-activity *)

Module MatchLines.

Record Pair := mkPair { p_id : string; p_term : string; p_match : string }.

(** [const [_, piece] = id.split("-")]: the second piece, or undefined. *)
Definition secondPiece (id : string) : option string :=
  nth_error (FlipCards.split "-" id) 1.

(** A value used as a property key: undefined reads as the key "undefined". *)
Definition asKey (piece : option string) : string :=
  match piece with
  | Some s => s
  | None => "undefined"
  end.

(** [a === b] for two values that are a string or undefined. *)
Definition same (a b : option string) : bool :=
  match a, b with
  | Some x, Some y => (x =? y)%string
  | None, None => true
  | _, _ => false
  end.

Inductive ItemType := term | definition.

Record State := mkState {
  isCompleted : bool;
  matches : JSObject.t string;
  results : JSObject.t bool;
  selectedTerm : option string
}.

(** The component as it is shown for an activity that is not completed yet. *)
Definition initial : State := mkState false [] [] None.

(** [handleItemClick], lines 160-208.  The type "match" of the source is
    [definition] here. *)
Definition handleItemClick (st : State) (id : string) (type : ItemType) : State :=
  if isCompleted st then st
  else
    match selectedTerm st, type with
    | None, term =>
        (* If no term is selected, select this one (if it's a term) *)
        mkState (isCompleted st) (matches st) (results st) (Some id)
    | None, definition => st
    | Some selected, _ =>
        if JS.truthy_str selected then
          (* If clicking the same term, deselect it *)
          if (selected =? id)%string
          then mkState (isCompleted st) (matches st) (results st) None
          else
            match type with
            | definition =>
                let termId := selected in
                let matchId := id in
                let termPairId := secondPiece termId in
                let matchPairId := secondPiece matchId in
                let isCorrect := same termPairId matchPairId in
                mkState (isCompleted st)
                        (JSObject.set termId matchId (matches st))
                        (JSObject.set (asKey termPairId) isCorrect (results st))
                        None
            | term => st
            end
        else
          match type with
          | term => mkState (isCompleted st) (matches st) (results st) (Some id)
          | definition => st
          end
    end.

(** The items that the component renders, lines 283-330: each calls
    [handleItemClick] with its own id and type. *)
Definition rendered (pairs : list Pair) (click : string * ItemType) : Prop :=
  exists pair, In pair pairs /\
    (click = (("term-" ++ p_id pair)%string, term) \/
     click = (("match-" ++ p_id pair)%string, definition)).

Definition step (st : State) (click : string * ItemType) : State :=
  handleItemClick st (fst click) (snd click).

(** [Object.values(results).filter((r) => r === true).length] *)
Definition correctMatches (st : State) : Z :=
  Z.of_nat (length (filter (fun r => r) (JSObject.values (results st)))).

(** [Math.round((correctMatches / totalPairs) * 100)], lines 218-220. *)
Definition calculatedScore (pairs : list Pair) (st : State) : option Z :=
  let totalPairs := Z.of_nat (length pairs) in
  if totalPairs =? 0 then None
  else Some (JS.Math_round ((inject_Z (correctMatches st) / inject_Z totalPairs) * 100)%Q).

(** What the clicks keep: a term is selected only from the rendered terms,
    and the results are keyed by second pieces of rendered term ids. *)
Definition lines_invariant (pairs : list Pair) (st : State) : Prop :=
  (forall selected, selectedTerm st = Some selected ->
                    exists pair, In pair pairs /\
                                 selected = ("term-" ++ p_id pair)%string) /\
  NoDup (JSObject.keys (results st)) /\
  incl (JSObject.keys (results st))
       (map (fun pair => asKey (secondPiece ("term-" ++ p_id pair)%string)) pairs).

(** The result recorded for a pair says whether its term is connected to its
    own definition. *)
Definition results_follow_matches (pairs : list Pair) (st : State) : Prop :=
  forall pair, In pair pairs ->
    JSObject.get (results st) (p_id pair)
    = option_map (fun matchId => (matchId =? "match-" ++ p_id pair)%string)
                 (JSObject.get (matches st) ("term-" ++ p_id pair)%string).

End MatchLines.

(** * Reasoning principles *)

(** ** Relations between the world before and after a computation *)

Section Steps.

Variable R : World -> World -> Prop.
Hypothesis R_refl : forall w, R w w.
Hypothesis R_trans : forall a b c, R a b -> R b c -> R a c.

Lemma steps_ret {A} (a : A) : steps_in R (ret a).
Proof. intros w. apply R_refl. Qed.

Lemma steps_bind {A B} (m : M A) (k : A -> M B) :
  steps_in R m -> (forall a, steps_in R (k a)) -> steps_in R (bind m k).
Proof.
  intros Hm Hk w. unfold bind.
  specialize (Hm w). destruct (m w) as [a w1]. simpl in Hm.
  eapply R_trans; [exact Hm | apply Hk].
Qed.

(** Reads: consuming an entry of the fault schedule is all they do. *)
Hypothesis R_faults : forall w f fs, faults w = f :: fs -> R w (with_faults fs w).

Lemma steps_call {D} (ok : World -> Response D * World) :
  (forall w, R w (snd (ok w))) -> steps_in R (call ok).
Proof.
  intros Hok w. unfold call.
  destruct (faults w) as [|[e|] fs] eqn:Hf; simpl.
  - apply Hok.
  - eapply R_faults, Hf.
  - eapply R_trans; [eapply R_faults, Hf | apply Hok].
Qed.

Lemma steps_select {T F} `{Filterable T F} (tbl : DB -> list T) (fs : list F) :
  steps_in R (select tbl fs).
Proof. apply steps_call. intros w. apply R_refl. Qed.

Lemma steps_select_single {T F} `{Filterable T F} (tbl : DB -> list T) (fs : list F) :
  steps_in R (select_single tbl fs).
Proof. apply steps_call. intros w. apply R_refl. Qed.

(** Ambient effects. *)
Hypothesis R_divide : forall a b, b <> 0 -> steps_in R (divide a b).
Hypothesis R_revalidate : forall p, steps_in R (revalidatePath p).

Section Aggregator.
Variables userId courseId : string.
Hypothesis R_insert :
  forall p s, steps_in R (insert_user_courses (mkNewUserCourse userId courseId p s)).
Hypothesis R_update :
  forall d i, steps_in R (update_user_courses d [UC_id i; UC_user_id userId]).

Lemma steps_updateCourseProgress : steps_in R (updateCourseProgress userId courseId).
Proof.
  unfold updateCourseProgress.
  apply steps_bind; [apply steps_select | intros r_act].
  destruct (error r_act); [apply steps_ret |].
  destruct (data r_act) as [acts|]; [| apply steps_ret].
  destruct (Z.eqb_spec (Z.of_nat (length acts)) 0) as [|Htotal]; [apply steps_ret |].
  apply steps_bind; [apply steps_select | intros r_done].
  destruct (error r_done); [apply steps_ret |].
  apply steps_bind; [apply R_divide; exact Htotal | intros q].
  apply steps_bind.
  { destruct (Z.ltb_spec 0 (JS.or_num (option_map (fun l => Z.of_nat (length l))
                                                  (data r_done)) 0)) as [Hpos|];
      [| apply steps_ret].
    apply steps_bind; [apply R_divide; lia | intros; apply steps_ret]. }
  intros averageScore.
  apply steps_bind; [apply steps_select_single | intros r_uc].
  assert (Hins : forall p s,
             steps_in R (insert_user_courses (mkNewUserCourse userId courseId p s) ;;;
                       ret tt)).
  { intros. apply steps_bind; [apply R_insert | intros; apply steps_ret]. }
  destruct (data r_uc) as [existing|]; [| apply Hins].
  destruct (JS.truthy_num (uc_id existing)); [| apply Hins].
  apply steps_bind; [apply R_update | intros; apply steps_ret].
Qed.
End Aggregator.

Section Enrollment.
Variables userId course_id : string.
Hypothesis R_enroll :
  steps_in R (insert_user_courses (mkNewUserCourse userId course_id 0 0)).
Hypothesis R_count : forall n, steps_in R (update_courses n [C_id course_id]).

Lemma steps_autoEnroll : steps_in R (autoEnroll userId course_id).
Proof.
  unfold autoEnroll.
  apply steps_bind; [apply steps_select_single | intros r_uc].
  destruct (data r_uc); [apply steps_ret |].
  apply steps_bind; [apply R_enroll | intros r_enroll].
  destruct (error r_enroll); [apply steps_ret |].
  apply steps_bind; [apply steps_select_single | intros r_course].
  apply steps_bind; [apply R_count | intros; apply steps_ret].
Qed.
End Enrollment.

Section Progress.
Variables userId activityId course_id : string.
Variables (score : Z) (completed : bool) (answers : option Json).
Hypothesis R_insert_progress :
  forall t, steps_in R (insert_user_progress
                        (mkProgressData userId activityId course_id
                                        score completed answers t)).
Hypothesis R_update_progress :
  forall t i, steps_in R (update_user_progress
                          (mkProgressData userId activityId course_id
                                          score completed answers t)
                          [UP_id i; UP_user_id userId]).

Lemma steps_writeProgress timeSpent :
  steps_in R (writeProgress userId activityId course_id
                          score completed answers timeSpent).
Proof.
  unfold writeProgress.
  apply steps_bind; [apply steps_select_single | intros r_prog].
  destruct (data r_prog) as [existing|]; simpl; [| apply R_insert_progress].
  destruct (JS.truthy_num (up_id existing));
    [apply R_update_progress | apply R_insert_progress].
Qed.
End Progress.

(** The whole request, from the statements it may issue. *)
Section Save.
Variable session : AuthResponse.
Variables (activityId : string) (score : Z) (completed : bool).
Variables (answers : option Json) (timeSpent : option Z).

Hypothesis R_writes_of_user :
  forall usr c,
    user session = Some usr ->
    (forall p s, steps_in R (insert_user_courses (mkNewUserCourse (u_id usr) c p s))) /\
    (forall d i, steps_in R (update_user_courses d [UC_id i; UC_user_id (u_id usr)])) /\
    (forall n, steps_in R (update_courses n [C_id c])) /\
    (forall t, steps_in R (insert_user_progress
                           (mkProgressData (u_id usr) activityId c
                                           score completed answers t))) /\
    (forall t i, steps_in R (update_user_progress
                             (mkProgressData (u_id usr) activityId c
                                             score completed answers t)
                             [UP_id i; UP_user_id (u_id usr)])).

Lemma steps_saveActivityProgress :
  steps_in R (saveActivityProgress session activityId score completed answers timeSpent).
Proof.
  unfold saveActivityProgress.
  destruct (userError session); [apply steps_ret |].
  destruct (user session) as [usr|] eqn:Husr; [| apply steps_ret].
  apply steps_bind; [apply steps_select_single | intros r_act].
  destruct (error r_act); [apply steps_ret |].
  destruct (data r_act) as [activity|]; [| apply steps_ret].
  destruct (R_writes_of_user usr (a_course_id activity) eq_refl)
    as (Hi & Hu & Hc & Hip & Hup).
  apply steps_bind; [apply steps_autoEnroll; auto | intros _].
  apply steps_bind; [apply steps_writeProgress; auto | intros result].
  destruct (error result); [apply steps_ret |].
  apply steps_bind; [apply steps_updateCourseProgress; auto | intros _].
  repeat (apply steps_bind; [apply R_revalidate | intros _]).
  apply steps_ret.
Qed.
End Save.

End Steps.

(** ** Instances of the relations *)

Lemma same_progress_refl w : same_progress w w.
Proof. reflexivity. Qed.

Lemma same_progress_trans a b c :
  same_progress a b -> same_progress b c -> same_progress a c.
Proof. unfold same_progress. congruence. Qed.

Lemma same_activities_refl w : same_activities w w.
Proof. reflexivity. Qed.

Lemma same_activities_trans a b c :
  same_activities a b -> same_activities b c -> same_activities a c.
Proof. unfold same_activities. congruence. Qed.

Lemma issued_refl Q w : issued Q w w.
Proof. exists []. split; [now rewrite app_nil_r | constructor]. Qed.

Lemma issued_trans Q a b c : issued Q a b -> issued Q b c -> issued Q a c.
Proof.
  intros (l1 & E1 & F1) (l2 & E2 & F2). exists (l1 ++ l2). split.
  - rewrite E2, E1. now rewrite app_assoc.
  - apply Forall_app. now split.
Qed.

Lemma divided_refl Q w : divided Q w w.
Proof. exists []. split; [now rewrite app_nil_r | constructor]. Qed.

Lemma divided_trans Q a b c : divided Q a b -> divided Q b c -> divided Q a c.
Proof.
  intros (l1 & E1 & F1) (l2 & E2 & F2). exists (l1 ++ l2). split.
  - rewrite E2, E1. now rewrite app_assoc.
  - apply Forall_app. now split.
Qed.

Lemma issued_of_eq Q w w' : writes w' = writes w -> issued Q w w'.
Proof. intros E. exists []. split; [now rewrite app_nil_r | constructor]. Qed.

Lemma issued_one (Q : Stmt -> Prop) w w' s :
  writes w' = writes w ++ [s] -> Q s -> issued Q w w'.
Proof. intros E H. exists [s]. split; [exact E | now repeat constructor]. Qed.

Lemma divided_of_eq Q w w' : divisors w' = divisors w -> divided Q w w'.
Proof. intros E. exists []. split; [now rewrite app_nil_r | constructor]. Qed.

Lemma stays_quiet_refl w : stays_quiet w w.
Proof. intros H. exact H. Qed.

Lemma stays_quiet_trans a b c : stays_quiet a b -> stays_quiet b c -> stays_quiet a c.
Proof. unfold stays_quiet. auto. Qed.

(** A write primitive is a statement put on the log followed by one call. *)
Ltac run_write :=
  let w := fresh "w" in
  intros w;
  unfold insert_user_courses, update_user_courses, update_courses,
         insert_user_progress, update_user_progress, call, issue, with_db, with_faults;
  simpl; destruct (faults w) as [|[?|] ?] eqn:?; simpl.

(** ** Facts about filters *)

Lemma filter_nil_iff {A} (f : A -> bool) (l : list A) :
  filter f l = [] <-> forall x, In x l -> f x = false.
Proof.
  induction l as [|a l IH]; simpl.
  - split; [intros _ x [] | reflexivity].
  - destruct (f a) eqn:Fa; split.
    + discriminate.
    + intros H. specialize (H a (or_introl eq_refl)). congruence.
    + intros H x [<-|Hx]; [exact Fa | now apply IH].
    + intros H. apply IH. intros x Hx. apply H. now right.
Qed.


(** ** Running a computation step by step *)

Lemma bind_run {A B} (m : M A) (k : A -> M B) w :
  bind m k w = k (fst (m w)) (snd (m w)).
Proof. unfold bind. now destruct (m w). Qed.

Lemma bind_discard {A} (m : M A) w : (m ;;; ret tt) w = (tt, snd (m w)).
Proof. now rewrite bind_run. Qed.

Lemma ret_run {A} (a : A) w : ret a w = (a, w).
Proof. reflexivity. Qed.

Lemma divide_run a b w :
  divide a b w = ((inject_Z a / inject_Z b)%Q, with_divisors [b] w).
Proof. reflexivity. Qed.

Lemma with_divisors_twice l1 l2 w :
  with_divisors l2 (with_divisors l1 w) = with_divisors (l1 ++ l2) w.
Proof. unfold with_divisors. simpl. now rewrite app_assoc. Qed.

Lemma or_num_zero (z : Z) : JS.or_num (Some z) 0 = z.
Proof.
  unfold JS.or_num, JS.truthy_num. destruct (Z.eqb_spec z 0); simpl; congruence.
Qed.

Lemma single_some {T} (l : list T) (r : T) :
  data (single l) = Some r -> l = [r].
Proof.
  destruct l as [|a [|b l]]; simpl; try discriminate. now intros [= ->].
Qed.

Lemma select_any {T F} `{Filterable T F} (tbl : DB -> list T) (fs : list F) w :
  let rw := select tbl fs w in
  only_faults w (snd rw) /\
  (error (fst rw) = None ->
   data (fst rw) = Some (filter (matches fs) (tbl (db w)))).
Proof.
  cbv zeta. unfold select, call, only_faults.
  destruct (faults w) as [|[e|] l]; simpl; auto 6. split; [auto |]. discriminate.
Qed.

Lemma select_single_any {T F} `{Filterable T F} (tbl : DB -> list T) (fs : list F) w :
  only_faults w (snd (select_single tbl fs w)).
Proof.
  unfold select_single, call, only_faults.
  destruct (faults w) as [|[e|] l]; simpl; auto.
Qed.

Lemma select_single_found {T F} `{Filterable T F} (tbl : DB -> list T) (fs : list F) w r :
  data (fst (select_single tbl fs w)) = Some r ->
  In r (filter (matches fs) (tbl (db w))).
Proof.
  unfold select_single, call.
  destruct (faults w) as [|[e|] l]; simpl; try discriminate;
    intros Hr; apply single_some in Hr; rewrite Hr; now left.
Qed.

Lemma insert_user_courses_writes row w :
  writes (snd (insert_user_courses row w)) = writes w ++ [InsertUserCourse row].
Proof. revert w. run_write; reflexivity. Qed.

Lemma update_user_courses_writes d fs w :
  writes (snd (update_user_courses d fs w)) = writes w ++ [UpdateUserCourse d fs].
Proof. revert w. run_write; reflexivity. Qed.

(** * The guards of [saveActivityProgress] *)

(** A request without a valid session fails and leaves the world as it is. *)
Lemma no_session_no_effect session activityId score completed answers timeSpent w :
  user session = None \/ userError session <> None ->
  let rw := saveActivityProgress session activityId score completed answers timeSpent w in
  success (fst rw) = false /\ snd rw = w.
Proof.
  intros H. cbv zeta. unfold saveActivityProgress.
  destruct (userError session) as [e|]; [split; reflexivity |].
  destruct (user session); [| split; reflexivity].
  destruct H as [H|H]; [discriminate | now elim H].
Qed.

(** C6. With no valid session (the provider reports an error or gives no
    user), [saveActivityProgress] returns the failure of its authentication
    guard, whose message is the provider's or else "User not authenticated",
    and hands the world back as it received it: no statement is issued and no
    table, schedule or cache entry changes. *)
Theorem unauthenticated_save_fails
    session activityId score completed answers timeSpent w :
  user session = None \/ userError session <> None ->
  saveActivityProgress session activityId score completed answers timeSpent w
  = (failure (JS.or_str (option_map auth_message (userError session))
                        "User not authenticated"), w).
Proof.
  intros H. unfold saveActivityProgress.
  destruct (userError session) as [e|]; [reflexivity |].
  destruct (user session); [| reflexivity].
  destruct H as [H|H]; [discriminate | now elim H].
Qed.

Lemma unauthenticated_save_fails_witness :
  saveActivityProgress Demo.anonymous "a1" 80 true None (Some 12) Demo.fresh
  = (failure "User not authenticated", Demo.fresh).
Proof.
  apply (unauthenticated_save_fails Demo.anonymous "a1" 80 true None (Some 12)).
  left. reflexivity.
Defined.



(** * The aggregator on a course without published activities *)

(** Every division of the aggregator has a non-zero divisor, in every world. *)
Lemma updateCourseProgress_divides_safely userId courseId :
  steps_in (divided (fun d => d <> 0)) (updateCourseProgress userId courseId).
Proof.
  apply steps_updateCourseProgress.
  - apply divided_refl.
  - apply divided_trans.
  - intros w f fs _. now apply divided_of_eq.
  - intros a b Hb w. exists [b]. split; [reflexivity | now repeat constructor].
  - intros p s. run_write; now apply divided_of_eq.
  - intros d i. run_write; now apply divided_of_eq.
Qed.

(** Without a published activity the aggregator leaves tables and log alone. *)
Lemma updateCourseProgress_nothing_published userId courseId w :
  published courseId (db w) = [] ->
  let w' := snd (updateCourseProgress userId courseId w) in
  writes w' = writes w /\ db w' = db w.
Proof.
  intros Hnone. cbv zeta. unfold updateCourseProgress.
  rewrite bind_run.
  destruct (select_any activities [A_course_id courseId; A_status "published"] w)
    as ((Hdb & Hw & _) & Hdata).
  destruct (select activities [A_course_id courseId; A_status "published"] w) as [r w1].
  cbn [fst snd] in *.
  destruct (error r); [now split |].
  rewrite (Hdata eq_refl). fold (published courseId (db w)). rewrite Hnone.
  now split.
Qed.

(** C8. For a course with no published activity the aggregator returns at its
    guard: it issues no statement, changes no table, and performs no division
    at all, whatever the fault schedule. *)
Theorem aggregator_skips_empty_course userId courseId w :
  published courseId (db w) = [] ->
  let w' := snd (updateCourseProgress userId courseId w) in
  writes w' = writes w /\ db w' = db w /\ divisors w' = divisors w.
Proof.
  intros Hnone. unfold updateCourseProgress, bind, select, call.
  unfold published in Hnone.
  destruct (faults w) as [|[e|] fs]; unfold with_faults; cbn [db];
    try rewrite Hnone; simpl; auto.
Qed.

Lemma aggregator_skips_empty_course_witness :
  let w := mkWorld (mkDB [mkActivity "a1" "c1" "draft"] [mkCourse "c1" 1]
                         [mkUserCourse 1 "alice" "c1" 0 0]
                         [mkUserProgress 2 "alice" "a1" "c1" 80 true None 12] 3)
                   [] [] [] [] in
  let w' := snd (updateCourseProgress "alice" "c1" w) in
  writes w' = writes w /\ db w' = db w /\ divisors w' = divisors w.
Proof.
  apply (aggregator_skips_empty_course "alice" "c1"). reflexivity.
Defined.

(** * Scoping of the writes to the acting user *)

Lemma update_where_frame {T F} `{Filterable T F}
    (keep : T -> bool) (fs : list F) (set : T -> T) (rows : list T) :
  (forall r, matches fs r = true -> keep r = false /\ keep (set r) = false) ->
  filter keep (update_where fs set rows) = filter keep rows.
Proof.
  intros Hfs. unfold update_where.
  induction rows as [|r rows IH]; simpl; [reflexivity |].
  destruct (matches fs r) eqn:Hm.
  - destruct (Hfs r Hm) as [-> ->]. exact IH.
  - destruct (keep r); now rewrite IH.
Qed.

Lemma filter_snoc_out {A} (f : A -> bool) (l : list A) (a : A) :
  f a = false -> filter f (l ++ [a]) = filter f l.
Proof. intros Ha. rewrite filter_app. simpl. rewrite Ha. apply app_nil_r. Qed.

Lemma others_untouched_refl u w : others_untouched u w w.
Proof. split; reflexivity. Qed.

Lemma others_untouched_trans u a b c :
  others_untouched u a b -> others_untouched u b c -> others_untouched u a c.
Proof. intros [H1 H2] [H3 H4]. split; congruence. Qed.

Lemma others_untouched_of_eq u w w' : db w' = db w -> others_untouched u w w'.
Proof. intros E. unfold others_untouched. rewrite E. split; reflexivity. Qed.

Lemma negb_eqb_same (u : string) : negb (u =? u)%string = false.
Proof. now rewrite String.eqb_refl. Qed.

Lemma scoped_to_refl u w : scoped_to u w w.
Proof. split; [apply issued_refl | apply others_untouched_refl]. Qed.

Lemma scoped_to_trans u a b c : scoped_to u a b -> scoped_to u b c -> scoped_to u a c.
Proof.
  intros [H1 H2] [H3 H4]. split.
  - eapply issued_trans; eassumption.
  - eapply others_untouched_trans; eassumption.
Qed.

Lemma scoped_insert_user_courses u c p s :
  steps_in (scoped_to u) (insert_user_courses (mkNewUserCourse u c p s)).
Proof.
  run_write; (split; [eapply issued_one; [reflexivity | exact I] |]).
  - split; simpl; [| reflexivity].
    apply filter_snoc_out. simpl. apply negb_eqb_same.
  - now apply others_untouched_of_eq.
  - split; simpl; [| reflexivity].
    apply filter_snoc_out. simpl. apply negb_eqb_same.
Qed.

Lemma scoped_update_user_courses u d i :
  steps_in (scoped_to u) (update_user_courses d [UC_id i; UC_user_id u]).
Proof.
  assert (Hframe : forall rows,
    filter (fun r => negb (uc_user_id r =? u)%string)
           (update_where [UC_id i; UC_user_id u] (set_user_course d) rows)
    = filter (fun r => negb (uc_user_id r =? u)%string) rows).
  { intros rows. apply update_where_frame. intros r Hm. simpl in Hm.
    unfold holds in Hm; simpl in Hm.
    apply andb_prop in Hm as [_ Hm]. apply andb_prop in Hm as [Hm _].
    simpl. now rewrite Hm. }
  run_write; (split; [eapply issued_one; [reflexivity | simpl; auto] |]).
  - split; simpl; [apply Hframe | reflexivity].
  - now apply others_untouched_of_eq.
  - split; simpl; [apply Hframe | reflexivity].
Qed.

Lemma scoped_update_courses u n c :
  steps_in (scoped_to u) (update_courses n [C_id c]).
Proof.
  run_write; (split; [eapply issued_one; [reflexivity | now exists c] |]);
    split; reflexivity.
Qed.

Lemma scoped_insert_user_progress u pd :
  pd_user_id pd = u ->
  steps_in (scoped_to u) (insert_user_progress pd).
Proof.
  intros Hu.
  run_write; (split; [eapply issued_one; [reflexivity | exact I] |]).
  - split; simpl; [reflexivity |].
    apply filter_snoc_out. simpl. rewrite Hu. apply negb_eqb_same.
  - now apply others_untouched_of_eq.
  - split; simpl; [reflexivity |].
    apply filter_snoc_out. simpl. rewrite Hu. apply negb_eqb_same.
Qed.

Lemma scoped_update_user_progress u pd i :
  pd_user_id pd = u ->
  steps_in (scoped_to u) (update_user_progress pd [UP_id i; UP_user_id u]).
Proof.
  intros Hu.
  assert (Hframe : forall rows,
    filter (fun r => negb (up_user_id r =? u)%string)
           (update_where [UP_id i; UP_user_id u] (set_user_progress pd) rows)
    = filter (fun r => negb (up_user_id r =? u)%string) rows).
  { intros rows. apply update_where_frame. intros r Hm. simpl in Hm.
    unfold holds in Hm; simpl in Hm.
    apply andb_prop in Hm as [_ Hm]. apply andb_prop in Hm as [Hm _].
    simpl. rewrite Hm, Hu. split; [reflexivity | apply negb_eqb_same]. }
  run_write; (split; [eapply issued_one; [reflexivity | simpl; auto] |]).
  - split; simpl; [reflexivity | apply Hframe].
  - now apply others_untouched_of_eq.
  - split; simpl; [reflexivity | apply Hframe].
Qed.

(** C9, as the code has it.  Every update that [saveActivityProgress] (and the
    aggregator it runs) issues on [user_progress] or [user_courses] carries an
    equality filter on the acting user's id, and no enrollment or progress row
    of another user is modified, whatever the fault schedule.  The update of
    the course counter is filtered by the course id alone. *)
Theorem writes_scoped_to_acting_user
    session usr activityId score completed answers timeSpent w :
  user session = Some usr ->
  let w' := snd (saveActivityProgress session activityId score completed
                                      answers timeSpent w) in
  issued (owner_filtered (u_id usr)) w w' /\ others_untouched (u_id usr) w w'.
Proof.
  intros Husr.
  apply (steps_saveActivityProgress (scoped_to (u_id usr))).
  - apply scoped_to_refl.
  - apply scoped_to_trans.
  - intros w0 f fs _. split; [now apply issued_of_eq | now apply others_untouched_of_eq].
  - intros a b _ w0. split; [now apply issued_of_eq | now apply others_untouched_of_eq].
  - intros p w0. split; [now apply issued_of_eq | now apply others_untouched_of_eq].
  - intros usr0 c Husr0. rewrite Husr in Husr0. injection Husr0 as <-.
    split; [| split; [| split; [| split]]].
    + intros p s. apply scoped_insert_user_courses.
    + intros d i. apply scoped_update_user_courses.
    + intros n. apply scoped_update_courses.
    + intros t. now apply scoped_insert_user_progress.
    + intros t i. now apply scoped_update_user_progress.
Qed.

Lemma writes_scoped_to_acting_user_witness :
  let w' := snd (saveActivityProgress Demo.alice "a1" 80 true None (Some 12) Demo.fresh) in
  issued (owner_filtered "alice") Demo.fresh w' /\ others_untouched "alice" Demo.fresh w'.
Proof.
  apply (writes_scoped_to_acting_user Demo.alice (mkUser "alice") "a1" 80 true None (Some 12)).
  reflexivity.
Defined.

(** C9 as stated fails: on her first save in a course, the statement that
    bumps the course counter is an update filtered by the course id only. *)
Lemma counter_update_not_user_filtered :
  let w' := snd (saveActivityProgress Demo.alice "a1" 80 true None (Some 12) Demo.fresh) in
  In (UpdateCourse 1 [C_id "c1"]) (writes w') /\
  ~ issued (user_filtered "alice") Demo.fresh w'.
Proof.
  split.
  - vm_compute. auto.
  - intros (l & E & F). vm_compute in E. subst l.
    inversion F as [|s1 l1 _ F1]; subst.
    inversion F1 as [|s2 l2 H2 _]; subst.
    exact H2.
Qed.

(** * Running the code on a store that answers without faults *)

Lemma call_quiet {D} (ok : World -> Response D * World) w :
  faults w = [] -> call ok w = ok w.
Proof. intros H. unfold call. now rewrite H. Qed.

Lemma select_quiet {T F} `{Filterable T F} (tbl : DB -> list T) (fs : list F) w :
  faults w = [] ->
  select tbl fs w = (mkResponse (Some (filter (matches fs) (tbl (db w)))) None, w).
Proof. intros Hq. unfold select. now rewrite call_quiet. Qed.

Lemma select_single_quiet {T F} `{Filterable T F} (tbl : DB -> list T) (fs : list F) w :
  faults w = [] ->
  select_single tbl fs w = (single (filter (matches fs) (tbl (db w))), w).
Proof. intros Hq. unfold select_single. now rewrite call_quiet. Qed.

Lemma insert_user_progress_quiet pd w :
  faults w = [] ->
  insert_user_progress pd w
  = (mkResponse (Some [new_user_progress (next_id (db w)) pd]) None,
     with_db (fun b => mkDB (activities b) (courses b) (user_courses b)
                            (user_progress b ++ [new_user_progress (next_id (db w)) pd])
                            (next_id b + 1))
             (issue (InsertUserProgress pd) w)).
Proof. intros Hq. unfold insert_user_progress. now rewrite call_quiet. Qed.

Lemma update_user_progress_quiet pd fs w :
  faults w = [] ->
  update_user_progress pd fs w
  = (mkResponse (Some (map (set_user_progress pd)
                           (filter (matches fs) (user_progress (db w))))) None,
     with_db (fun b => mkDB (activities b) (courses b) (user_courses b)
                            (update_where fs (set_user_progress pd) (user_progress (db w)))
                            (next_id b))
             (issue (UpdateUserProgress pd fs) w)).
Proof. intros Hq. unfold update_user_progress. now rewrite call_quiet. Qed.

Lemma insert_user_courses_quiet row w :
  faults w = [] ->
  insert_user_courses row w
  = (mkResponse None None,
     with_db (fun d => mkDB (activities d) (courses d)
                            (user_courses d ++
                               [mkUserCourse (next_id (db w)) (nuc_user_id row)
                                  (nuc_course_id row) (nuc_progress row) (nuc_score row)])
                            (user_progress d) (next_id d + 1))
             (issue (InsertUserCourse row) w)).
Proof. intros Hq. unfold insert_user_courses. now rewrite call_quiet. Qed.

Lemma update_user_courses_quiet d fs w :
  faults w = [] ->
  update_user_courses d fs w
  = (mkResponse None None,
     with_db (fun b => mkDB (activities b) (courses b)
                            (update_where fs (set_user_course d) (user_courses b))
                            (user_progress b) (next_id b))
             (issue (UpdateUserCourse d fs) w)).
Proof. intros Hq. unfold update_user_courses. now rewrite call_quiet. Qed.

Lemma update_courses_quiet n fs w :
  faults w = [] ->
  update_courses n fs w
  = (mkResponse None None,
     with_db (fun b => mkDB (activities b)
                            (update_where fs (set_total_enrollment n) (courses b))
                            (user_courses b) (user_progress b) (next_id b))
             (issue (UpdateCourse n fs) w)).
Proof. intros Hq. unfold update_courses. now rewrite call_quiet. Qed.

(** What a run established, from the relation its computation steps in. *)
Lemma steps_in_run {R : World -> World -> Prop} {A} (m : M A) w a w' :
  steps_in R m -> m w = (a, w') -> R w w'.
Proof. intros Hm E. specialize (Hm w). now rewrite E in Hm. Qed.

(** ** The bookkeeping frame *)

Lemma bookkeeping_frame_refl w : bookkeeping_frame w w.
Proof.
  split; [apply same_progress_refl | split];
    [apply same_activities_refl | apply stays_quiet_refl].
Qed.

Lemma bookkeeping_frame_trans a b c :
  bookkeeping_frame a b -> bookkeeping_frame b c -> bookkeeping_frame a c.
Proof.
  intros (P1 & A1 & Q1) (P2 & A2 & Q2). split; [| split].
  - eapply same_progress_trans; eassumption.
  - eapply same_activities_trans; eassumption.
  - eapply stays_quiet_trans; eassumption.
Qed.

Lemma bookkeeping_frame_of_eq w w' :
  user_progress (db w') = user_progress (db w) ->
  activities (db w') = activities (db w) ->
  (faults w = [] -> faults w' = []) ->
  bookkeeping_frame w w'.
Proof. intros P A Q. split; [exact P | split; [exact A | exact Q]]. Qed.

Ltac frame_write :=
  run_write; apply bookkeeping_frame_of_eq; simpl; auto; congruence.

Lemma autoEnroll_frame userId course_id :
  steps_in bookkeeping_frame (autoEnroll userId course_id).
Proof.
  apply steps_autoEnroll.
  - apply bookkeeping_frame_refl.
  - apply bookkeeping_frame_trans.
  - intros w f fs Hf. apply bookkeeping_frame_of_eq; simpl; auto.
    rewrite Hf. discriminate.
  - frame_write.
  - intros n. frame_write.
Qed.

Lemma updateCourseProgress_frame userId courseId :
  steps_in bookkeeping_frame (updateCourseProgress userId courseId).
Proof.
  apply steps_updateCourseProgress.
  - apply bookkeeping_frame_refl.
  - apply bookkeeping_frame_trans.
  - intros w f fs Hf. apply bookkeeping_frame_of_eq; simpl; auto.
    rewrite Hf. discriminate.
  - intros a b _ w. now apply bookkeeping_frame_of_eq.
  - intros p s. frame_write.
  - intros d i. frame_write.
Qed.

(** ** Facts about the look-ups and the row updates *)


Lemma updated_rows_stored {T F} `{Filterable T F}
    (fs : list F) (set : T -> T) (rows : list T) (x : T) :
  In x (map set (filter (matches fs) rows)) -> In x (update_where fs set rows).
Proof.
  intros Hx. apply in_map_iff in Hx as (r & <- & Hr).
  apply filter_In in Hr as [Hr Hm].
  unfold update_where. apply in_map_iff. exists r. now rewrite Hm.
Qed.

Lemma stored_time_spent_eq timeSpent prior :
  JS.or_num (JS.or timeSpent (option_map up_time_spent prior)) 0
  = stored_time_spent timeSpent prior.
Proof.
  unfold stored_time_spent, spec_time_spent, JS.or_num, JS.or, JS.truthy_num.
  assert (Hprior : forall r : UserProgress,
            (if negb (up_time_spent r =? 0) then up_time_spent r else 0)
            = up_time_spent r).
  { intros r. destruct (Z.eqb_spec (up_time_spent r) 0); simpl; congruence. }
  destruct timeSpent as [t|]; simpl.
  - destruct (t =? 0) eqn:Ht; simpl.
    + destruct prior as [r|]; simpl; [apply Hprior | reflexivity].
    + now rewrite Ht.
  - destruct prior as [r|]; simpl; [apply Hprior | reflexivity].
Qed.

(** The progress write on a store that answers without faults. *)
Lemma writeProgress_quiet userId activityId course_id score completed answers timeSpent w :
  faults w = [] ->
  let prior := priorProgress userId activityId (db w) in
  let pd := mkProgressData userId activityId course_id score completed answers
                           (stored_time_spent timeSpent prior) in
  writeProgress userId activityId course_id score completed answers timeSpent w
  = match prior with
    | Some existing =>
        if JS.truthy_num (up_id existing)
        then update_user_progress pd [UP_id (up_id existing); UP_user_id userId] w
        else insert_user_progress pd w
    | None => insert_user_progress pd w
    end.
Proof.
  intros Hq prior pd. unfold writeProgress, bind.
  rewrite select_single_quiet by exact Hq.
  fold (progressRows userId activityId (db w)).
  fold (priorProgress userId activityId (db w)). fold prior.
  rewrite stored_time_spent_eq. fold pd.
  destruct prior as [existing|]; [destruct (JS.truthy_num _) |]; reflexivity.
Qed.

Lemma writeProgress_quiet_succeeds
    userId activityId course_id score completed answers timeSpent w :
  faults w = [] ->
  error (fst (writeProgress userId activityId course_id score completed
                            answers timeSpent w)) = None.
Proof.
  intros Hq. rewrite writeProgress_quiet by exact Hq.
  destruct (priorProgress userId activityId (db w)) as [existing|];
    [destruct (JS.truthy_num (up_id existing)) |];
    rewrite ?update_user_progress_quiet, ?insert_user_progress_quiet by exact Hq;
    reflexivity.
Qed.

(** The stages of a request that passes both guards, on a store that answers
    without faults: enrollment bookkeeping, progress write, aggregation and
    cache invalidation. *)
Lemma saveActivityProgress_quiet
    session usr act activityId score completed answers timeSpent w :
  faults w = [] ->
  userError session = None ->
  user session = Some usr ->
  filter (matches [A_id activityId]) (activities (db w)) = [act] ->
  let c := a_course_id act in
  let w1 := snd (autoEnroll (u_id usr) c w) in
  let rw2 := writeProgress (u_id usr) activityId c score completed answers timeSpent w1 in
  let w3 := snd (updateCourseProgress (u_id usr) c (snd rw2)) in
  saveActivityProgress session activityId score completed answers timeSpent w
  = (mkResult true (data (fst rw2)) None,
     mkWorld (db w3) (faults w3) (writes w3) (divisors w3)
             (revalidated w3 ++
                ["/dashboard/activities/" ++ activityId; "/dashboard/courses/" ++ c;
                 "/dashboard"; "/dashboard/progress"]%string)).
Proof.
  intros Hq He Hu Hact c w1 rw2 w3.
  unfold saveActivityProgress. rewrite He, Hu. unfold bind at 1.
  rewrite select_single_quiet by exact Hq. rewrite Hact. cbn [single error data].
  fold c. unfold bind at 1.
  pose proof (steps_in_run _ w tt w1 (autoEnroll_frame (u_id usr) c)) as Hframe.
  subst w1. destruct (autoEnroll (u_id usr) c w) as [[] w1] eqn:E1. cbn [snd] in *.
  destruct (Hframe eq_refl) as (_ & _ & Hq1). specialize (Hq1 Hq).
  unfold bind at 1.
  pose proof (writeProgress_quiet_succeeds (u_id usr) activityId c score completed
                answers timeSpent w1 Hq1) as Hok.
  subst rw2. destruct (writeProgress _ _ _ _ _ _ _ w1) as [result w2]. cbn [fst snd] in *.
  rewrite Hok. unfold bind at 1.
  subst w3. destruct (updateCourseProgress (u_id usr) c w2) as [[] w3]. cbn [snd].
  unfold bind, revalidatePath, ret. cbn.
  repeat rewrite <- app_assoc. reflexivity.
Qed.

(** * Time spent *)

(** The rows that the progress write returns, are stored and carry the time
    computed by the code. *)
Lemma writeProgress_quiet_rows
    userId activityId course_id score completed answers timeSpent w :
  faults w = [] ->
  let rw := writeProgress userId activityId course_id score completed
                          answers timeSpent w in
  exists rows,
    data (fst rw) = Some rows /\ rows <> [] /\
    forall row, In row rows ->
      In row (user_progress (db (snd rw))) /\
      up_user_id row = userId /\
      up_activity_id row = activityId /\
      up_score row = score /\
      up_completed row = completed /\
      up_time_spent row
      = stored_time_spent timeSpent (priorProgress userId activityId (db w)).
Proof.
  intros Hq. cbv zeta. rewrite writeProgress_quiet by exact Hq.
  assert (Hinsert : forall pd,
    pd = mkProgressData userId activityId course_id score completed answers
           (stored_time_spent timeSpent (priorProgress userId activityId (db w))) ->
    exists rows,
      data (fst (insert_user_progress pd w)) = Some rows /\ rows <> [] /\
      forall row, In row rows ->
        In row (user_progress (db (snd (insert_user_progress pd w)))) /\
        up_user_id row = userId /\ up_activity_id row = activityId /\
        up_score row = score /\ up_completed row = completed /\
        up_time_spent row
        = stored_time_spent timeSpent (priorProgress userId activityId (db w))).
  { intros pd ->. rewrite insert_user_progress_quiet by exact Hq.
    eexists. split; [reflexivity |]. split; [discriminate |].
    intros row [<-|[]]. simpl. split; [| auto 6].
    apply in_or_app. right. now left. }
  destruct (priorProgress userId activityId (db w)) as [existing|] eqn:Hprior;
    [| now apply Hinsert].
  destruct (JS.truthy_num (up_id existing)); [| now apply Hinsert].
  rewrite update_user_progress_quiet by exact Hq.
  eexists. split; [reflexivity |]. split.
  - (* the row found passes the filters of the update *)
    apply single_some in Hprior.
    assert (Hin : In existing (progressRows userId activityId (db w)))
      by (rewrite Hprior; now left).
    apply filter_In in Hin as [Hin Hm].
    assert (Hsel : In existing
              (filter (matches [UP_id (up_id existing); UP_user_id userId])
                      (user_progress (db w)))).
    { apply filter_In. split; [exact Hin |].
      simpl in *. unfold holds in *; simpl in *.
      rewrite Z.eqb_refl. apply andb_prop in Hm as [-> _]. reflexivity. }
    intros Hnil. cbn [fst data] in Hnil.
    apply map_eq_nil in Hnil. rewrite Hnil in Hsel. exact Hsel.
  - intros row Hrow. cbn [fst snd data] in *. split.
    + simpl. now apply updated_rows_stored.
    + apply in_map_iff in Hrow as (r & <- & _). simpl. auto 6.
Qed.

(** C2, as the code has it.  On a store that answers without faults, a save
    that passes both guards succeeds, returns the progress rows it wrote, and
    each of them is stored with [time_spent] equal to: the supplied value when
    one is supplied and is not 0; otherwise the value of the prior row that
    the look-up found; otherwise 0. *)
Theorem saved_time_spent
    session usr act activityId score completed answers timeSpent w :
  faults w = [] ->
  userError session = None ->
  user session = Some usr ->
  filter (matches [A_id activityId]) (activities (db w)) = [act] ->
  let rw := saveActivityProgress session activityId score completed answers timeSpent w in
  success (fst rw) = true /\
  exists rows,
    result_data (fst rw) = Some rows /\ rows <> [] /\
    forall row, In row rows ->
      In row (user_progress (db (snd rw))) /\
      up_time_spent row
      = stored_time_spent timeSpent (priorProgress (u_id usr) activityId (db w)).
Proof.
  intros Hq He Hu Hact. cbv zeta.
  rewrite (saveActivityProgress_quiet session usr act) by assumption.
  cbn [fst snd success result_data db].
  set (c := a_course_id act).
  pose proof (autoEnroll_frame (u_id usr) c w) as (Hp1 & _ & Hq1).
  specialize (Hq1 Hq).
  set (w1 := snd (autoEnroll (u_id usr) c w)) in *.
  destruct (writeProgress_quiet_rows (u_id usr) activityId c score completed
              answers timeSpent w1 Hq1) as (rows & Hdata & Hne & Hrows).
  set (rw2 := writeProgress (u_id usr) activityId c score completed answers timeSpent w1) in *.
  pose proof (updateCourseProgress_frame (u_id usr) c (snd rw2)) as (Hp3 & _ & _).
  split; [reflexivity |]. exists rows. split; [exact Hdata |]. split; [exact Hne |].
  intros row Hrow. destruct (Hrows row Hrow) as (Hin & _ & _ & _ & _ & Htime).
  split.
  - unfold same_progress in Hp3. rewrite Hp3. exact Hin.
  - rewrite Htime. unfold priorProgress, progressRows.
    unfold same_progress in Hp1. now rewrite Hp1.
Qed.

Lemma saved_time_spent_witness :
  let rw := saveActivityProgress Demo.alice "a1" 90 true None None Demo.enrolled in
  success (fst rw) = true /\
  exists rows,
    result_data (fst rw) = Some rows /\ rows <> [] /\
    forall row, In row rows ->
      In row (user_progress (db (snd rw))) /\
      up_time_spent row
      = stored_time_spent None (priorProgress "alice" "a1" (db Demo.enrolled)).
Proof.
  apply (saved_time_spent Demo.alice (mkUser "alice")
           (mkActivity "a1" "c1" "published") "a1" 90 true None None Demo.enrolled);
    reflexivity.
Defined.

(** C2 as stated fails: a supplied [timeSpent] of 0 is not stored when the
    prior row holds 50; the row keeps 50. *)
Lemma zero_time_spent_not_stored :
  let rw := saveActivityProgress Demo.alice "a1" 90 true None (Some 0) Demo.enrolled in
  success (fst rw) = true /\
  map up_time_spent (user_progress (db (snd rw))) = [50] /\
  spec_time_spent (Some 0) (priorProgress "alice" "a1" (db Demo.enrolled)) = 0 /\
  map up_time_spent (user_progress (db (snd rw)))
  <> [spec_time_spent (Some 0) (priorProgress "alice" "a1" (db Demo.enrolled))].
Proof. vm_compute. repeat split; discriminate. Qed.

(** * Rows and their keys *)

Lemma key_is_spec k k' : key_is k k' = true <-> k' = k.
Proof.
  unfold key_is. destruct k as [a b], k' as [a' b']. simpl.
  rewrite andb_true_r, andb_true_iff, !String.eqb_eq.
  split; [intros [-> ->]; reflexivity | intros [= -> ->]; auto].
Qed.

Lemma matches_up_key u a r :
  matches [UP_user_id u; UP_activity_id a] r = key_is (u, a) (up_key r).
Proof. reflexivity. Qed.

Lemma matches_uc_key u c r :
  matches [UC_user_id u; UC_course_id c] r = key_is (u, c) (uc_key r).
Proof. reflexivity. Qed.

Lemma NoDup_map_injective {A B} (f : A -> B) (l : list A) x y :
  NoDup (map f l) -> In x l -> In y l -> f x = f y -> x = y.
Proof.
  induction l as [|a l IH]; simpl; [intros _ [] |].
  intros Hnd Hx Hy E. inversion Hnd as [|? ? Hout Hnd']; subst.
  destruct Hx as [->|Hx], Hy as [->|Hy]; auto.
  - elim Hout. rewrite E. now apply in_map.
  - elim Hout. rewrite <- E. now apply in_map.
Qed.

(** Selecting by key from rows whose keys are distinct gives at most one row. *)
Lemma select_by_key_unique {T K} (f : T -> K) (p : T -> bool) (k : K) (l : list T) :
  (forall r, p r = true <-> f r = k) ->
  NoDup (map f l) ->
  filter p l = [] \/ exists r, filter p l = [r].
Proof.
  intros Hp. induction l as [|a l IH]; simpl; [now left |].
  intros Hnd. inversion Hnd as [|? ? Hout Hnd']; subst.
  destruct (p a) eqn:Pa.
  - right. exists a. f_equal. apply filter_nil_iff. intros x Hx.
    destruct (p x) eqn:Px; [| reflexivity].
    elim Hout. apply Hp in Pa, Px. rewrite Pa, <- Px. now apply in_map.
  - now apply IH.
Qed.

Lemma select_by_key_none {T K} (f : T -> K) (p : T -> bool) (k : K) (l : list T) :
  (forall r, p r = true <-> f r = k) ->
  filter p l = [] -> ~ In k (map f l).
Proof.
  intros Hp Hnil Hin. apply in_map_iff in Hin as (r & Hr & Hin).
  apply Hp in Hr. rewrite filter_nil_iff in Hnil. rewrite (Hnil r Hin) in Hr.
  discriminate.
Qed.


(** An update that keeps a column of every row it rewrites keeps the column. *)
Lemma update_where_keeps {T F C} `{Filterable T F}
    (g : T -> C) (fs : list F) (set : T -> T) (rows : list T) :
  (forall r, In r rows -> matches fs r = true -> g (set r) = g r) ->
  map g (update_where fs set rows) = map g rows.
Proof.
  intros Hset. unfold update_where. rewrite map_map. apply map_ext_in.
  intros r Hr. destruct (matches fs r) eqn:Hm; [now apply Hset | reflexivity].
Qed.

Lemma NoDup_snoc {A} (l : list A) (a : A) :
  NoDup l -> ~ In a l -> NoDup (l ++ [a]).
Proof.
  intros Hnd Hout. apply NoDup_app; [exact Hnd | repeat constructor; intros [] |].
  intros x Hx [<-|[]]. now apply Hout.
Qed.

Lemma fresh_id_not_used (n : Z) (ids : list Z) :
  Forall (fun i => 0 < i < n) ids -> ~ In n ids.
Proof.
  intros Hall Hin. rewrite Forall_forall in Hall. specialize (Hall n Hin). lia.
Qed.

Lemma ids_below_next (n : Z) (ids : list Z) :
  Forall (fun i => 0 < i < n) ids -> Forall (fun i => 0 < i < n + 1) ids.
Proof. apply Forall_impl. intros i. lia. Qed.

Lemma filter_update_where {T F} `{Filterable T F}
    (p : T -> bool) (fs : list F) (set : T -> T) (rows : list T) :
  (forall r, In r rows -> matches fs r = true -> p (set r) = p r) ->
  filter p (update_where fs set rows) = update_where fs set (filter p rows).
Proof.
  intros Hp. unfold update_where.
  induction rows as [|r rows IH]; simpl; [reflexivity |].
  assert (IH' := IH (fun x Hx => Hp x (or_intror Hx))).
  destruct (matches fs r) eqn:Hm.
  - rewrite (Hp r (or_introl eq_refl) Hm).
    destruct (p r); simpl; [rewrite Hm |]; now rewrite IH'.
  - destruct (p r); simpl; [rewrite Hm |]; now rewrite IH'.
Qed.

(** * The progress write on a well-formed store *)

(** A row found by the look-up has a truthy id. *)
Lemma wf_progress_id_truthy d r :
  wf d -> In r (user_progress d) -> JS.truthy_num (up_id r) = true.
Proof.
  intros Hwf Hr. pose proof (wf_up_ids d Hwf) as Hids.
  rewrite Forall_forall in Hids. specialize (Hids (up_id r) (in_map _ _ _ Hr)).
  unfold JS.truthy_num. destruct (Z.eqb_spec (up_id r) 0); [lia | reflexivity].
Qed.

Lemma wf_enrollment_id_truthy d r :
  wf d -> In r (user_courses d) -> JS.truthy_num (uc_id r) = true.
Proof.
  intros Hwf Hr. pose proof (wf_uc_ids d Hwf) as Hids.
  rewrite Forall_forall in Hids. specialize (Hids (uc_id r) (in_map _ _ _ Hr)).
  unfold JS.truthy_num. destruct (Z.eqb_spec (uc_id r) 0); [lia | reflexivity].
Qed.

Lemma wf_progress_rows d u a :
  wf d -> progressRows u a d = [] \/ exists r, progressRows u a d = [r].
Proof.
  intros Hwf. unfold progressRows.
  apply (select_by_key_unique up_key _ (u, a)); [| apply (wf_up_key d Hwf)].
  intros r. rewrite matches_up_key. apply key_is_spec.
Qed.

Lemma wf_enrollments d u c :
  wf d -> enrollments u c d = [] \/ exists r, enrollments u c d = [r].
Proof.
  intros Hwf. unfold enrollments.
  apply (select_by_key_unique uc_key _ (u, c)); [| apply (wf_uc_key d Hwf)].
  intros r. rewrite matches_uc_key. apply key_is_spec.
Qed.

(** The update by id and user id rewrites the row found and no other. *)
Lemma progress_update_hits_existing d u a existing r :
  wf d -> progressRows u a d = [existing] ->
  In r (user_progress d) ->
  matches [UP_id (up_id existing); UP_user_id u] r = true ->
  r = existing.
Proof.
  intros Hwf Hsel Hr Hm.
  assert (Hin : In existing (progressRows u a d)) by (rewrite Hsel; now left).
  apply filter_In in Hin as [Hin _].
  apply (NoDup_map_injective up_id (user_progress d)); auto using wf_up_ids_unique.
  simpl in Hm. unfold holds in Hm; simpl in Hm.
  apply andb_prop in Hm as [Hm _]. now apply Z.eqb_eq.
Qed.

Lemma progress_existing_matches d u a existing :
  progressRows u a d = [existing] ->
  In existing (user_progress d) /\
  up_key existing = (u, a) /\
  matches [UP_id (up_id existing); UP_user_id u] existing = true.
Proof.
  intros Hsel.
  assert (Hin : In existing (progressRows u a d)) by (rewrite Hsel; now left).
  apply filter_In in Hin as [Hin Hm]. rewrite matches_up_key in Hm.
  apply key_is_spec in Hm. split; [exact Hin | split; [exact Hm |]].
  simpl. unfold holds; simpl. rewrite Z.eqb_refl.
  injection Hm as -> _. now rewrite String.eqb_refl.
Qed.

(** What the progress write does on a well-formed store that answers without
    faults: it updates the row of the pair in place when there is one, and
    appends a row to the table when there is none. *)
Lemma writeProgress_effect u a c score completed answers timeSpent w :
  faults w = [] -> wf (db w) ->
  let w' := snd (writeProgress u a c score completed answers timeSpent w) in
  let pd := mkProgressData u a c score completed answers
              (stored_time_spent timeSpent (priorProgress u a (db w))) in
  faults w' = [] /\ wf (db w') /\
  activities (db w') = activities (db w) /\
  courses (db w') = courses (db w) /\
  user_courses (db w') = user_courses (db w) /\
  ((exists existing,
      progressRows u a (db w) = [existing] /\
      writes w' = writes w ++ [UpdateUserProgress pd [UP_id (up_id existing); UP_user_id u]] /\
      user_progress (db w')
      = update_where [UP_id (up_id existing); UP_user_id u] (set_user_progress pd)
                     (user_progress (db w)) /\
      map up_key (user_progress (db w')) = map up_key (user_progress (db w)) /\
      progressRows u a (db w') = [set_user_progress pd existing])
   \/
   (progressRows u a (db w) = [] /\
    writes w' = writes w ++ [InsertUserProgress pd] /\
    user_progress (db w')
    = user_progress (db w) ++ [new_user_progress (next_id (db w)) pd] /\
    map up_key (user_progress (db w')) = map up_key (user_progress (db w)) ++ [(u, a)] /\
    progressRows u a (db w') = [new_user_progress (next_id (db w)) pd])).
Proof.
  intros Hq Hwf. cbv zeta. rewrite writeProgress_quiet by exact Hq.
  unfold priorProgress.
  destruct (wf_progress_rows (db w) u a Hwf) as [Hnone | [existing Hone]].
  - (* no row for the pair: insert *)
    rewrite Hnone. cbn [single data].
    rewrite insert_user_progress_quiet by exact Hq. cbn [snd].
    set (pd := mkProgressData u a c score completed answers _).
    set (row := new_user_progress (next_id (db w)) pd).
    assert (Hkey : ~ In (u, a) (map up_key (user_progress (db w)))).
    { apply (select_by_key_none up_key
               (matches [UP_user_id u; UP_activity_id a])); [| exact Hnone].
      intros r. rewrite matches_up_key. apply key_is_spec. }
    split; [exact Hq |]. split; [| split; [reflexivity | split; [reflexivity |
      split; [reflexivity |]]]].
    + destruct Hwf as [Hn Huc Hup Hucu Hupu Huck Hupk]. split; simpl.
      * lia.
      * now apply ids_below_next.
      * rewrite map_app. apply Forall_app. split; [now apply ids_below_next |].
        repeat constructor; simpl; lia.
      * exact Hucu.
      * rewrite map_app. apply NoDup_snoc; [exact Hupu |].
        simpl. now apply fresh_id_not_used.
      * exact Huck.
      * rewrite map_app. now apply NoDup_snoc.
    + right. split; [reflexivity |]. split; [reflexivity |]. split; [reflexivity |].
      split; [simpl; now rewrite map_app |].
      unfold progressRows in *. simpl. rewrite filter_app, Hnone. simpl.
      unfold holds; simpl. now rewrite !String.eqb_refl.
  - (* one row for the pair: update it by id *)
    rewrite Hone. cbn [single data].
    destruct (progress_existing_matches _ _ _ _ Hone) as (Hin & Hk & Hmatch).
    rewrite (wf_progress_id_truthy _ _ Hwf Hin).
    rewrite update_user_progress_quiet by exact Hq. cbn [snd].
    set (pd := mkProgressData u a c score completed answers _).
    set (fs := [UP_id (up_id existing); UP_user_id u]).
    assert (Hids : map up_id (update_where fs (set_user_progress pd) (user_progress (db w)))
                   = map up_id (user_progress (db w))).
    { apply update_where_keeps. reflexivity. }
    assert (Hkeys : map up_key (update_where fs (set_user_progress pd) (user_progress (db w)))
                    = map up_key (user_progress (db w))).
    { apply update_where_keeps. intros r Hr Hm.
      rewrite (progress_update_hits_existing _ _ _ _ _ Hwf Hone Hr Hm).
      now rewrite Hk. }
    split; [exact Hq |]. split; [| split; [reflexivity | split; [reflexivity |
      split; [reflexivity |]]]].
    + destruct Hwf as [Hn Huc Hup Hucu Hupu Huck Hupk]. split; simpl; auto.
      * fold fs. now rewrite Hids.
      * fold fs. now rewrite Hids.
      * fold fs. now rewrite Hkeys.
    + left. exists existing. split; [reflexivity |]. split; [reflexivity |].
      split; [reflexivity |]. split; [exact Hkeys |].
      unfold progressRows in *. simpl user_progress.
      rewrite filter_update_where.
      * rewrite Hone. unfold update_where. cbn [map]. subst fs. now rewrite Hmatch.
      * intros r Hr Hm.
        rewrite (progress_update_hits_existing _ _ _ _ _ Hwf Hone Hr Hm).
        rewrite !matches_up_key. rewrite Hk. simpl.
        unfold key_is; simpl. now rewrite !String.eqb_refl.
Qed.

(** * The aggregator on a store that answers without faults *)

Lemma updateCourseProgress_quiet userId courseId w :
  faults w = [] ->
  published courseId (db w) <> [] ->
  let d := courseFigures userId courseId (db w) in
  let w1 := with_divisors (courseDivisors userId courseId (db w)) w in
  let insert :=
    insert_user_courses
      (mkNewUserCourse userId courseId (ucd_progress d) (ucd_score d)) w1 in
  updateCourseProgress userId courseId w
  = (tt,
     snd match data (single (enrollments userId courseId (db w))) with
         | Some existing =>
             if JS.truthy_num (uc_id existing)
             then update_user_courses d [UC_id (uc_id existing); UC_user_id userId] w1
             else insert
         | None => insert
         end).
Proof.
  intros Hq Hpub. cbv zeta. unfold updateCourseProgress.
  rewrite bind_run, select_quiet by exact Hq. cbn [fst snd error data].
  fold (published courseId (db w)).
  destruct (Z.eqb_spec (Z.of_nat (length (published courseId (db w)))) 0) as [E|_].
  { destruct (published courseId (db w)); [now elim Hpub | discriminate]. }
  rewrite bind_run, select_quiet by exact Hq. cbn [fst snd error data option_map].
  fold (completedRows userId courseId (db w)).
  rewrite or_num_zero.
  unfold courseFigures, courseDivisors, averageScore, totalScore, progressPercentage.
  set (rows := completedRows userId courseId (db w)).
  set (total := Z.of_nat (length (published courseId (db w)))).
  rewrite (bind_run (divide _ _)), divide_run. cbn [fst snd].
  assert (Hq1 : forall l, faults (with_divisors l w) = []) by (intros; exact Hq).
  destruct (0 <? Z.of_nat (length rows)) eqn:Hpos.
  - rewrite bind_run. rewrite !(bind_run (divide _ _)), !divide_run.
    rewrite !ret_run. cbn [fst snd]. rewrite with_divisors_twice. cbn [app].
    rewrite bind_run, select_single_quiet by apply Hq1.
    cbn [fst snd]. change (db (with_divisors _ w)) with (db w).
    fold (enrollments userId courseId (db w)).
    destruct (data (single (enrollments userId courseId (db w)))) as [existing|];
      [destruct (JS.truthy_num (uc_id existing)) |]; apply bind_discard.
  - rewrite bind_run. rewrite !ret_run. cbn [fst snd].
    rewrite bind_run, select_single_quiet by apply Hq1.
    cbn [fst snd]. change (db (with_divisors _ w)) with (db w).
    fold (enrollments userId courseId (db w)).
    destruct (data (single (enrollments userId courseId (db w)))) as [existing|];
      [destruct (JS.truthy_num (uc_id existing)) |]; apply bind_discard.
Qed.

(** * Auto-enrollment on a well-formed store *)

Lemma enrollments_after_insert u c d (r : UserCourse) :
  enrollments u c d = [] ->
  uc_key r = (u, c) ->
  filter (matches [UC_user_id u; UC_course_id c]) (user_courses d ++ [r]) = [r].
Proof.
  intros Hnone Hk. unfold enrollments in Hnone. rewrite filter_app, Hnone.
  cbn [filter app].
  rewrite matches_uc_key, Hk.
  now rewrite (proj2 (key_is_spec (u, c) (u, c)) eq_refl).
Qed.

Lemma wf_insert_enrollment d u c p s :
  wf d -> enrollments u c d = [] ->
  wf (mkDB (activities d) (courses d)
           (user_courses d ++ [mkUserCourse (next_id d) u c p s])
           (user_progress d) (next_id d + 1)).
Proof.
  intros [Hn Huc Hup Hucu Hupu Huck Hupk] Hnone. split; simpl.
  - lia.
  - rewrite map_app. apply Forall_app. split; [now apply ids_below_next |].
    repeat constructor; simpl; lia.
  - now apply ids_below_next.
  - rewrite map_app. apply NoDup_snoc; [exact Hucu |].
    simpl. now apply fresh_id_not_used.
  - exact Hupu.
  - rewrite map_app. apply NoDup_snoc; [exact Huck |].
    apply (select_by_key_none uc_key
             (matches [UC_user_id u; UC_course_id c])); [| exact Hnone].
    intros r. rewrite matches_uc_key. apply key_is_spec.
  - exact Hupk.
Qed.

Lemma wf_same_rows d d' :
  wf d ->
  user_courses d' = user_courses d ->
  user_progress d' = user_progress d ->
  next_id d' = next_id d ->
  wf d'.
Proof.
  intros [Hn Huc Hup Hucu Hupu Huck Hupk] E1 E2 E3.
  split; rewrite ?E1, ?E2, ?E3; assumption.
Qed.

(** What auto-enrollment does on a well-formed store that answers without
    faults: nothing when the user is enrolled; otherwise one enrollment row
    with progress 0 and score 0, and the counter read and written back plus
    one. *)
Lemma autoEnroll_effect u c w :
  faults w = [] -> wf (db w) ->
  let w' := snd (autoEnroll u c w) in
  faults w' = [] /\ wf (db w') /\
  activities (db w') = activities (db w) /\
  user_progress (db w') = user_progress (db w) /\
  ((exists r, enrollments u c (db w) = [r] /\ w' = w)
   \/
   (enrollments u c (db w) = [] /\
    writes w' = writes w ++ [InsertUserCourse (mkNewUserCourse u c 0 0);
                             UpdateCourse (currentEnrollment c (db w) + 1) [C_id c]] /\
    user_courses (db w') = user_courses (db w) ++ [mkUserCourse (next_id (db w)) u c 0 0] /\
    courses (db w')
    = update_where [C_id c] (set_total_enrollment (currentEnrollment c (db w) + 1))
                   (courses (db w)) /\
    enrollments u c (db w') = [mkUserCourse (next_id (db w)) u c 0 0])).
Proof.
  intros Hq Hwf. cbv zeta. unfold autoEnroll.
  rewrite bind_run, select_single_quiet by exact Hq. cbn [fst snd].
  fold (enrollments u c (db w)).
  destruct (wf_enrollments (db w) u c Hwf) as [Hnone | [r Hone]].
  - rewrite Hnone. cbn [single data].
    rewrite bind_run, insert_user_courses_quiet by exact Hq. cbn [fst snd error].
    set (w1 := with_db _ (issue _ w)).
    assert (Hq1 : faults w1 = []) by exact Hq.
    rewrite bind_run, select_single_quiet by exact Hq1. cbn [fst snd].
    rewrite bind_discard, update_courses_quiet by exact Hq1. cbn [fst snd].
    fold (currentEnrollment c (db w1)).
    change (currentEnrollment c (db w1)) with (currentEnrollment c (db w)).
    split; [exact Hq |]. split; [| split; [reflexivity | split; [reflexivity |]]].
    + eapply wf_same_rows; [apply (wf_insert_enrollment (db w) u c 0 0 Hwf Hnone)
                           | reflexivity ..].
    + right. split; [reflexivity |]. split; [simpl; now rewrite <- app_assoc |].
      split; [reflexivity |]. split; [reflexivity |].
      unfold enrollments. simpl user_courses.
      now apply enrollments_after_insert.
  - rewrite Hone. cbn [single data]. rewrite ret_run. cbn [snd].
    split; [exact Hq |]. split; [exact Hwf |]. split; [reflexivity |].
    split; [reflexivity |]. left. now exists r.
Qed.

(** * The aggregator on a well-formed store *)

Lemma enrollment_update_hits_existing d u c existing r :
  wf d -> enrollments u c d = [existing] ->
  In r (user_courses d) ->
  matches [UC_id (uc_id existing); UC_user_id u] r = true ->
  r = existing.
Proof.
  intros Hwf Hsel Hr Hm.
  assert (Hin : In existing (enrollments u c d)) by (rewrite Hsel; now left).
  apply filter_In in Hin as [Hin _].
  apply (NoDup_map_injective uc_id (user_courses d)); auto using wf_uc_ids_unique.
  simpl in Hm. unfold holds in Hm; simpl in Hm.
  apply andb_prop in Hm as [Hm _]. now apply Z.eqb_eq.
Qed.

Lemma enrollment_existing_matches d u c existing :
  enrollments u c d = [existing] ->
  In existing (user_courses d) /\
  uc_key existing = (u, c) /\
  matches [UC_id (uc_id existing); UC_user_id u] existing = true.
Proof.
  intros Hsel.
  assert (Hin : In existing (enrollments u c d)) by (rewrite Hsel; now left).
  apply filter_In in Hin as [Hin Hm]. rewrite matches_uc_key in Hm.
  apply key_is_spec in Hm. split; [exact Hin | split; [exact Hm |]].
  simpl. unfold holds; simpl. rewrite Z.eqb_refl.
  injection Hm as -> _. now rewrite String.eqb_refl.
Qed.

(** What the aggregator does for a course with a published activity, on a
    well-formed store that answers without faults: it writes the figures into
    the enrollment row of the pair, or inserts the row when there is none. *)
Lemma updateCourseProgress_effect u c w :
  faults w = [] -> wf (db w) -> published c (db w) <> [] ->
  let w' := snd (updateCourseProgress u c w) in
  let d := courseFigures u c (db w) in
  faults w' = [] /\ wf (db w') /\
  activities (db w') = activities (db w) /\
  courses (db w') = courses (db w) /\
  user_progress (db w') = user_progress (db w) /\
  divisors w' = divisors w ++ courseDivisors u c (db w) /\
  ((exists r,
      enrollments u c (db w) = [r] /\
      writes w' = writes w ++ [UpdateUserCourse d [UC_id (uc_id r); UC_user_id u]] /\
      user_courses (db w')
      = update_where [UC_id (uc_id r); UC_user_id u] (set_user_course d)
                     (user_courses (db w)) /\
      enrollments u c (db w') = [set_user_course d r])
   \/
   (enrollments u c (db w) = [] /\
    writes w' = writes w ++
                  [InsertUserCourse (mkNewUserCourse u c (ucd_progress d) (ucd_score d))] /\
    user_courses (db w')
    = user_courses (db w) ++
        [mkUserCourse (next_id (db w)) u c (ucd_progress d) (ucd_score d)] /\
    enrollments u c (db w')
    = [mkUserCourse (next_id (db w)) u c (ucd_progress d) (ucd_score d)])).
Proof.
  intros Hq Hwf Hpub. cbv zeta.
  rewrite updateCourseProgress_quiet by assumption. cbn [snd].
  set (d := courseFigures u c (db w)).
  set (w1 := with_divisors (courseDivisors u c (db w)) w).
  assert (Hq1 : faults w1 = []) by exact Hq.
  destruct (wf_enrollments (db w) u c Hwf) as [Hnone | [r Hone]].
  - rewrite Hnone. cbn [single data].
    rewrite insert_user_courses_quiet by exact Hq1. cbn [snd].
    split; [exact Hq |]. split; [| split; [reflexivity | split; [reflexivity |
      split; [reflexivity | split; [reflexivity |]]]]].
    + apply (wf_insert_enrollment (db w) u c _ _ Hwf Hnone).
    + right. split; [reflexivity |]. split; [reflexivity |]. split; [reflexivity |].
      unfold enrollments. simpl user_courses. now apply enrollments_after_insert.
  - rewrite Hone. cbn [single data].
    destruct (enrollment_existing_matches _ _ _ _ Hone) as (Hin & Hk & Hmatch).
    rewrite (wf_enrollment_id_truthy _ _ Hwf Hin).
    rewrite update_user_courses_quiet by exact Hq1. cbn [snd].
    set (fs := [UC_id (uc_id r); UC_user_id u]).
    assert (Hids : map uc_id (update_where fs (set_user_course d) (user_courses (db w)))
                   = map uc_id (user_courses (db w))).
    { apply update_where_keeps. reflexivity. }
    assert (Hkeys : map uc_key (update_where fs (set_user_course d) (user_courses (db w)))
                    = map uc_key (user_courses (db w))).
    { apply update_where_keeps. reflexivity. }
    split; [exact Hq |]. split; [| split; [reflexivity | split; [reflexivity |
      split; [reflexivity | split; [reflexivity |]]]]].
    + destruct Hwf as [Hn Huc Hup Hucu Hupu Huck Hupk]. split; simpl; auto.
      * fold fs. now rewrite Hids.
      * fold fs. now rewrite Hids.
      * fold fs. now rewrite Hkeys.
    + left. exists r. split; [reflexivity |]. split; [reflexivity |].
      split; [reflexivity |].
      unfold enrollments in *. simpl user_courses.
      rewrite filter_update_where.
      * rewrite Hone. unfold update_where. cbn [map]. subst fs. now rewrite Hmatch.
      * intros x Hx Hm. reflexivity.
Qed.

(** * Requests on a well-formed store *)

Lemma updateCourseProgress_invariant u c w :
  faults w = [] -> wf (db w) ->
  let w' := snd (updateCourseProgress u c w) in
  faults w' = [] /\ wf (db w') /\ user_progress (db w') = user_progress (db w).
Proof.
  intros Hq Hwf. cbv zeta.
  destruct (published c (db w)) as [|a l] eqn:Hpub.
  - destruct (updateCourseProgress_nothing_published u c w Hpub) as (_ & Hdb).
    destruct (updateCourseProgress_frame u c w) as (_ & _ & Hquiet).
    rewrite Hdb. auto.
  - assert (Hne : published c (db w) <> []) by (rewrite Hpub; discriminate).
    destruct (updateCourseProgress_effect u c w Hq Hwf Hne)
      as (Hq' & Hwf' & _ & _ & Hup & _).
    auto.
Qed.


(** The stages of a request that passes both guards, with what each
    establishes on a well-formed store. *)
Lemma saveActivityProgress_stages
    session usr act activityId score completed answers timeSpent w :
  faults w = [] -> wf (db w) ->
  userError session = None ->
  user session = Some usr ->
  filter (matches [A_id activityId]) (activities (db w)) = [act] ->
  let c := a_course_id act in
  let w1 := snd (autoEnroll (u_id usr) c w) in
  let w2 := snd (writeProgress (u_id usr) activityId c score completed
                               answers timeSpent w1) in
  let w3 := snd (updateCourseProgress (u_id usr) c w2) in
  let rw := saveActivityProgress session activityId score completed answers timeSpent w in
  success (fst rw) = true /\
  db (snd rw) = db w3 /\ writes (snd rw) = writes w3 /\
  faults (snd rw) = [] /\ divisors (snd rw) = divisors w3 /\
  (faults w1 = [] /\ wf (db w1)) /\
  (faults w2 = [] /\ wf (db w2)) /\
  (faults w3 = [] /\ wf (db w3)).
Proof.
  intros Hq Hwf He Hu Hact. cbv zeta.
  rewrite (saveActivityProgress_quiet session usr act) by assumption.
  cbn [fst snd success db writes faults divisors].
  destruct (autoEnroll_effect (u_id usr) (a_course_id act) w Hq Hwf)
    as (Hq1 & Hwf1 & _).
  destruct (writeProgress_effect (u_id usr) activityId (a_course_id act) score
              completed answers timeSpent _ Hq1 Hwf1) as (Hq2 & Hwf2 & _).
  destruct (updateCourseProgress_invariant (u_id usr) (a_course_id act) _ Hq2 Hwf2)
    as (Hq3 & Hwf3 & _).
  repeat match goal with |- _ /\ _ => split end; first [assumption | reflexivity].
Qed.



(** * One progress row per user and activity *)







Lemma updateCourseProgress_off_progress u c :
  steps_in (issued (fun s => on_progress s = false)) (updateCourseProgress u c).
Proof.
  apply steps_updateCourseProgress.
  - apply issued_refl.
  - apply issued_trans.
  - intros w f fs _. now apply issued_of_eq.
  - intros a b _ w. now apply issued_of_eq.
  - intros p s. run_write; first [ now apply issued_of_eq | eapply issued_one; reflexivity ].
  - intros d i. run_write; first [ now apply issued_of_eq | eapply issued_one; reflexivity ].
Qed.





Ltac wf_by_computation :=
  split; simpl;
  repeat first
    [ lia
    | apply NoDup_nil
    | apply Forall_nil
    | apply NoDup_cons; [simpl; intuition (try discriminate; try lia) |]
    | apply Forall_cons; [lia |] ].


Lemma demo_enrolled_wf : wf (db Demo.enrolled).
Proof. wf_by_computation. Qed.


(** * Auto-enrollment *)

(** For an enrolled user the aggregator rewrites the enrollment in place. *)
Lemma updateCourseProgress_enrolled u c w r :
  faults w = [] -> wf (db w) ->
  enrollments u c (db w) = [r] ->
  let w' := snd (updateCourseProgress u c w) in
  courses (db w') = courses (db w) /\
  map uc_key (user_courses (db w')) = map uc_key (user_courses (db w)) /\
  (exists l, writes w' = writes w ++ l /\ Forall off_enrollment l) /\
  exists r', enrollments u c (db w') = [r'].
Proof.
  intros Hq Hwf Hone. cbv zeta.
  destruct (published c (db w)) as [|a l] eqn:Hpub.
  - destruct (updateCourseProgress_nothing_published u c w Hpub) as (Hw & Hdb).
    rewrite Hdb. split; [reflexivity |]. split; [reflexivity |]. split.
    + exists []. split; [now rewrite app_nil_r | constructor].
    + now exists r.
  - assert (Hne : published c (db w) <> []) by (rewrite Hpub; discriminate).
    destruct (updateCourseProgress_effect u c w Hq Hwf Hne)
      as (_ & _ & _ & Hc & _ & _ & [(r0 & _ & Hw & Huc & Hafter) | (Hnone & _)]).
    + split; [exact Hc |]. split.
      * rewrite Huc. apply update_where_keeps. reflexivity.
      * split; [| eexists; exact Hafter].
        eexists. split; [exact Hw |]. repeat constructor.
    + rewrite Hnone in Hone. discriminate.
Qed.

Lemma writeProgress_off_enrollment u a c score completed answers timeSpent :
  steps_in (issued off_enrollment)
           (writeProgress u a c score completed answers timeSpent).
Proof.
  apply steps_writeProgress.
  - apply issued_refl.
  - apply issued_trans.
  - intros w f fs _. now apply issued_of_eq.
  - intros t. run_write;
      first [ now apply issued_of_eq | eapply issued_one; [reflexivity | now split] ].
  - intros t i. run_write;
      first [ now apply issued_of_eq | eapply issued_one; [reflexivity | now split] ].
Qed.



(** * The completion flag *)



(** * The aggregated figures *)

Lemma progressPercentage_spec count total :
  progressPercentage count total = spec_progress count total.
Proof.
  unfold progressPercentage, spec_progress, JS.Math_round.
  apply Qfloor_comp. unfold Qdiv. ring.
Qed.

Lemma totalScore_sum rows : totalScore rows = sumScores rows.
Proof.
  unfold totalScore, sumScores.
  assert (H : forall acc,
             fold_left (fun sum a => sum + JS.or_num (Some (up_score a)) 0) rows acc
             = acc + fold_right Z.add 0 (map up_score rows)).
  { induction rows as [|r rows IH]; intros acc; cbn [fold_left fold_right map]; [lia |].
    rewrite IH, or_num_zero. lia. }
  now rewrite H.
Qed.

Lemma averageScore_spec rows : averageScore rows = spec_average rows.
Proof. unfold averageScore, spec_average. now rewrite totalScore_sum. Qed.




(** * The range of the figures *)

Lemma Math_round_div (a b : Z) :
  0 < b -> JS.Math_round (inject_Z a / inject_Z b)%Q = (2 * a + b) / (2 * b).
Proof.
  intros Hb. unfold JS.Math_round. rewrite Zdiv_Qdiv. apply Qfloor_comp.
  rewrite inject_Z_plus, !inject_Z_mult.
  assert (Hnz : ~ (inject_Z b == 0)%Q).
  { intros E. apply (eq_sym) in E. revert E. apply Qlt_not_eq.
    change 0%Q with (inject_Z 0). rewrite <- Zlt_Qlt. exact Hb. }
  field. exact Hnz.
Qed.

Lemma spec_progress_div count total :
  0 < total -> spec_progress count total = (200 * count + total) / (2 * total).
Proof.
  intros Ht. unfold spec_progress.
  assert (E : (100 * inject_Z count / inject_Z total
               == inject_Z (100 * count) / inject_Z total)%Q).
  { rewrite inject_Z_mult. reflexivity. }
  unfold JS.Math_round in *.
  rewrite (Qfloor_comp _ (inject_Z (100 * count) / inject_Z total + (1 # 2))%Q)
    by (now rewrite E).
  fold (JS.Math_round (inject_Z (100 * count) / inject_Z total)).
  rewrite Math_round_div by exact Ht. f_equal. lia.
Qed.

Lemma spec_progress_range count total :
  0 <= count <= total -> 0 < total -> 0 <= spec_progress count total <= 100.
Proof.
  intros Hc Ht. rewrite spec_progress_div by exact Ht. split.
  - apply Z.div_pos; lia.
  - apply Z.lt_succ_r. apply Z.div_lt_upper_bound; lia.
Qed.

Lemma sumScores_range rows :
  Forall (fun r => 0 <= up_score r <= 100) rows ->
  0 <= sumScores rows <= 100 * Z.of_nat (length rows).
Proof.
  unfold sumScores. induction 1 as [|r rows Hr _ IH]; simpl length; simpl; lia.
Qed.

Lemma spec_average_range rows :
  Forall (fun r => 0 <= up_score r <= 100) rows -> 0 <= spec_average rows <= 100.
Proof.
  intros Hrows. unfold spec_average.
  destruct (Z.ltb_spec 0 (Z.of_nat (length rows))) as [Hpos|]; [| lia].
  pose proof (sumScores_range rows Hrows) as Hsum.
  rewrite Math_round_div by exact Hpos. split.
  - apply Z.div_pos; lia.
  - apply Z.lt_succ_r. apply Z.div_lt_upper_bound; lia.
Qed.

(** The payload of the aggregator is in range when the completed rows are no
    more than the published activities and their scores are in range. *)
Lemma courseFigures_range u c d :
  (length (completedRows u c d) <= length (published c d))%nat ->
  published c d <> [] ->
  Forall (fun r => 0 <= up_score r <= 100) (completedRows u c d) ->
  0 <= ucd_progress (courseFigures u c d) <= 100 /\
  0 <= ucd_score (courseFigures u c d) <= 100.
Proof.
  intros Hle Hpub Hscores. unfold courseFigures. cbn [ucd_progress ucd_score].
  rewrite progressPercentage_spec, averageScore_spec. split.
  - apply spec_progress_range; [lia |].
    destruct (published c d); [now elim Hpub | simpl length; lia].
  - now apply spec_average_range.
Qed.

(** ** The aggregator under any fault schedule *)

(** Whatever the faults, the aggregator issues no statement, or one write of
    the figures computed from the tables it was started on. *)
Lemma updateCourseProgress_writes u c w :
  let w' := snd (updateCourseProgress u c w) in
  let d := courseFigures u c (db w) in
  writes w' = writes w \/
  (published c (db w) <> [] /\
   (writes w' = writes w ++
                  [InsertUserCourse (mkNewUserCourse u c (ucd_progress d) (ucd_score d))]
    \/ exists i, writes w' = writes w ++ [UpdateUserCourse d [UC_id i; UC_user_id u]])).
Proof.
  cbv zeta. unfold updateCourseProgress.
  rewrite bind_run.
  destruct (select_any activities [A_course_id c; A_status "published"] w)
    as ((Hdb1 & Hw1 & _) & Hdata1).
  destruct (select activities [A_course_id c; A_status "published"] w) as [r1 w1].
  cbn [fst snd] in *.
  destruct (error r1); [left; exact Hw1 |].
  rewrite (Hdata1 eq_refl). fold (published c (db w)).
  destruct (Z.eqb_spec (Z.of_nat (length (published c (db w)))) 0) as [|Hne];
    [left; exact Hw1 |].
  assert (Hpub : published c (db w) <> []).
  { intros E. rewrite E in Hne. now elim Hne. }
  rewrite bind_run.
  destruct (select_any user_progress [UP_user_id u; UP_course_id c; UP_completed true] w1)
    as ((Hdb2 & Hw2 & _) & Hdata2).
  destruct (select user_progress [UP_user_id u; UP_course_id c; UP_completed true] w1)
    as [r2 w2].
  cbn [fst snd] in *.
  destruct (error r2); [left; rewrite ret_run; cbn [snd]; congruence |].
  rewrite (Hdata2 eq_refl). rewrite Hdb1. fold (completedRows u c (db w)).
  cbn [option_map]. rewrite or_num_zero.
  right. split; [exact Hpub |].
  rewrite (bind_run (divide _ _)), divide_run. cbn [fst snd].
  rewrite bind_run.
  set (rows := completedRows u c (db w)).
  set (total := Z.of_nat (length (published c (db w)))).
  assert (Hfig : forall w3,
    writes w3 = writes w ->
    forall avg, avg = averageScore rows ->
    let wr := snd ((r_uc <- select_single user_courses [UC_user_id u; UC_course_id c] ;;
                    match data r_uc with
                    | Some existing =>
                        if JS.truthy_num (uc_id existing)
                        then (update_user_courses
                                (mkUserCourseData (progressPercentage (Z.of_nat (length rows)) total) avg)
                                [UC_id (uc_id existing); UC_user_id u] ;;; ret tt)
                        else (insert_user_courses
                                (mkNewUserCourse u c (progressPercentage (Z.of_nat (length rows)) total) avg) ;;;
                              ret tt)
                    | None =>
                        (insert_user_courses
                           (mkNewUserCourse u c (progressPercentage (Z.of_nat (length rows)) total) avg) ;;;
                         ret tt)
                    end) w3) in
    writes wr = writes w ++
                  [InsertUserCourse
                     (mkNewUserCourse u c (progressPercentage (Z.of_nat (length rows)) total)
                                      (averageScore rows))]
    \/ exists i, writes wr = writes w ++
                   [UpdateUserCourse
                      (mkUserCourseData (progressPercentage (Z.of_nat (length rows)) total)
                                        (averageScore rows))
                      [UC_id i; UC_user_id u]]).
  { intros w3 Hw3 avg ->. cbv zeta. rewrite bind_run.
    destruct (select_single_any user_courses [UC_user_id u; UC_course_id c] w3)
      as (_ & Hw4 & _).
    destruct (select_single user_courses [UC_user_id u; UC_course_id c] w3) as [r4 w4].
    cbn [fst snd] in *.
    destruct (data r4) as [existing|];
      [destruct (JS.truthy_num (uc_id existing)) |];
      rewrite bind_discard; cbn [snd];
      rewrite ?insert_user_courses_writes, ?update_user_courses_writes, Hw4, Hw3;
      [right; now exists (uc_id existing) | now left | now left]. }
  unfold averageScore. fold rows.
  destruct (0 <? Z.of_nat (length rows)) eqn:Hpos.
  - rewrite (bind_run (divide _ _)), divide_run, !ret_run. cbn [fst snd].
    apply Hfig; [simpl; congruence |].
    unfold averageScore. fold rows. now rewrite Hpos.
  - rewrite !ret_run. cbn [fst snd].
    apply Hfig; [simpl; congruence |].
    unfold averageScore. fold rows. now rewrite Hpos.
Qed.

Lemma autoEnroll_in_range u c : steps_in (issued in_range) (autoEnroll u c).
Proof.
  apply steps_autoEnroll.
  - apply issued_refl.
  - apply issued_trans.
  - intros w f fs _. now apply issued_of_eq.
  - run_write;
      first [ now apply issued_of_eq
            | eapply issued_one; [reflexivity | simpl; lia] ].
  - intros n. run_write;
      first [ now apply issued_of_eq | eapply issued_one; [reflexivity | exact I] ].
Qed.

Lemma writeProgress_in_range u a c score completed answers timeSpent :
  steps_in (issued in_range) (writeProgress u a c score completed answers timeSpent).
Proof.
  apply steps_writeProgress.
  - apply issued_refl.
  - apply issued_trans.
  - intros w f fs _. now apply issued_of_eq.
  - intros t. run_write;
      first [ now apply issued_of_eq | eapply issued_one; [reflexivity | exact I] ].
  - intros t i. run_write;
      first [ now apply issued_of_eq | eapply issued_one; [reflexivity | exact I] ].
Qed.

(** The aggregator's write is in range when, on the tables it is started on,
    the completed rows are no more than the published activities and their
    scores are in range. *)
Lemma updateCourseProgress_in_range u c w :
  (length (completedRows u c (db w)) <= length (published c (db w)))%nat ->
  Forall (fun r => 0 <= up_score r <= 100) (completedRows u c (db w)) ->
  issued in_range w (snd (updateCourseProgress u c w)).
Proof.
  intros Hle Hscores.
  destruct (updateCourseProgress_writes u c w) as [Hw | (Hpub & [Hw | (i & Hw)])].
  - now apply issued_of_eq.
  - eapply issued_one; [exact Hw |]. now apply courseFigures_range.
  - eapply issued_one; [exact Hw |]. now apply courseFigures_range.
Qed.

(** C4, as the code has it.  Whatever the fault schedule, every enrollment
    write of a request (the auto-enrollment insert and the aggregator's insert
    or update) carries a progress and a score between 0 and 100, provided
    that in the tables the request leaves, the user's completed progress rows
    with the activity's course id are no more than the published activities
    of that course and each has a score between 0 and 100. *)
Theorem enrollment_figures_in_range
    session usr activityId score completed answers timeSpent w :
  user session = Some usr ->
  let rw := saveActivityProgress session activityId score completed answers timeSpent w in
  (forall act,
     In act (activities (db w)) -> a_id act = activityId ->
     (length (completedRows (u_id usr) (a_course_id act) (db (snd rw)))
      <= length (published (a_course_id act) (db (snd rw))))%nat /\
     Forall (fun r => 0 <= up_score r <= 100)
            (completedRows (u_id usr) (a_course_id act) (db (snd rw)))) ->
  issued in_range w (snd rw).
Proof.
  intros Hu. cbv zeta. unfold saveActivityProgress. rewrite Hu.
  destruct (userError session); [intros _; apply issued_refl |].
  rewrite bind_run.
  pose proof (select_single_any activities [A_id activityId] w) as (_ & Hw0 & _).
  pose proof (select_single_found activities [A_id activityId] w) as Hfound.
  destruct (select_single activities [A_id activityId] w) as [r_act w0].
  cbn [fst snd] in *.
  destruct (error r_act); [intros _; now apply issued_of_eq |].
  destruct (data r_act) as [act|]; [| intros _; now apply issued_of_eq].
  specialize (Hfound act eq_refl). apply filter_In in Hfound as [Hin Hid].
  simpl in Hid. unfold holds in Hid; simpl in Hid. rewrite andb_true_r in Hid.
  apply String.eqb_eq in Hid.
  set (u := u_id usr). set (c := a_course_id act).
  rewrite bind_run.
  pose proof (autoEnroll_in_range u c w0) as H1.
  set (w1 := snd (autoEnroll u c w0)) in *.
  rewrite bind_run.
  pose proof (writeProgress_in_range u activityId c score completed answers timeSpent w1)
    as H2.
  destruct (writeProgress u activityId c score completed answers timeSpent w1)
    as [result w2].
  cbn [fst snd] in *.
  assert (H02 : issued in_range w w2).
  { eapply issued_trans; [| eapply issued_trans; [exact H1 | exact H2]].
    now apply issued_of_eq. }
  destruct (error result); [intros _; exact H02 |].
  rewrite bind_run.
  pose proof (updateCourseProgress_frame u c w2) as (Hp3 & Ha3 & _).
  pose proof (updateCourseProgress_in_range u c w2) as H3.
  set (w3 := snd (updateCourseProgress u c w2)) in *.
  rewrite !bind_run. unfold revalidatePath, ret. cbn [fst snd db writes].
  intros Hyp. destruct (Hyp act Hin Hid) as [Hle Hscores].
  fold u c in Hle, Hscores.
  assert (Hrows : completedRows u c (db w3) = completedRows u c (db w2))
    by (unfold completedRows; now rewrite Hp3).
  assert (Hpub : published c (db w3) = published c (db w2))
    by (unfold published; now rewrite Ha3).
  rewrite Hrows, Hpub in *.
  eapply issued_trans; [exact H02 |].
  eapply issued_trans; [now apply H3 |].
  now apply issued_of_eq.
Qed.

Lemma enrollment_figures_in_range_witness :
  let rw := saveActivityProgress Demo.alice "a1" 90 true None None Demo.enrolled in
  issued in_range Demo.enrolled (snd rw).
Proof.
  apply (enrollment_figures_in_range Demo.alice (mkUser "alice") "a1" 90 true None None
           Demo.enrolled).
  - reflexivity.
  - intros act Hin. simpl in Hin.
    destruct Hin as [<-|[<-|[]]]; simpl; [intros _ | discriminate].
    split; [vm_compute; lia |].
    vm_compute. repeat constructor; discriminate.
Defined.

(** C4 as stated fails.  With a second completed row for the draft activity
    of c1 the percentage written is 200; and a saved score of 250 gives an
    average of 250: nothing clamps either figure. *)
Lemma figures_can_exceed_100 :
  let rw1 := saveActivityProgress Demo.alice "a2" 100 true None None Demo.enrolled in
  let rw2 := saveActivityProgress Demo.alice "a1" 250 true None None Demo.fresh in
  success (fst rw1) = true /\
  map uc_progress (enrollments "alice" "c1" (db (snd rw1))) = [200] /\
  success (fst rw2) = true /\
  map uc_score (enrollments "alice" "c1" (db (snd rw2))) = [250] /\
  ~ issued in_range Demo.enrolled (snd rw1) /\
  ~ issued in_range Demo.fresh (snd rw2).
Proof.
  cbv zeta. split; [reflexivity |]. split; [reflexivity |].
  split; [reflexivity |]. split; [reflexivity |]. split.
  - intros (l & E & F). vm_compute in E. subst l.
    inversion F as [|s1 l1 _ F1]; subst.
    inversion F1 as [|s2 l2 H2 _]; subst. simpl in H2. lia.
  - intros (l & E & F). vm_compute in E. subst l.
    inversion F as [|s1 l1 _ F1]; subst.
    inversion F1 as [|s2 l2 _ F2]; subst.
    inversion F2 as [|s3 l3 _ F3]; subst.
    inversion F3 as [|s4 l4 H4 _]; subst. simpl in H4. lia.
Qed.

(** ** The range of the figures when progress exists for published activities only *)

Lemma distinct_keys_selected {T K} (key : T -> K) (keep : T -> bool) (rows : list T) :
  NoDup (map key rows) -> NoDup (map key (filter keep rows)).
Proof.
  intros Hrows. induction rows as [|r rows IH]; cbn [filter map] in *; [constructor |].
  apply NoDup_cons_iff in Hrows as [Hfresh Hrest].
  destruct (keep r); cbn [map]; [| now apply IH].
  apply NoDup_cons_iff. split; [| now apply IH].
  intros Hkey. apply Hfresh.
  apply in_map_iff in Hkey as (x & <- & Hx).
  apply in_map. now apply filter_In in Hx.
Qed.

Lemma completedRows_spec u c d r :
  In r (completedRows u c d) <->
  In r (user_progress d) /\ up_user_id r = u /\ up_course_id r = c /\
  up_completed r = true.
Proof.
  unfold completedRows. rewrite filter_In. simpl. unfold holds; simpl.
  rewrite !andb_true_iff, !String.eqb_eq, Bool.eqb_true_iff. intuition.
Qed.

(** Completed rows of one user lie on distinct activities. *)
Lemma completed_activities_distinct u c d :
  wf d -> NoDup (map up_activity_id (completedRows u c d)).
Proof.
  intros Hwf.
  pose proof (distinct_keys_selected up_key
                (matches [UP_user_id u; UP_course_id c; UP_completed true])
                (user_progress d) (wf_up_key d Hwf)) as Hnd.
  fold (completedRows u c d) in Hnd.
  assert (E : map up_key (completedRows u c d)
              = map (pair u) (map up_activity_id (completedRows u c d))).
  { rewrite map_map. apply map_ext_in. intros r Hr.
    apply completedRows_spec in Hr as (_ & <- & _). reflexivity. }
  rewrite E in Hnd. now apply NoDup_map_inv in Hnd.
Qed.

Lemma completed_at_most_published u c d :
  wf d -> progress_on_published u c d ->
  (length (completedRows u c d) <= length (published c d))%nat /\
  Forall (fun r => 0 <= up_score r <= 100) (completedRows u c d).
Proof.
  intros Hwf Hon. unfold progress_on_published in Hon. rewrite Forall_forall in Hon.
  split.
  - rewrite <- (length_map up_activity_id (completedRows u c d)).
    rewrite <- (length_map a_id (published c d)).
    apply NoDup_incl_length; [now apply completed_activities_distinct |].
    intros a Ha. apply in_map_iff in Ha as (r & <- & Hr).
    apply completedRows_spec in Hr as (Hr & Hu & Hc & _).
    now apply (Hon r Hr Hu Hc).
  - apply Forall_forall. intros r Hr.
    apply completedRows_spec in Hr as (Hr & Hu & Hc & _).
    now apply (Hon r Hr Hu Hc).
Qed.

(** A save of a score in range for a published activity keeps the progress
    rows of the user in the course on published activities. *)
Lemma save_keeps_progress_on_published
    session usr act activityId score completed answers timeSpent w :
  faults w = [] -> wf (db w) ->
  userError session = None ->
  user session = Some usr ->
  filter (matches [A_id activityId]) (activities (db w)) = [act] ->
  a_status act = "published" ->
  0 <= score <= 100 ->
  progress_on_published (u_id usr) (a_course_id act) (db w) ->
  let rw := saveActivityProgress session activityId score completed answers timeSpent w in
  wf (db (snd rw)) /\
  progress_on_published (u_id usr) (a_course_id act) (db (snd rw)).
Proof.
  intros Hq Hwf He Hu Hact Hstatus Hscore Hon. cbv zeta.
  destruct (saveActivityProgress_stages session usr act activityId score completed
              answers timeSpent w Hq Hwf He Hu Hact)
    as (_ & Hdb & _ & _ & _ & (Hq1 & Hwf1) & (Hq2 & Hwf2) & (_ & Hwf3)).
  rewrite Hdb. clear Hdb. split; [exact Hwf3 |].
  set (u := u_id usr) in *. set (c := a_course_id act) in *.
  destruct (autoEnroll_effect u c w Hq Hwf) as (_ & _ & Ha1 & Hup1 & _).
  set (w1 := snd (autoEnroll u c w)) in *.
  destruct (writeProgress_effect u activityId c score completed answers timeSpent
              w1 Hq1 Hwf1) as (_ & _ & Ha2 & _ & _ & Hcases).
  set (w2 := snd (writeProgress u activityId c score completed answers timeSpent w1)) in *.
  destruct (updateCourseProgress_frame u c w2) as (Hup3 & Ha3 & _).
  set (w3 := snd (updateCourseProgress u c w2)) in *.
  unfold same_progress, same_activities in *.
  assert (Hpub : published c (db w3) = published c (db w))
    by (unfold published; now rewrite Ha3, Ha2, Ha1).
  assert (Hpublished : In activityId (map a_id (published c (db w)))).
  { assert (Hin : In act (filter (matches [A_id activityId]) (activities (db w))))
      by (rewrite Hact; now left).
    apply filter_In in Hin as [Hin Hid].
    simpl in Hid. unfold holds in Hid; simpl in Hid. rewrite andb_true_r in Hid.
    apply String.eqb_eq in Hid. rewrite <- Hid.
    apply in_map. apply filter_In. split; [exact Hin |].
    simpl. unfold holds; simpl. fold c. now rewrite String.eqb_refl, Hstatus. }
  unfold progress_on_published in *. rewrite Hpub, Hup3.
  rewrite <- Hup1 in Hon.
  destruct Hcases as [(ex & _ & _ & -> & _) | (_ & _ & -> & _)].
  - unfold update_where. apply Forall_forall. intros r Hr.
    apply in_map_iff in Hr as (r0 & <- & Hr0).
    rewrite Forall_forall in Hon.
    destruct (matches _ r0); [| now apply Hon].
    intros _ _. simpl. now split.
  - apply Forall_app. split; [exact Hon |].
    constructor; [| constructor]. intros _ _. simpl. now split.
Qed.

(** With scores in range and progress on published activities only, a save
    writes enrollment figures between 0 and 100. *)
Lemma figures_in_range_on_published
    session usr act activityId score completed answers timeSpent w :
  faults w = [] -> wf (db w) ->
  userError session = None ->
  user session = Some usr ->
  filter (matches [A_id activityId]) (activities (db w)) = [act] ->
  a_status act = "published" ->
  0 <= score <= 100 ->
  progress_on_published (u_id usr) (a_course_id act) (db w) ->
  issued in_range w
    (snd (saveActivityProgress session activityId score completed answers timeSpent w)).
Proof.
  intros Hq Hwf He Hu Hact Hstatus Hscore Hon.
  destruct (save_keeps_progress_on_published session usr act activityId score
              completed answers timeSpent w Hq Hwf He Hu Hact Hstatus Hscore Hon)
    as [_ Hon'].
  destruct (saveActivityProgress_stages session usr act activityId score completed
              answers timeSpent w Hq Hwf He Hu Hact)
    as (_ & Hdb & Hwr & _ & _ & _ & (_ & Hwf2) & _).
  rewrite Hdb in Hon'.
  set (u := u_id usr) in *. set (c := a_course_id act) in *.
  pose proof (autoEnroll_in_range u c w) as H1.
  set (w1 := snd (autoEnroll u c w)) in *.
  pose proof (writeProgress_in_range u activityId c score completed answers timeSpent w1)
    as H2.
  set (w2 := snd (writeProgress u activityId c score completed answers timeSpent w1)) in *.
  destruct (updateCourseProgress_frame u c w2) as (Hup3 & Ha3 & _).
  unfold same_progress, same_activities in *.
  assert (Hon2 : progress_on_published u c (db w2)).
  { unfold progress_on_published, published in *. now rewrite <- Hup3, <- Ha3. }
  destruct (completed_at_most_published u c (db w2) Hwf2 Hon2) as [Hle Hscores].
  pose proof (updateCourseProgress_in_range u c w2 Hle Hscores) as H3.
  set (w3 := snd (updateCourseProgress u c w2)) in *.
  eapply issued_trans; [exact H1 |].
  eapply issued_trans; [exact H2 |].
  eapply issued_trans; [exact H3 |].
  now apply issued_of_eq.
Qed.

(** * Further properties of the two functions *)

(** ** The stages of a request under any fault schedule *)

Lemma saveActivityProgress_any
    session usr activityId score completed answers timeSpent w :
  userError session = None ->
  user session = Some usr ->
  let r0 := select_single activities [A_id activityId] w in
  saveActivityProgress session activityId score completed answers timeSpent w
  = match error (fst r0), data (fst r0) with
    | None, Some act =>
        let c := a_course_id act in
        let w1 := snd (autoEnroll (u_id usr) c (snd r0)) in
        let rw2 := writeProgress (u_id usr) activityId c score completed
                                 answers timeSpent w1 in
        match error (fst rw2) with
        | Some e => (failure (message e), snd rw2)
        | None =>
            let w3 := snd (updateCourseProgress (u_id usr) c (snd rw2)) in
            (mkResult true (data (fst rw2)) None,
             mkWorld (db w3) (faults w3) (writes w3) (divisors w3)
                     (revalidated w3 ++ revalidatedPaths activityId c))
        end
    | activityError, _ =>
        (failure (JS.or_str (option_map message activityError) "Activity not found"),
         snd r0)
    end.
Proof.
  intros He Hu. cbv zeta. unfold saveActivityProgress. rewrite He, Hu.
  rewrite bind_run.
  destruct (select_single activities [A_id activityId] w) as [r0 w0]. cbn [fst snd].
  destruct (error r0) as [e|]; [reflexivity |].
  destruct (data r0) as [act|]; [| reflexivity].
  rewrite bind_run.
  destruct (autoEnroll (u_id usr) (a_course_id act) w0) as [[] w1]. cbn [fst snd].
  rewrite bind_run.
  destruct (writeProgress _ _ _ _ _ _ _ w1) as [result w2]. cbn [fst snd].
  destruct (error result) as [e|]; [reflexivity |].
  rewrite bind_run.
  destruct (updateCourseProgress (u_id usr) (a_course_id act) w2) as [[] w3].
  cbn [fst snd]. unfold bind, revalidatePath, ret, revalidatedPaths. cbn.
  repeat rewrite <- app_assoc. reflexivity.
Qed.

Lemma insert_user_progress_any pd w :
  let rw := insert_user_progress pd w in
  match error (fst rw) with
  | None =>
      data (fst rw) = Some [new_user_progress (next_id (db w)) pd] /\
      user_progress (db (snd rw))
      = user_progress (db w) ++ [new_user_progress (next_id (db w)) pd]
  | Some _ => user_progress (db (snd rw)) = user_progress (db w)
  end.
Proof.
  cbv zeta. unfold insert_user_progress, call, issue, with_db, with_faults. simpl.
  destruct (faults w) as [|[e|] l]; simpl; auto.
Qed.

Lemma update_user_progress_any pd fs w :
  let rw := update_user_progress pd fs w in
  match error (fst rw) with
  | None =>
      data (fst rw)
      = Some (map (set_user_progress pd) (filter (matches fs) (user_progress (db w)))) /\
      user_progress (db (snd rw))
      = update_where fs (set_user_progress pd) (user_progress (db w))
  | Some _ => user_progress (db (snd rw)) = user_progress (db w)
  end.
Proof.
  cbv zeta. unfold update_user_progress, call, issue, with_db, with_faults. simpl.
  destruct (faults w) as [|[e|] l]; simpl; auto.
Qed.

(** The progress write under any fault schedule: answered, it returns the
    rows it wrote, which are stored and carry the caller's values; refused,
    it leaves the table as it was. *)
Lemma writeProgress_any u a c score completed answers timeSpent w :
  let rw := writeProgress u a c score completed answers timeSpent w in
  match error (fst rw) with
  | None =>
      exists rows,
        data (fst rw) = Some rows /\ rows <> [] /\
        forall row, In row rows ->
          In row (user_progress (db (snd rw))) /\
          up_user_id row = u /\ up_activity_id row = a /\
          up_course_id row = c /\
          up_score row = score /\ up_completed row = completed
  | Some _ => user_progress (db (snd rw)) = user_progress (db w)
  end.
Proof.
  cbv zeta. unfold writeProgress. rewrite bind_run.
  destruct (select_single_any user_progress [UP_user_id u; UP_activity_id a] w)
    as (Hdb & _).
  pose proof (select_single_found user_progress [UP_user_id u; UP_activity_id a] w)
    as Hfound.
  destruct (select_single user_progress [UP_user_id u; UP_activity_id a] w) as [r w0].
  cbn [fst snd] in *.
  set (pd := mkProgressData u a c score completed answers _).
  assert (Hinsert :
    match error (fst (insert_user_progress pd w0)) with
    | None =>
        exists rows,
          data (fst (insert_user_progress pd w0)) = Some rows /\ rows <> [] /\
          forall row, In row rows ->
            In row (user_progress (db (snd (insert_user_progress pd w0)))) /\
            up_user_id row = u /\ up_activity_id row = a /\ up_course_id row = c /\
            up_score row = score /\ up_completed row = completed
    | Some _ =>
        user_progress (db (snd (insert_user_progress pd w0))) = user_progress (db w)
    end).
  { pose proof (insert_user_progress_any pd w0) as H. cbv zeta in H.
    destruct (error (fst (insert_user_progress pd w0))).
    - now rewrite H, Hdb.
    - destruct H as [Hd Ht]. eexists. split; [exact Hd |]. split; [discriminate |].
      intros row [<-|[]]. split; [| simpl; auto 6].
      rewrite Ht. apply in_or_app. right. now left. }
  destruct (data r) as [existing|]; [| exact Hinsert].
  destruct (JS.truthy_num (up_id existing)); [| exact Hinsert].
  clear Hinsert.
  pose proof (update_user_progress_any pd [UP_id (up_id existing); UP_user_id u] w0) as H.
  cbv zeta in H.
  destruct (error (fst (update_user_progress pd _ w0))).
  - now rewrite H, Hdb.
  - destruct H as [Hd Ht]. eexists. split; [exact Hd |]. split.
    + specialize (Hfound existing eq_refl). apply filter_In in Hfound as [Hin Hm].
      assert (Hsel : In existing
                (filter (matches [UP_id (up_id existing); UP_user_id u])
                        (user_progress (db w0)))).
      { rewrite Hdb. apply filter_In. split; [exact Hin |].
        simpl in *. unfold holds in *; simpl in *.
        rewrite Z.eqb_refl. apply andb_prop in Hm as [-> _]. reflexivity. }
      intros Hnil. apply map_eq_nil in Hnil. rewrite Hnil in Hsel. exact Hsel.
    + intros row Hrow. split.
      * rewrite Ht. now apply updated_rows_stored.
      * apply in_map_iff in Hrow as (r0 & <- & _). simpl. auto 6.
Qed.

Lemma same_cache_refl w : same_cache w w.
Proof. reflexivity. Qed.

Lemma same_cache_trans a b c : same_cache a b -> same_cache b c -> same_cache a c.
Proof. unfold same_cache. congruence. Qed.

Ltac cache_write := run_write; reflexivity.

Lemma autoEnroll_same_cache u c : steps_in same_cache (autoEnroll u c).
Proof.
  apply steps_autoEnroll.
  - apply same_cache_refl.
  - apply same_cache_trans.
  - intros w f fs _. reflexivity.
  - cache_write.
  - intros n. cache_write.
Qed.

Lemma writeProgress_same_cache u a c score completed answers timeSpent :
  steps_in same_cache (writeProgress u a c score completed answers timeSpent).
Proof.
  apply steps_writeProgress.
  - apply same_cache_refl.
  - apply same_cache_trans.
  - intros w f fs _. reflexivity.
  - intros t. cache_write.
  - intros t i. cache_write.
Qed.

Lemma updateCourseProgress_same_cache u c :
  steps_in same_cache (updateCourseProgress u c).
Proof.
  apply steps_updateCourseProgress.
  - apply same_cache_refl.
  - apply same_cache_trans.
  - intros w f fs _. reflexivity.
  - intros a b _ w. reflexivity.
  - intros p s. cache_write.
  - intros d i. cache_write.
Qed.

(** ** What success and failure of a save mean for the store *)

(** X1. Whatever the fault schedule (faults of the enrollment bookkeeping and
    of the aggregator included), a save that reports success returns a
    non-empty list of progress rows, each of which is in [user_progress]
    afterwards and carries the acting user, the activity, and the score and
    completion flag that the caller passed. *)
Theorem successful_save_is_stored
    session usr activityId score completed answers timeSpent w :
  user session = Some usr ->
  let rw := saveActivityProgress session activityId score completed answers timeSpent w in
  success (fst rw) = true ->
  exists rows,
    result_data (fst rw) = Some rows /\ rows <> [] /\
    forall row, In row rows ->
      In row (user_progress (db (snd rw))) /\
      up_user_id row = u_id usr /\ up_activity_id row = activityId /\
      up_score row = score /\ up_completed row = completed.
Proof.
  intros Hu. cbv zeta.
  destruct (userError session) as [e|] eqn:He.
  { destruct (no_session_no_effect session activityId score completed answers
                timeSpent w) as [-> _]; [right; congruence | discriminate]. }
  rewrite (saveActivityProgress_any session usr) by assumption. cbv zeta.
  destruct (select_single activities [A_id activityId] w) as [r0 w0]. cbn [fst snd].
  destruct (error r0); [discriminate |].
  destruct (data r0) as [act|]; [| discriminate].
  set (u := u_id usr). set (c := a_course_id act).
  set (w1 := snd (autoEnroll u c w0)).
  pose proof (writeProgress_any u activityId c score completed answers timeSpent w1) as H2.
  cbv zeta in H2.
  destruct (writeProgress u activityId c score completed answers timeSpent w1)
    as [result w2].
  cbn [fst snd] in *.
  destruct (error result); [discriminate |].
  intros _. cbn [fst snd result_data db].
  destruct H2 as (rows & Hd & Hne & Hrows).
  exists rows. split; [exact Hd |]. split; [exact Hne |].
  intros row Hrow. destruct (Hrows row Hrow) as (Hin & Hru & Hra & _ & Hrs & Hrc).
  destruct (updateCourseProgress_frame u c w2) as (Hp3 & _).
  unfold same_progress in Hp3. rewrite Hp3. auto.
Qed.

Lemma successful_save_is_stored_witness :
  let rw := saveActivityProgress Demo.alice "a1" 80 true None (Some 12) Demo.fresh in
  exists rows,
    result_data (fst rw) = Some rows /\ rows <> [] /\
    forall row, In row rows ->
      In row (user_progress (db (snd rw))) /\
      up_user_id row = "alice" /\ up_activity_id row = "a1" /\
      up_score row = 80 /\ up_completed row = true.
Proof.
  apply (successful_save_is_stored Demo.alice (mkUser "alice") "a1" 80 true None
           (Some 12) Demo.fresh); reflexivity.
Defined.

(** X2. Whatever the fault schedule, a save that reports failure has written
    no progress: [user_progress] is exactly as before, and no cache key has
    been invalidated. *)
Theorem failed_save_writes_no_progress
    session activityId score completed answers timeSpent w :
  let rw := saveActivityProgress session activityId score completed answers timeSpent w in
  success (fst rw) = false ->
  user_progress (db (snd rw)) = user_progress (db w) /\
  revalidated (snd rw) = revalidated w.
Proof.
  cbv zeta.
  destruct (userError session) as [e|] eqn:He.
  { destruct (no_session_no_effect session activityId score completed answers
                timeSpent w) as [_ ->]; [right; congruence | auto]. }
  destruct (user session) as [usr|] eqn:Hu.
  2:{ destruct (no_session_no_effect session activityId score completed answers
                  timeSpent w) as [_ ->]; [now left | auto]. }
  rewrite (saveActivityProgress_any session usr) by assumption. cbv zeta.
  destruct (select_single_any activities [A_id activityId] w) as (Hdb0 & _ & _ & Hc0).
  destruct (select_single activities [A_id activityId] w) as [r0 w0].
  cbn [fst snd] in *.
  assert (Hguard : user_progress (db w0) = user_progress (db w) /\
                   revalidated w0 = revalidated w) by (rewrite Hdb0; auto).
  destruct (error r0); [intros _; exact Hguard |].
  destruct (data r0) as [act|]; [| intros _; exact Hguard].
  set (u := u_id usr). set (c := a_course_id act).
  destruct (autoEnroll_frame u c w0) as (Hp1 & _).
  pose proof (autoEnroll_same_cache u c w0) as Hc1.
  set (w1 := snd (autoEnroll u c w0)) in *.
  pose proof (writeProgress_any u activityId c score completed answers timeSpent w1) as H2.
  pose proof (writeProgress_same_cache u activityId c score completed answers
                timeSpent w1) as Hc2.
  cbv zeta in H2.
  destruct (writeProgress u activityId c score completed answers timeSpent w1)
    as [result w2].
  cbn [fst snd] in *.
  destruct (error result); [| discriminate].
  intros _. cbn [fst snd]. unfold same_progress, same_cache in *.
  destruct Hguard as [Hg1 Hg2]. split; congruence.
Qed.

Lemma failed_save_writes_no_progress_witness :
  let rw := saveActivityProgress Demo.alice "a1" 80 true None (Some 12) Demo.refusing in
  user_progress (db (snd rw)) = user_progress (db Demo.refusing) /\
  revalidated (snd rw) = revalidated Demo.refusing.
Proof.
  apply (failed_save_writes_no_progress Demo.alice "a1" 80 true None (Some 12)
           Demo.refusing).
  reflexivity.
Defined.

(** X3. Whatever the fault schedule, a save that reports success has
    invalidated exactly four cache keys, in order: the activity's page, the
    page of the course of an activity row with that id, the dashboard and the
    progress page; failures of the aggregator do not prevent it. *)
Theorem successful_save_revalidates
    session activityId score completed answers timeSpent w :
  let rw := saveActivityProgress session activityId score completed answers timeSpent w in
  success (fst rw) = true ->
  exists act,
    In act (activities (db w)) /\ a_id act = activityId /\
    revalidated (snd rw)
    = revalidated w ++ revalidatedPaths activityId (a_course_id act).
Proof.
  cbv zeta.
  destruct (userError session) as [e|] eqn:He.
  { destruct (no_session_no_effect session activityId score completed answers
                timeSpent w) as [-> _]; [right; congruence | discriminate]. }
  destruct (user session) as [usr|] eqn:Hu.
  2:{ destruct (no_session_no_effect session activityId score completed answers
                  timeSpent w) as [-> _]; [now left | discriminate]. }
  rewrite (saveActivityProgress_any session usr) by assumption. cbv zeta.
  destruct (select_single_any activities [A_id activityId] w) as (_ & _ & _ & Hc0).
  pose proof (select_single_found activities [A_id activityId] w) as Hfound.
  destruct (select_single activities [A_id activityId] w) as [r0 w0].
  cbn [fst snd] in *.
  destruct (error r0); [discriminate |].
  destruct (data r0) as [act|]; [| discriminate].
  specialize (Hfound act eq_refl). apply filter_In in Hfound as [Hin Hid].
  simpl in Hid. unfold holds in Hid; simpl in Hid. rewrite andb_true_r in Hid.
  apply String.eqb_eq in Hid.
  set (u := u_id usr). set (c := a_course_id act).
  pose proof (autoEnroll_same_cache u c w0) as Hc1.
  set (w1 := snd (autoEnroll u c w0)) in *.
  pose proof (writeProgress_same_cache u activityId c score completed answers
                timeSpent w1) as Hc2.
  destruct (writeProgress u activityId c score completed answers timeSpent w1)
    as [result w2].
  cbn [fst snd] in *.
  destruct (error result); [discriminate |].
  pose proof (updateCourseProgress_same_cache u c w2) as Hc3.
  intros _. cbn [fst snd revalidated].
  exists act. split; [exact Hin |]. split; [exact Hid |].
  unfold same_cache in *. fold c. congruence.
Qed.

Lemma successful_save_revalidates_witness :
  let rw := saveActivityProgress Demo.alice "a1" 80 true None (Some 12) Demo.fresh in
  exists act,
    In act (activities (db Demo.fresh)) /\ a_id act = "a1" /\
    revalidated (snd rw)
    = revalidated Demo.fresh ++ revalidatedPaths "a1" (a_course_id act).
Proof.
  apply (successful_save_revalidates Demo.alice "a1" 80 true None (Some 12) Demo.fresh).
  reflexivity.
Defined.

(** ** Rows are never removed *)

Lemma grows_refl w : grows w w.
Proof.
  split; [reflexivity | split; [reflexivity | split]];
    exists []; now rewrite app_nil_r.
Qed.

Lemma grows_trans a b c : grows a b -> grows b c -> grows a c.
Proof.
  intros (A1 & C1 & (l1 & E1) & (m1 & P1)) (A2 & C2 & (l2 & E2) & (m2 & P2)).
  split; [congruence | split; [congruence | split]].
  - exists (l1 ++ l2). now rewrite E2, E1, app_assoc.
  - exists (m1 ++ m2). now rewrite P2, P1, app_assoc.
Qed.

Lemma grows_of_eq w w' : db w' = db w -> grows w w'.
Proof.
  intros E. unfold grows. rewrite E.
  split; [reflexivity | split; [reflexivity | split]];
    exists []; now rewrite app_nil_r.
Qed.

Lemma update_where_keeps_all {T F C} `{Filterable T F}
    (g : T -> C) (fs : list F) (set : T -> T) (rows : list T) :
  (forall r, g (set r) = g r) ->
  map g (update_where fs set rows) = map g rows.
Proof. intros Hset. apply update_where_keeps. auto. Qed.

Lemma grows_insert_user_courses row : steps_in grows (insert_user_courses row).
Proof.
  run_write; try (now apply grows_of_eq);
    (split; [reflexivity | split; [reflexivity | split]]);
    [ eexists; simpl; now rewrite map_app | exists []; now rewrite app_nil_r
    | eexists; simpl; now rewrite map_app | exists []; now rewrite app_nil_r ].
Qed.

Lemma grows_update_user_courses d fs : steps_in grows (update_user_courses d fs).
Proof.
  run_write; try (now apply grows_of_eq);
    (split; [reflexivity | split; [reflexivity | split]]);
    exists []; rewrite app_nil_r; simpl; try reflexivity;
    now apply update_where_keeps_all.
Qed.

Lemma grows_update_courses n fs : steps_in grows (update_courses n fs).
Proof.
  run_write; try (now apply grows_of_eq);
    (split; [reflexivity | split; [simpl; now apply update_where_keeps_all | split]]);
    exists []; now rewrite app_nil_r.
Qed.

Lemma grows_insert_user_progress pd : steps_in grows (insert_user_progress pd).
Proof.
  run_write; try (now apply grows_of_eq);
    (split; [reflexivity | split; [reflexivity | split]]);
    [ exists []; now rewrite app_nil_r | eexists; simpl; now rewrite map_app
    | exists []; now rewrite app_nil_r | eexists; simpl; now rewrite map_app ].
Qed.

Lemma grows_update_user_progress pd fs : steps_in grows (update_user_progress pd fs).
Proof.
  run_write; try (now apply grows_of_eq);
    (split; [reflexivity | split; [reflexivity | split]]);
    exists []; rewrite app_nil_r; simpl; try reflexivity;
    now apply update_where_keeps_all.
Qed.

(** X4. Whatever its arguments and the fault schedule, a request removes no
    row and renumbers none: the activities are untouched, the courses keep
    their ids in order, and the ids of the enrollment and progress rows
    afterwards are the ids before, in the same order, followed by the ids of
    newly inserted rows. *)
Theorem save_never_deletes session activityId score completed answers timeSpent w :
  grows w (snd (saveActivityProgress session activityId score completed
                                     answers timeSpent w)).
Proof.
  apply (steps_saveActivityProgress grows).
  - apply grows_refl.
  - apply grows_trans.
  - intros w0 f fs _. now apply grows_of_eq.
  - intros a b _ w0. now apply grows_of_eq.
  - intros p w0. now apply grows_of_eq.
  - intros usr c _. split; [| split; [| split; [| split]]]; intros.
    + apply grows_insert_user_courses.
    + apply grows_update_user_courses.
    + apply grows_update_courses.
    + apply grows_insert_user_progress.
    + apply grows_update_user_progress.
Qed.

(** ** The tables after each stage *)


Lemma autoEnroll_db_run u c w :
  faults w = [] ->
  db (snd (autoEnroll u c w)) = autoEnroll_db u c (db w) /\
  faults (snd (autoEnroll u c w)) = [].
Proof.
  intros Hq. unfold autoEnroll, autoEnroll_db.
  rewrite bind_run, select_single_quiet by exact Hq. cbn [fst snd].
  fold (enrollments u c (db w)).
  destruct (data (single (enrollments u c (db w)))); [now rewrite ret_run |].
  rewrite bind_run, insert_user_courses_quiet by exact Hq. cbn [fst snd error].
  set (w1 := with_db _ (issue _ w)).
  assert (Hq1 : faults w1 = []) by exact Hq.
  rewrite bind_run, select_single_quiet by exact Hq1. cbn [fst snd].
  rewrite bind_discard, update_courses_quiet by exact Hq1. cbn [fst snd].
  split; [reflexivity | exact Hq].
Qed.

Lemma writeProgress_db_run u a c score completed answers timeSpent w :
  faults w = [] ->
  db (snd (writeProgress u a c score completed answers timeSpent w))
  = writeProgress_db u a c score completed answers timeSpent (db w) /\
  faults (snd (writeProgress u a c score completed answers timeSpent w)) = [].
Proof.
  intros Hq. rewrite writeProgress_quiet by exact Hq. unfold writeProgress_db.
  destruct (priorProgress u a (db w)) as [existing|];
    [destruct (JS.truthy_num (up_id existing)) |];
    rewrite ?update_user_progress_quiet, ?insert_user_progress_quiet by exact Hq;
    (split; [reflexivity | exact Hq]).
Qed.

Lemma updateCourseProgress_db_run u c w :
  faults w = [] ->
  db (snd (updateCourseProgress u c w)) = aggregate_db u c (db w) /\
  faults (snd (updateCourseProgress u c w)) = [].
Proof.
  intros Hq. unfold aggregate_db.
  destruct (published c (db w)) as [|a l] eqn:Hpub.
  - destruct (updateCourseProgress_nothing_published u c w Hpub) as (_ & ->).
    split; [reflexivity |].
    now destruct (updateCourseProgress_frame u c w) as (_ & _ & Hquiet); apply Hquiet.
  - assert (Hne : published c (db w) <> []) by (rewrite Hpub; discriminate).
    rewrite updateCourseProgress_quiet by assumption. cbn [snd].
    set (w1 := with_divisors _ w).
    assert (Hq1 : faults w1 = []) by exact Hq.
    destruct (data (single (enrollments u c (db w)))) as [existing|];
      [destruct (JS.truthy_num (uc_id existing)) |];
      rewrite ?update_user_courses_quiet, ?insert_user_courses_quiet by exact Hq1;
      (split; [reflexivity | exact Hq]).
Qed.

(** The tables after a request that passes both guards. *)
Lemma saveActivityProgress_db
    session usr act activityId score completed answers timeSpent w :
  faults w = [] ->
  userError session = None ->
  user session = Some usr ->
  filter (matches [A_id activityId]) (activities (db w)) = [act] ->
  db (snd (saveActivityProgress session activityId score completed answers timeSpent w))
  = aggregate_db (u_id usr) (a_course_id act)
      (writeProgress_db (u_id usr) activityId (a_course_id act) score completed
                        answers timeSpent
                        (autoEnroll_db (u_id usr) (a_course_id act) (db w))).
Proof.
  intros Hq He Hu Hact.
  rewrite (saveActivityProgress_quiet session usr act) by assumption. cbn [snd db].
  destruct (autoEnroll_db_run (u_id usr) (a_course_id act) w Hq) as [E1 Hq1].
  destruct (writeProgress_db_run (u_id usr) activityId (a_course_id act) score
              completed answers timeSpent _ Hq1) as [E2 Hq2].
  destruct (updateCourseProgress_db_run (u_id usr) (a_course_id act) _ Hq2) as [E3 _].
  now rewrite E3, E2, E1.
Qed.

(** ** Saving again *)

Lemma update_where_fixed {T F} `{Filterable T F}
    (fs : list F) (set : T -> T) (rows : list T) :
  (forall r, In r rows -> matches fs r = true -> set r = r) ->
  update_where fs set rows = rows.
Proof.
  intros Hfix. unfold update_where. rewrite <- (map_id rows) at 2.
  apply map_ext_in. intros r Hr.
  destruct (matches fs r) eqn:Hm; [now apply Hfix | reflexivity].
Qed.

Lemma published_same_activities c d d' :
  activities d' = activities d -> published c d' = published c d.
Proof. unfold published. now intros ->. Qed.










(** ** The rows beside those of the request *)

Lemma filter_update_where_others {T F} `{Filterable T F}
    (p : T -> bool) (fs : list F) (set : T -> T) (rows : list T) :
  (forall r, In r rows -> matches fs r = true -> p r = false /\ p (set r) = false) ->
  filter p (update_where fs set rows) = filter p rows.
Proof.
  intros Hout. rewrite filter_update_where.
  - apply update_where_fixed. intros r Hr Hm. apply filter_In in Hr as [Hr Hp].
    destruct (Hout r Hr Hm) as [E _]. congruence.
  - intros r Hr Hm. destruct (Hout r Hr Hm) as [-> ->]. reflexivity.
Qed.

Lemma key_is_refl k : key_is k k = true.
Proof. now apply key_is_spec. Qed.

Lemma autoEnroll_db_beside u c d :
  let d' := autoEnroll_db u c d in
  activities d' = activities d /\
  user_progress d' = user_progress d /\
  other_enrollments u c d' = other_enrollments u c d /\
  other_courses c d' = other_courses c d.
Proof.
  cbv zeta. unfold autoEnroll_db.
  destruct (data (single (enrollments u c d))); [now repeat split |].
  split; [reflexivity |]. split; [reflexivity |]. split.
  - unfold other_enrollments. cbn [user_courses]. apply filter_snoc_out.
    unfold uc_key. cbn [uc_user_id uc_course_id]. now rewrite key_is_refl.
  - unfold other_courses. cbn [courses]. apply filter_update_where_others.
    intros r _ Hm. assert (Hm' : matches [C_id c] (set_total_enrollment
                                     (currentEnrollment c d + 1) r) = true) by exact Hm.
    now rewrite Hm, Hm'.
Qed.

Lemma writeProgress_db_beside u a c score completed answers timeSpent d :
  wf d ->
  let d' := writeProgress_db u a c score completed answers timeSpent d in
  activities d' = activities d /\
  courses d' = courses d /\
  user_courses d' = user_courses d /\
  other_progress u a d' = other_progress u a d.
Proof.
  intros Hwf. cbv zeta. unfold writeProgress_db.
  set (pd := mkProgressData u a c score completed answers _).
  assert (Hins : other_progress u a
                   (mkDB (activities d) (courses d) (user_courses d)
                         (user_progress d ++ [new_user_progress (next_id d) pd])
                         (next_id d + 1))
                 = other_progress u a d).
  { unfold other_progress. cbn [user_progress]. apply filter_snoc_out.
    unfold up_key, new_user_progress, pd. cbn [up_user_id up_activity_id pd_user_id
                                               pd_activity_id].
    now rewrite key_is_refl. }
  destruct (priorProgress u a d) as [existing|] eqn:Hprior; [| now repeat split].
  destruct (JS.truthy_num (up_id existing)); [| now repeat split].
  split; [reflexivity |]. split; [reflexivity |]. split; [reflexivity |].
  unfold other_progress. cbn [user_progress]. apply filter_update_where_others.
  intros r Hr Hm. apply single_some in Hprior.
  rewrite (progress_update_hits_existing d u a existing r Hwf Hprior Hr Hm).
  destruct (progress_existing_matches _ _ _ _ Hprior) as (_ & Hk & _).
  rewrite Hk, key_is_refl. split; [reflexivity |].
  unfold up_key, set_user_progress, pd. cbn [up_user_id up_activity_id pd_user_id
                                             pd_activity_id].
  now rewrite key_is_refl.
Qed.

Lemma aggregate_db_beside u c d :
  wf d ->
  let d' := aggregate_db u c d in
  activities d' = activities d /\
  courses d' = courses d /\
  user_progress d' = user_progress d /\
  other_enrollments u c d' = other_enrollments u c d.
Proof.
  intros Hwf. cbv zeta. unfold aggregate_db.
  destruct (published c d); [now repeat split |].
  set (f := courseFigures u c d).
  assert (Hins : other_enrollments u c
                   (mkDB (activities d) (courses d)
                         (user_courses d ++
                            [mkUserCourse (next_id d) u c (ucd_progress f) (ucd_score f)])
                         (user_progress d) (next_id d + 1))
                 = other_enrollments u c d).
  { unfold other_enrollments. cbn [user_courses]. apply filter_snoc_out.
    unfold uc_key. cbn [uc_user_id uc_course_id]. now rewrite key_is_refl. }
  destruct (data (single (enrollments u c d))) as [existing|] eqn:Hsel;
    [| now repeat split].
  destruct (JS.truthy_num (uc_id existing)); [| now repeat split].
  split; [reflexivity |]. split; [reflexivity |]. split; [reflexivity |].
  unfold other_enrollments. cbn [user_courses]. apply filter_update_where_others.
  intros r Hr Hm. apply single_some in Hsel.
  rewrite (enrollment_update_hits_existing d u c existing r Hwf Hsel Hr Hm).
  destruct (enrollment_existing_matches _ _ _ _ Hsel) as (_ & Hk & _).
  unfold uc_key in *. cbn [set_user_course uc_user_id uc_course_id].
  now rewrite Hk, key_is_refl.
Qed.

(** X7. On a well-formed store that answers every call, a request that passes
    both guards writes at most the progress row of its (user, activity) pair,
    the enrollment row of the user in the activity's course and that course:
    the progress rows of every other pair, the enrollment rows of every other
    pair, the other courses and the activities are what they were, in the same
    order.  This holds for rows of the same user too. *)
Theorem save_leaves_other_rows
    session usr act activityId score completed answers timeSpent w :
  faults w = [] -> wf (db w) ->
  userError session = None ->
  user session = Some usr ->
  filter (matches [A_id activityId]) (activities (db w)) = [act] ->
  let d' := db (snd (saveActivityProgress session activityId score completed answers
                                          timeSpent w)) in
  activities d' = activities (db w) /\
  other_progress (u_id usr) activityId d' = other_progress (u_id usr) activityId (db w) /\
  other_enrollments (u_id usr) (a_course_id act) d'
  = other_enrollments (u_id usr) (a_course_id act) (db w) /\
  other_courses (a_course_id act) d' = other_courses (a_course_id act) (db w).
Proof.
  intros Hq Hwf He Hu Hact. cbv zeta.
  destruct (saveActivityProgress_stages session usr act activityId score completed
              answers timeSpent w Hq Hwf He Hu Hact)
    as (_ & _ & _ & _ & _ & (Hq1 & Hwf1) & (Hq2 & Hwf2) & _).
  rewrite (saveActivityProgress_db session usr act) by assumption.
  set (u := u_id usr) in *. set (c := a_course_id act) in *.
  rewrite (proj1 (writeProgress_db_run u activityId c score completed answers
                    timeSpent _ Hq1)) in Hwf2.
  rewrite (proj1 (autoEnroll_db_run u c w Hq)) in Hwf1, Hwf2.
  destruct (autoEnroll_db_beside u c (db w)) as (Ha1 & Hp1 & He1 & Hc1).
  destruct (writeProgress_db_beside u activityId c score completed answers timeSpent
              _ Hwf1) as (Ha2 & Hc2 & He2 & Hp2).
  destruct (aggregate_db_beside u c _ Hwf2) as (Ha3 & Hc3 & Hp3 & He3).
  split; [now rewrite Ha3, Ha2, Ha1 |]. split; [| split].
  - unfold other_progress in *. now rewrite Hp3, Hp2, Hp1.
  - rewrite He3. unfold other_enrollments in *. now rewrite He2, He1.
  - unfold other_courses in *. now rewrite Hc3, Hc2, Hc1.
Qed.

Lemma save_leaves_other_rows_witness :
  let d' := db (snd (saveActivityProgress Demo.alice "a2" 40 false None None
                                          Demo.enrolled)) in
  activities d' = activities (db Demo.enrolled) /\
  other_progress "alice" "a2" d' = other_progress "alice" "a2" (db Demo.enrolled) /\
  other_enrollments "alice" "c1" d' = other_enrollments "alice" "c1" (db Demo.enrolled) /\
  other_courses "c1" d' = other_courses "c1" (db Demo.enrolled).
Proof.
  apply (save_leaves_other_rows Demo.alice (mkUser "alice")
           (mkActivity "a2" "c1" "draft"));
    [reflexivity | apply demo_enrolled_wf | reflexivity | reflexivity | reflexivity].
Defined.

(** ** Enrollment bookkeeping *)

(** X8. On a well-formed store that answers every call, a request of a user
    who is enrolled in the activity's course does no enrollment bookkeeping:
    it issues no insert into [user_courses] and no update of [courses], the
    courses are as they were, and the enrollment rows keep their number, order
    and (user, course) pairs. *)
Theorem enrolled_save_no_bookkeeping
    session usr act r activityId score completed answers timeSpent w :
  faults w = [] -> wf (db w) ->
  userError session = None ->
  user session = Some usr ->
  filter (matches [A_id activityId]) (activities (db w)) = [act] ->
  enrollments (u_id usr) (a_course_id act) (db w) = [r] ->
  let rw := saveActivityProgress session activityId score completed answers timeSpent w in
  (exists l, writes (snd rw) = writes w ++ l /\ Forall off_enrollment l) /\
  courses (db (snd rw)) = courses (db w) /\
  map uc_key (user_courses (db (snd rw))) = map uc_key (user_courses (db w)).
Proof.
  intros Hq Hwf He Hu Hact Hone. cbv zeta.
  destruct (saveActivityProgress_stages session usr act activityId score completed
              answers timeSpent w Hq Hwf He Hu Hact)
    as (_ & Hdb & Hwr & _ & _ & (Hq1 & Hwf1) & (Hq2 & Hwf2) & _).
  rewrite Hdb, Hwr. clear Hdb Hwr.
  set (u := u_id usr) in *. set (c := a_course_id act) in *.
  destruct (autoEnroll_effect u c w Hq Hwf)
    as (_ & _ & _ & _ & [(r0 & _ & Hsame) | (Hnone & _)]);
    [| rewrite Hnone in Hone; discriminate].
  rewrite Hsame in *. clear Hsame.
  destruct (writeProgress_effect u activityId c score completed answers timeSpent
              w Hq1 Hwf1) as (_ & _ & _ & Hc2 & Huc2 & _).
  destruct (writeProgress_off_enrollment u activityId c score completed answers
              timeSpent w) as (l2 & Hw2 & Hoff2).
  set (w2 := snd (writeProgress u activityId c score completed answers timeSpent w)) in *.
  assert (Hen2 : enrollments u c (db w2) = [r])
    by (unfold enrollments in *; now rewrite Huc2).
  destruct (updateCourseProgress_enrolled u c w2 _ Hq2 Hwf2 Hen2)
    as (Hc3 & Huc3 & (l3 & Hw3 & Hoff3) & _).
  split; [| split].
  - exists (l2 ++ l3). split; [now rewrite Hw3, Hw2, <- app_assoc |].
    apply Forall_app. now split.
  - now rewrite Hc3, Hc2.
  - now rewrite Huc3, Huc2.
Qed.

Lemma enrolled_save_no_bookkeeping_witness :
  let rw := saveActivityProgress Demo.alice "a1" 90 true None None Demo.enrolled in
  (exists l, writes (snd rw) = writes Demo.enrolled ++ l /\ Forall off_enrollment l) /\
  courses (db (snd rw)) = courses (db Demo.enrolled) /\
  map uc_key (user_courses (db (snd rw))) = map uc_key (user_courses (db Demo.enrolled)).
Proof.
  apply (enrolled_save_no_bookkeeping Demo.alice (mkUser "alice")
           (mkActivity "a1" "c1" "published") (mkUserCourse 1 "alice" "c1" 100 80));
    [reflexivity | apply demo_enrolled_wf | reflexivity ..].
Defined.

Lemma update_courses_writes n fs w :
  writes (snd (update_courses n fs w)) = writes w ++ [UpdateCourse n fs].
Proof. revert w. run_write; reflexivity. Qed.

(** X9. The enrollment test looks at the row alone.  When the store answers
    the activity look-up and refuses the enrollment look-up, the request
    takes the user for not enrolled and issues the enrollment insert with
    progress 0 and score 0 as its first statement, whether or not an
    enrollment row is stored. *)
Theorem refused_enrollment_lookup_enrolls
    session usr act activityId score completed answers timeSpent e fs w :
  userError session = None ->
  user session = Some usr ->
  faults w = None :: Some e :: fs ->
  filter (matches [A_id activityId]) (activities (db w)) = [act] ->
  exists l,
    writes (snd (saveActivityProgress session activityId score completed answers
                                      timeSpent w))
    = writes w ++ InsertUserCourse (mkNewUserCourse (u_id usr) (a_course_id act) 0 0) :: l.
Proof.
  intros He Hu Hf Hact.
  rewrite (saveActivityProgress_any session usr) by assumption. cbv zeta.
  assert (E0 : select_single activities [A_id activityId] w
               = (mkResponse (Some act) None, with_faults (Some e :: fs) w)).
  { unfold select_single, call. rewrite Hf. unfold with_faults. cbn [db].
    now rewrite Hact. }
  rewrite E0. cbn [fst snd error data].
  set (u := u_id usr). set (c := a_course_id act).
  set (w0 := with_faults (Some e :: fs) w).
  assert (H1 : exists l1, writes (snd (autoEnroll u c w0))
                          = writes w ++ InsertUserCourse (mkNewUserCourse u c 0 0) :: l1).
  { unfold autoEnroll. rewrite bind_run.
    assert (E1 : select_single user_courses [UC_user_id u; UC_course_id c] w0
                 = (mkResponse None (Some e), with_faults fs w0)) by reflexivity.
    rewrite E1. cbn [fst snd data]. rewrite bind_run.
    pose proof (insert_user_courses_writes (mkNewUserCourse u c 0 0) (with_faults fs w0))
      as Hins.
    destruct (insert_user_courses _ (with_faults fs w0)) as [r_enroll w1].
    cbn [fst snd] in *.
    destruct (error r_enroll); [exists []; now rewrite ret_run |].
    rewrite bind_run, bind_discard. cbn [snd].
    rewrite update_courses_writes.
    destruct (select_single_any courses [C_id c] w1) as (_ & Hw & _).
    rewrite Hw, Hins. cbn [writes with_faults]. rewrite <- app_assoc.
    now eexists. }
  destruct H1 as (l1 & H1).
  set (w1 := snd (autoEnroll u c w0)) in *.
  destruct (writeProgress_off_enrollment u activityId c score completed answers
              timeSpent w1) as (l2 & H2 & _).
  destruct (writeProgress u activityId c score completed answers timeSpent w1)
    as [result w2]. cbn [fst snd] in *.
  destruct (error result).
  - cbn [snd]. rewrite H2, H1, <- app_assoc. now eexists.
  - destruct (updateCourseProgress_off_progress u c w2) as (l3 & H3 & _).
    cbn [snd writes]. rewrite H3, H2, H1, <- !app_assoc. cbn [app]. now eexists.
Qed.

Lemma refused_enrollment_lookup_enrolls_witness :
  let w := with_faults [None; Some (mkError "57014" "canceling statement")]
                       Demo.enrolled in
  exists l,
    writes (snd (saveActivityProgress Demo.alice "a1" 90 true None None w))
    = writes w ++ InsertUserCourse (mkNewUserCourse "alice" "c1" 0 0) :: l.
Proof.
  apply (refused_enrollment_lookup_enrolls Demo.alice (mkUser "alice")
           (mkActivity "a1" "c1" "published") "a1" 90 true None None
           (mkError "57014" "canceling statement") []); reflexivity.
Defined.

(** ** The figures as numbers *)

Lemma progressPercentage_div count total :
  0 < total -> progressPercentage count total = (200 * count + total) / (2 * total).
Proof.
  intros Ht. rewrite progressPercentage_spec. now apply spec_progress_div.
Qed.



(** X11. The percentage does not fall when rows are completed: for the same
    number of published activities, more completed rows never give a smaller
    percentage. *)
Theorem progress_monotone count count' total :
  0 < total -> count <= count' ->
  progressPercentage count total <= progressPercentage count' total.
Proof.
  intros Ht Hle. rewrite !progressPercentage_div by exact Ht.
  apply Z.div_le_mono; lia.
Qed.

Lemma progress_monotone_witness :
  progressPercentage 1 3 <= progressPercentage 2 3.
Proof. apply progress_monotone; lia. Defined.

Lemma totalScore_between lo hi rows :
  Forall (fun r => lo <= up_score r <= hi) rows ->
  lo * Z.of_nat (length rows) <= totalScore rows <= hi * Z.of_nat (length rows).
Proof.
  rewrite totalScore_sum. unfold sumScores.
  induction 1 as [|r rows Hr _ IH]; simpl length; simpl; lia.
Qed.

(** X12. The average score that the aggregator computes lies between the
    smallest and the largest score of the completed rows: when every score is
    between [lo] and [hi] and there is a completed row, so is the average. *)
Theorem average_between lo hi rows :
  rows <> [] ->
  Forall (fun r => lo <= up_score r <= hi) rows ->
  lo <= averageScore rows <= hi.
Proof.
  intros Hne Hrows. unfold averageScore.
  assert (Hpos : 0 < Z.of_nat (length rows)).
  { destruct rows; [now elim Hne | simpl length; lia]. }
  rewrite (proj2 (Z.ltb_lt _ _) Hpos).
  pose proof (totalScore_between lo hi rows Hrows) as Hsum.
  rewrite Math_round_div by exact Hpos. split.
  - apply Z.div_le_lower_bound; nia.
  - apply Z.lt_succ_r. apply Z.div_lt_upper_bound; nia.
Qed.

Lemma average_between_witness :
  80 <= averageScore (completedRows "alice" "c1" (db Demo.enrolled)) <= 80.
Proof.
  apply average_between; [discriminate | repeat constructor; simpl; lia].
Defined.

(** * The activity page *)

Section ActivityPageFacts.
Import ActivityPage.

Lemma findIndex_from_absent {A} (test : A -> bool) (l : list A) i :
  (forall x, In x l -> test x = false) -> findIndex_from test l i = -1.
Proof.
  revert i. induction l as [|a l IH]; intros i Hall; simpl; [reflexivity |].
  rewrite (Hall a) by now left. apply IH. intros x Hx. apply Hall. now right.
Qed.

(** The index found is that of the first element passing the test. *)
Lemma findIndex_from_first {A} (test : A -> bool) (l : list A) i k x :
  nth_error l k = Some x -> test x = true ->
  (forall j y, (j < k)%nat -> nth_error l j = Some y -> test y = false) ->
  findIndex_from test l i = i + Z.of_nat k.
Proof.
  revert i k. induction l as [|a l IH]; intros i k Hk Hx Hbefore.
  - destruct k; discriminate.
  - destruct k as [|k]; simpl in *.
    + injection Hk as ->. rewrite Hx. lia.
    + rewrite (Hbefore 0%nat a) by first [lia | reflexivity].
      rewrite (IH (i + 1) k Hk Hx); [lia |].
      intros j y Hj Hy. apply (Hbefore (S j) y); [lia | exact Hy].
Qed.

Lemma findIndex_from_found {A} (test : A -> bool) (l : list A) i :
  findIndex_from test l i = -1 /\ (forall x, In x l -> test x = false) \/
  exists k x, findIndex_from test l i = i + Z.of_nat k /\
              nth_error l k = Some x /\ test x = true.
Proof.
  revert i. induction l as [|a l IH]; intros i; simpl.
  - left. split; [reflexivity | intros x []].
  - destruct (test a) eqn:Ha.
    + right. exists 0%nat, a. split; [lia | now split].
    + destruct (IH (i + 1)) as [[E Hall] | (k & x & E & Hk & Hx)].
      * left. split; [exact E |]. intros x [<-|Hin]; auto.
      * right. exists (S k), x. split; [lia | now split].
Qed.

(** With distinct ids, a row is found at its own position. *)
Lemma findIndex_own_position rows k x :
  NoDup (map ca_id rows) ->
  nth_error rows k = Some x ->
  findIndex (fun a => (ca_id a =? ca_id x)%string) rows = Z.of_nat k.
Proof.
  intros Hnd Hk. unfold findIndex.
  rewrite (findIndex_from_first _ rows 0 k x Hk); [lia | apply String.eqb_refl |].
  intros j y Hj Hy. apply String.eqb_neq. intros E.
  assert (Hjk : nth_error (map ca_id rows) j = nth_error (map ca_id rows) k).
  { rewrite !nth_error_map, Hy, Hk. simpl. now rewrite E. }
  apply (proj1 (NoDup_nth_error (map ca_id rows)) Hnd) in Hjk; [lia |].
  rewrite length_map. apply nth_error_Some. rewrite Hy. discriminate.
Qed.

Lemma at_index_nat {A} (l : list A) (k : nat) : at_index l (Z.of_nat k) = nth_error l k.
Proof.
  unfold at_index. destruct (Z.ltb_spec (Z.of_nat k) 0); [lia |].
  now rewrite Nat2Z.id.
Qed.

(** The position of the activity shown, when it is among the rows. *)
Lemma findIndex_present rows activity_id :
  In activity_id (map ca_id rows) ->
  exists k x, findIndex (fun a => (ca_id a =? activity_id)%string) rows = Z.of_nat k /\
              nth_error rows k = Some x /\ ca_id x = activity_id.
Proof.
  intros Hin. unfold findIndex.
  destruct (findIndex_from_found (fun a => (ca_id a =? activity_id)%string) rows 0)
    as [[_ Hall] | (k & x & E & Hk & Hx)].
  - apply in_map_iff in Hin as (x & Hx & Hin).
    specialize (Hall x Hin). simpl in Hall. rewrite Hx, String.eqb_refl in Hall.
    discriminate.
  - exists k, x. split; [lia |]. split; [exact Hk | now apply String.eqb_eq].
Qed.

(** X13. With distinct activity ids, the links of the page are inverse to
    each other: when the page of an activity offers a next activity, the page
    of that activity offers the first one as its previous activity, and the
    other way round. *)
Theorem next_then_previous courseId rows a b :
  NoDup (map ca_id rows) ->
  (nextActivityId (navigation courseId (Some rows) a) = Some b ->
   prevActivityId (navigation courseId (Some rows) b) = Some a) /\
  (prevActivityId (navigation courseId (Some rows) a) = Some b ->
   nextActivityId (navigation courseId (Some rows) b) = Some a).
Proof.
  intros Hnd. unfold navigation.
  destruct (JS.truthy_str courseId); [| split; discriminate].
  destruct (0 <? Z.of_nat (length rows)); [| split; discriminate].
  cbn [nextActivityId prevActivityId].
  set (len := Z.of_nat (length rows)).
  destruct (findIndex_from_found (fun x => (ca_id x =? a)%string) rows 0)
    as [[E _] | (k & x & E & Hk & Hx)]; fold (findIndex (fun x => (ca_id x =? a)%string) rows) in E;
    rewrite E.
  { split; simpl; discriminate. }
  apply String.eqb_eq in Hx. rewrite Z.add_0_l.
  assert (Hlen : (k < length rows)%nat)
    by (apply nth_error_Some; rewrite Hk; discriminate).
  split.
  - destruct (negb (Z.of_nat k =? -1) && (Z.of_nat k <? len - 1)) eqn:G;
      [| discriminate].
    apply andb_prop in G as [_ G]. apply Z.ltb_lt in G.
    replace (Z.of_nat k + 1) with (Z.of_nat (S k)) by lia. rewrite at_index_nat.
    destruct (nth_error rows (S k)) as [y|] eqn:Hy; [| discriminate].
    intros [= <-]. rewrite (findIndex_own_position rows (S k) y Hnd Hy).
    replace (0 <? Z.of_nat (S k)) with true by (symmetry; apply Z.ltb_lt; lia).
    replace (Z.of_nat (S k) - 1) with (Z.of_nat k) by lia.
    rewrite at_index_nat, Hk. simpl. now rewrite Hx.
  - destruct (Z.ltb_spec 0 (Z.of_nat k)) as [Hpos|]; [| discriminate].
    destruct k as [|k]; [lia |].
    replace (Z.of_nat (S k) - 1) with (Z.of_nat k) by lia. rewrite at_index_nat.
    destruct (nth_error rows k) as [y|] eqn:Hy; [| discriminate].
    intros [= <-]. rewrite (findIndex_own_position rows k y Hnd Hy).
    replace (negb (Z.of_nat k =? -1) && (Z.of_nat k <? len - 1)) with true.
    + replace (Z.of_nat k + 1) with (Z.of_nat (S k)) by lia.
      rewrite at_index_nat, Hk. simpl. now rewrite Hx.
    + symmetry. apply andb_true_intro. split.
      * apply negb_true_iff, Z.eqb_neq. lia.
      * apply Z.ltb_lt. subst len. lia.
Qed.

Lemma next_then_previous_witness :
  (nextActivityId (navigation "c1" (Some demo_rows) "a1") = Some "a3" ->
   prevActivityId (navigation "c1" (Some demo_rows) "a3") = Some "a1") /\
  (prevActivityId (navigation "c1" (Some demo_rows) "a1") = Some "a3" ->
   nextActivityId (navigation "c1" (Some demo_rows) "a3") = Some "a1").
Proof.
  apply (next_then_previous "c1" demo_rows "a1" "a3").
  repeat constructor; simpl; intuition discriminate.
Defined.

(** X14. For an activity that is among the rows, the page marks it as the
    last one exactly when it offers no next activity and as the first one
    exactly when it offers no previous activity; a link offered leads to one
    of the rows. *)
Theorem navigation_ends courseId rows a :
  JS.truthy_str courseId = true ->
  In a (map ca_id rows) ->
  let nav := navigation courseId (Some rows) a in
  (isLastActivity nav = true <-> nextActivityId nav = None) /\
  (isFirstActivity nav = true <-> prevActivityId nav = None) /\
  (forall b, nextActivityId nav = Some b \/ prevActivityId nav = Some b ->
             In b (map ca_id rows)).
Proof.
  intros Hc Hin. cbv zeta. unfold navigation. rewrite Hc.
  destruct (findIndex_present rows a Hin) as (k & x & E & Hk & Hx).
  assert (Hlen : (k < length rows)%nat)
    by (apply nth_error_Some; rewrite Hk; discriminate).
  replace (0 <? Z.of_nat (length rows)) with true by (symmetry; apply Z.ltb_lt; lia).
  rewrite E. cbn [nextActivityId prevActivityId isLastActivity isFirstActivity].
  replace (negb (Z.of_nat k =? -1)) with true
    by (symmetry; apply negb_true_iff, Z.eqb_neq; lia).
  cbn [andb].
  assert (Hnext : Z.of_nat k < Z.of_nat (length rows) - 1 ->
                  exists y, nth_error rows (S k) = Some y).
  { intros H. destruct (nth_error rows (S k)) as [y|] eqn:Hy; [now exists y |].
    apply nth_error_None in Hy. lia. }
  assert (Hprev : 0 < Z.of_nat k ->
                  exists y, nth_error rows (Nat.pred k) = Some y).
  { intros H. destruct (nth_error rows (Nat.pred k)) as [y|] eqn:Hy; [now exists y |].
    apply nth_error_None in Hy. lia. }
  replace (Z.of_nat k + 1) with (Z.of_nat (S k)) by lia.
  replace (Z.of_nat k - 1) with (if 0 <? Z.of_nat k then Z.of_nat (Nat.pred k)
                                 else Z.of_nat k - 1)
    by (destruct (Z.ltb_spec 0 (Z.of_nat k)); lia).
  split; [| split].
  - destruct (Z.ltb_spec (Z.of_nat k) (Z.of_nat (length rows) - 1)) as [Hlt|Hge].
    + destruct (Hnext Hlt) as [y Hy]. rewrite at_index_nat, Hy. simpl.
      split; [intros H; apply Z.eqb_eq in H; lia | discriminate].
    + split; [reflexivity |]. intros _. apply Z.eqb_eq. lia.
  - destruct (Z.ltb_spec 0 (Z.of_nat k)) as [Hpos|Hle].
    + destruct (Hprev Hpos) as [y Hy]. rewrite at_index_nat, Hy. simpl.
      split; [intros H; apply Z.eqb_eq in H; lia | discriminate].
    + split; [reflexivity |]. intros _. apply Z.eqb_eq. lia.
  - intros b [H | H].
    + destruct (Z.of_nat k <? Z.of_nat (length rows) - 1); [| discriminate].
      rewrite at_index_nat in H.
      destruct (nth_error rows (S k)) as [y|] eqn:Hy; [| discriminate].
      injection H as <-. apply in_map. eapply nth_error_In, Hy.
    + destruct (0 <? Z.of_nat k); [| discriminate].
      rewrite at_index_nat in H.
      destruct (nth_error rows (Nat.pred k)) as [y|] eqn:Hy; [| discriminate].
      injection H as <-. apply in_map. eapply nth_error_In, Hy.
Qed.

Lemma navigation_ends_witness :
  let nav := navigation "c1" (Some demo_rows) "a4" in
  (isLastActivity nav = true <-> nextActivityId nav = None) /\
  (isFirstActivity nav = true <-> prevActivityId nav = None) /\
  (forall b, nextActivityId nav = Some b \/ prevActivityId nav = Some b ->
             In b (map ca_id demo_rows)).
Proof.
  apply (navigation_ends "c1" demo_rows "a4"); [reflexivity | simpl; tauto].
Defined.

(** X15. An activity that is not among the rows (a draft, or an activity of
    another course than the one named in the query string) gets no link and
    is marked neither first nor last, whatever the rows are. *)
Theorem navigation_of_stranger courseId courseActivities a :
  (forall rows, courseActivities = Some rows -> ~ In a (map ca_id rows)) ->
  navigation courseId courseActivities a = mkNavigation None None false false.
Proof.
  intros Hout. unfold navigation.
  destruct (JS.truthy_str courseId); [| reflexivity].
  destruct courseActivities as [rows|]; [| reflexivity].
  destruct (Z.ltb_spec 0 (Z.of_nat (length rows))) as [Hpos|]; [| reflexivity].
  unfold findIndex. rewrite findIndex_from_absent.
  - replace (-1 =? Z.of_nat (length rows) - 1) with false
      by (symmetry; apply Z.eqb_neq; lia).
    reflexivity.
  - intros x Hx. apply String.eqb_neq. intros E.
    apply (Hout rows eq_refl). rewrite <- E. now apply in_map.
Qed.

Lemma navigation_of_stranger_witness :
  navigation "c1" (Some demo_rows) "a2" = mkNavigation None None false false.
Proof.
  apply navigation_of_stranger. intros rows [= <-]. simpl. intuition discriminate.
Defined.

End ActivityPageFacts.

(** * The components that call the action *)

(** The row that a request which passes both guards leaves for its pair, on
    a well-formed store that answers every call. *)
Lemma saved_progress_row
    session usr act activityId score completed answers timeSpent w :
  faults w = [] -> wf (db w) ->
  userError session = None ->
  user session = Some usr ->
  filter (matches [A_id activityId]) (activities (db w)) = [act] ->
  let rw := saveActivityProgress session activityId score completed answers timeSpent w in
  success (fst rw) = true /\
  exists row,
    progressRows (u_id usr) activityId (db (snd rw)) = [row] /\
    up_course_id row = a_course_id act /\
    up_score row = score /\
    up_completed row = completed /\
    up_time_spent row
    = stored_time_spent timeSpent (priorProgress (u_id usr) activityId (db w)).
Proof.
  intros Hq Hwf He Hu Hact. cbv zeta.
  destruct (saveActivityProgress_stages session usr act activityId score completed
              answers timeSpent w Hq Hwf He Hu Hact)
    as (Hok & Hdb & _ & _ & _ & (Hq1 & Hwf1) & (Hq2 & Hwf2) & _).
  split; [exact Hok |]. rewrite Hdb. clear Hdb.
  set (u := u_id usr) in *. set (c := a_course_id act) in *.
  destruct (autoEnroll_effect u c w Hq Hwf) as (_ & _ & _ & Hup1 & _).
  set (w1 := snd (autoEnroll u c w)) in *.
  assert (Hprior : priorProgress u activityId (db w1) = priorProgress u activityId (db w))
    by (unfold priorProgress, progressRows; now rewrite Hup1).
  destruct (writeProgress_effect u activityId c score completed answers timeSpent
              w1 Hq1 Hwf1) as (_ & _ & _ & _ & _ & Hrow).
  rewrite Hprior in Hrow.
  set (w2 := snd (writeProgress u activityId c score completed answers timeSpent w1)) in *.
  destruct (updateCourseProgress_invariant u c w2 Hq2 Hwf2) as (_ & _ & Hup3).
  unfold progressRows in *. rewrite Hup3.
  destruct Hrow as [(existing & _ & _ & _ & _ & ->) | (_ & _ & _ & _ & ->)];
    eexists; (split; [reflexivity |]); now repeat split.
Qed.

Lemma tally_fold {A} (test : A -> bool) (l : list A) acc :
  fold_left (fun n x => if test x then n + 1 else n) l acc
  = acc + Z.of_nat (length (filter test l)).
Proof.
  revert acc. induction l as [|a l IH]; intros acc; simpl; [lia |].
  rewrite IH. destruct (test a); simpl length; lia.
Qed.

Lemma filter_keeps_all {A} (test : A -> bool) (l : list A) :
  length (filter test l) = length l <-> forall x, In x l -> test x = true.
Proof.
  induction l as [|a l IH]; simpl; [intuition |].
  pose proof (filter_length_le test l) as Hle.
  destruct (test a) eqn:Ha; simpl; split.
  - intros H x [<-|Hx]; [exact Ha | apply IH; [lia | exact Hx]].
  - intros H. f_equal. apply IH. auto.
  - intros H. lia.
  - intros H. specialize (H a (or_introl eq_refl)). congruence.
Qed.

Lemma outOfFive_div correct total :
  0 < total -> outOfFive correct total = Some ((10 * correct + total) / (2 * total)).
Proof.
  intros Ht. unfold outOfFive. rewrite (proj2 (Z.eqb_neq total 0)) by lia.
  f_equal.
  assert (E : (inject_Z correct / inject_Z total * 5
               == inject_Z (5 * correct) / inject_Z total)%Q).
  { rewrite inject_Z_mult. unfold Qdiv. change (inject_Z 5) with 5%Q. ring. }
  unfold JS.Math_round.
  rewrite (Qfloor_comp _ (inject_Z (5 * correct) / inject_Z total + (1 # 2))%Q)
    by (now rewrite E).
  fold (JS.Math_round (inject_Z (5 * correct) / inject_Z total)).
  rewrite Math_round_div by exact Ht. f_equal. lia.
Qed.

(** A score out of five is between 0 and 5, is 5 when everything is right,
    and with fewer than ten items only then. *)
Lemma outOfFive_spec correct total :
  0 < total -> 0 <= correct <= total ->
  exists s, outOfFive correct total = Some s /\ 0 <= s <= 5 /\
            (correct = total -> s = 5) /\
            (total < 10 -> s = 5 -> correct = total).
Proof.
  intros Ht Hc. rewrite outOfFive_div by exact Ht. eexists. split; [reflexivity |].
  set (s := (10 * correct + total) / (2 * total)).
  assert (Hlo : (2 * total) * s <= 10 * correct + total)
    by (apply Z.mul_div_le; lia).
  assert (Hhi : 10 * correct + total < (2 * total) * (s + 1)).
  { replace ((2 * total) * (s + 1)) with ((2 * total) * Z.succ s) by lia.
    apply Z.mul_succ_div_gt. lia. }
  split; [split; [apply Z.div_pos; lia | nia] |]. split.
  - intros ->. nia.
  - intros Hsmall Hs. rewrite Hs in Hlo. lia.
Qed.

Section Components.
Import MultipleChoice.

Lemma strict_eq_spec a b : strict_eq a b = true <-> a = Some b.
Proof.
  destruct a as [s|]; simpl; [| split; discriminate].
  rewrite String.eqb_eq. split; [now intros -> | now intros [= ->]].
Qed.

Lemma correctAnswers_count questions selectedAnswers :
  correctAnswers questions selectedAnswers
  = Z.of_nat (length (filter (quiz_test questions selectedAnswers)
                             (seq 0 (length questions)))).
Proof.
  unfold correctAnswers.
  rewrite <- (Z.add_0_l (Z.of_nat _)), <- tally_fold.
  generalize 0 as acc. generalize (seq 0 (length questions)) as l.
  induction l as [|i l IH]; intros acc; simpl; [reflexivity |].
  rewrite IH. unfold quiz_test. now destruct (nth_error questions i).
Qed.

Lemma quiz_all_correct questions selectedAnswers :
  correctAnswers questions selectedAnswers = Z.of_nat (length questions) <->
  forall i q, nth_error questions i = Some q ->
              selectedAnswers (Z.of_nat i) = Some (correctAnswer q).
Proof.
  rewrite correctAnswers_count, Nat2Z.inj_iff.
  pose proof (filter_keeps_all (quiz_test questions selectedAnswers)
                (seq 0 (length questions))) as K.
  rewrite length_seq in K. rewrite K. clear K. split.
  - intros H i q Hi. apply strict_eq_spec.
    assert (Hin : In i (seq 0 (length questions))).
    { apply in_seq. split; [lia |]. simpl. apply nth_error_Some. rewrite Hi. discriminate. }
    specialize (H i Hin). unfold quiz_test in H. now rewrite Hi in H.
  - intros H i Hin. apply in_seq in Hin as [_ Hlt]. simpl in Hlt.
    unfold quiz_test. destruct (nth_error questions i) as [q|] eqn:Hi.
    + apply strict_eq_spec. now apply H.
    + apply nth_error_None in Hi. lia.
Qed.

Lemma calculateScore_number questions selectedAnswers :
  questions <> [] ->
  exists s, calculateScore questions selectedAnswers = Some s /\ 0 <= s <= 5.
Proof.
  intros Hne. unfold calculateScore.
  assert (Hlen : 0 < Z.of_nat (length questions)).
  { destruct questions; [now elim Hne | simpl length; lia]. }
  assert (Hrange : 0 <= correctAnswers questions selectedAnswers
                   <= Z.of_nat (length questions)).
  { rewrite correctAnswers_count.
    pose proof (filter_length_le (quiz_test questions selectedAnswers)
                  (seq 0 (length questions))) as Hle.
    rewrite length_seq in Hle. lia. }
  destruct (outOfFive_spec _ _ Hlen Hrange) as (s & E & Hs & _).
  now exists s.
Qed.

(** X16. The quiz score.  With at least one question, [calculateScore] is a
    number between 0 and 5; it is 5 when every question has its correct
    answer selected, and with fewer than ten questions only then, so that
    the message shown for a score of 5 (all the answers correct) is true of
    every quiz of fewer than ten questions. *)
Theorem quiz_score questions selectedAnswers :
  questions <> [] ->
  let all_correct :=
    forall i q, nth_error questions i = Some q ->
                selectedAnswers (Z.of_nat i) = Some (correctAnswer q) in
  exists s,
    calculateScore questions selectedAnswers = Some s /\
    0 <= s <= 5 /\
    (all_correct -> s = 5) /\
    ((length questions < 10)%nat -> s = 5 -> all_correct).
Proof.
  intros Hne all_correct. unfold calculateScore.
  assert (Hlen : 0 < Z.of_nat (length questions)).
  { destruct questions; [now elim Hne | simpl length; lia]. }
  assert (Hrange : 0 <= correctAnswers questions selectedAnswers
                   <= Z.of_nat (length questions)).
  { rewrite correctAnswers_count.
    pose proof (filter_length_le (quiz_test questions selectedAnswers)
                  (seq 0 (length questions))) as Hle.
    rewrite length_seq in Hle. lia. }
  destruct (outOfFive_spec _ _ Hlen Hrange) as (s & E & Hs & Hall & Honly).
  exists s. split; [exact E |]. split; [exact Hs |]. split.
  - intros H. apply Hall. now apply quiz_all_correct.
  - intros Hsmall H5. subst all_correct. apply quiz_all_correct.
    apply Honly; [lia | exact H5].
Qed.

Lemma quiz_score_witness :
  let questions := [mkQuestion "cat"; mkQuestion "dog"] in
  let selectedAnswers := handleAnswerSelect 1 "dog" (handleAnswerSelect 0 "cat"
                                                      (fun _ => None)) in
  let all_correct :=
    forall i q, nth_error questions i = Some q ->
                selectedAnswers (Z.of_nat i) = Some (correctAnswer q) in
  exists s,
    calculateScore questions selectedAnswers = Some s /\
    0 <= s <= 5 /\
    (all_correct -> s = 5) /\
    ((length questions < 10)%nat -> s = 5 -> all_correct).
Proof.
  apply (quiz_score [mkQuestion "cat"; mkQuestion "dog"]). discriminate.
Defined.

(** X17. The question shown exists.  Starting from the first question of a
    quiz with at least one question, any sequence of clicks on the two
    buttons leaves [currentQuestion] an index of [questions]. *)
Theorem quiz_question_in_range questions clicks :
  questions <> [] ->
  let currentQuestion := fold_left (click questions) clicks 0 in
  0 <= currentQuestion < Z.of_nat (length questions).
Proof.
  intros Hne. cbv zeta.
  assert (Hlen : 0 < Z.of_nat (length questions)).
  { destruct questions; [now elim Hne | simpl length; lia]. }
  assert (Hinv : forall start, 0 <= start < Z.of_nat (length questions) ->
                   0 <= fold_left (click questions) clicks start
                   < Z.of_nat (length questions)).
  { induction clicks as [|c clicks IH]; intros start Hstart; simpl; [exact Hstart |].
    apply IH. destruct c; unfold click, handleNext, handlePrevious.
    - destruct (Z.ltb_spec start (Z.of_nat (length questions) - 1)); simpl; lia.
    - destruct (Z.ltb_spec 0 start); lia. }
  apply Hinv. lia.
Qed.

Lemma quiz_question_in_range_witness :
  let questions := [mkQuestion "cat"; mkQuestion "dog"] in
  let currentQuestion := fold_left (click questions) [Next; Next; Previous; Next] 0 in
  0 <= currentQuestion < Z.of_nat (length questions).
Proof.
  apply (quiz_question_in_range [mkQuestion "cat"; mkQuestion "dog"]). discriminate.
Defined.

(** X18. A quiz submission.  With at least one question, [handleSubmit]
    calls the action; on a well-formed store that answers every call, for a
    signed-in user and a known activity, the call succeeds and leaves one
    progress row for the pair: completed, with a score between 0 and 5, and
    with the time spent of the row that was there before, or 0 when there was
    none (the quiz passes no time). *)
Theorem quiz_submission
    toJson session usr act activity_id questions selectedAnswers w :
  faults w = [] -> wf (db w) ->
  userError session = None ->
  user session = Some usr ->
  filter (matches [A_id activity_id]) (activities (db w)) = [act] ->
  questions <> [] ->
  exists request,
    handleSubmit toJson session activity_id questions selectedAnswers = Sent request /\
    success (fst (request w)) = true /\
    exists row,
      progressRows (u_id usr) activity_id (db (snd (request w))) = [row] /\
      up_completed row = true /\
      0 <= up_score row <= 5 /\
      up_time_spent row
      = match priorProgress (u_id usr) activity_id (db w) with
        | Some prior => up_time_spent prior
        | None => 0
        end.
Proof.
  intros Hq Hwf He Hu Hact Hne. unfold handleSubmit.
  destruct (calculateScore_number questions selectedAnswers Hne) as (s & -> & Hs).
  eexists. split; [reflexivity |].
  destruct (saved_progress_row session usr act activity_id s true
              (Some (toJson selectedAnswers)) None w Hq Hwf He Hu Hact)
    as (Hok & row & Hrow & _ & Hscore & Hdone & Htime).
  split; [exact Hok |]. exists row. rewrite Hscore.
  split; [exact Hrow |]. split; [exact Hdone |]. split; [exact Hs | exact Htime].
Qed.

Lemma quiz_submission_witness :
  exists request,
    handleSubmit (fun _ => "{}") Demo.alice "a1" [mkQuestion "cat"]
                 (handleAnswerSelect 0 "cat" (fun _ => None)) = Sent request /\
    success (fst (request Demo.enrolled)) = true /\
    exists row,
      progressRows "alice" "a1" (db (snd (request Demo.enrolled))) = [row] /\
      up_completed row = true /\
      0 <= up_score row <= 5 /\
      up_time_spent row
      = match priorProgress "alice" "a1" (db Demo.enrolled) with
        | Some prior => up_time_spent prior
        | None => 0
        end.
Proof.
  apply (quiz_submission (fun _ => "{}") Demo.alice (mkUser "alice")
           (mkActivity "a1" "c1" "published") "a1" [mkQuestion "cat"]
           (handleAnswerSelect 0 "cat" (fun _ => None)) Demo.enrolled);
    [reflexivity | apply demo_enrolled_wf | reflexivity | reflexivity | reflexivity
    | discriminate].
Defined.

End Components.

Section FillBlanksFacts.
Import FillBlanks.

Variable toLowerCase : string -> string.

Lemma getScore_number sentences answers :
  sentences <> [] ->
  exists s, getScore toLowerCase sentences answers = Some s /\ 0 <= s <= 5.
Proof.
  intros Hne. unfold getScore, correct.
  assert (Hlen : 0 < Z.of_nat (length sentences)).
  { destruct sentences; [now elim Hne | simpl length; lia]. }
  rewrite tally_fold.
  match goal with |- context [filter ?t sentences] =>
    pose proof (filter_length_le t sentences) as Hle end.
  destruct (outOfFive_spec _ _ Hlen (conj (Zle_0_nat _) (proj1 (Nat2Z.inj_le _ _) Hle)))
    as (s & E & Hs & _).
  exists s. now rewrite Z.add_0_l.
Qed.

(** X19. A fill-in-the-blanks submission.  [handleSubmit] calls the action
    only when the answers have as many keys as there are sentences.  When
    they have, with at least one sentence and an activity id that is not
    empty, it calls the action; on a well-formed store that answers every
    call, for a signed-in user and a known activity, the call succeeds and
    leaves one progress row for the pair: completed, with a score between 0
    and 5, and with the time spent of the row that was there before, or 0
    when there was none (the 0 passed as time spent counts as not supplied). *)
Theorem fill_blanks_submission
    toJson session usr act activity_id sentences answers w :
  faults w = [] -> wf (db w) ->
  userError session = None ->
  user session = Some usr ->
  filter (matches [A_id activity_id]) (activities (db w)) = [act] ->
  sentences <> [] -> activity_id <> "" ->
  (length (Object_keys answers) <> length sentences ->
   handleSubmit toLowerCase toJson session activity_id sentences answers = NoRequest) /\
  (length (Object_keys answers) = length sentences ->
   exists request,
     handleSubmit toLowerCase toJson session activity_id sentences answers
     = Sent request /\
     success (fst (request w)) = true /\
     exists row,
       progressRows (u_id usr) activity_id (db (snd (request w))) = [row] /\
       up_completed row = true /\
       0 <= up_score row <= 5 /\
       up_time_spent row
       = match priorProgress (u_id usr) activity_id (db w) with
         | Some prior => up_time_spent prior
         | None => 0
         end).
Proof.
  intros Hq Hwf He Hu Hact Hne Hid. unfold handleSubmit. split.
  - intros Hkeys.
    rewrite (proj2 (Z.eqb_neq _ _)) by (intros E; apply Nat2Z.inj in E; contradiction).
    reflexivity.
  - intros Hkeys. rewrite Hkeys, Z.eqb_refl. cbn [negb].
    destruct (getScore_number sentences answers Hne) as (s & -> & Hs).
    assert (Htruthy : JS.truthy_str activity_id = true).
    { unfold JS.truthy_str. apply negb_true_iff. now apply String.eqb_neq. }
    rewrite Htruthy. eexists. split; [reflexivity |].
    destruct (saved_progress_row session usr act activity_id s true
                (Some (toJson answers)) (Some 0) w Hq Hwf He Hu Hact)
      as (Hok & row & Hrow & _ & Hscore & Hdone & Htime).
    split; [exact Hok |]. exists row. rewrite Hscore.
    split; [exact Hrow |]. split; [exact Hdone |]. split; [exact Hs | exact Htime].
Qed.

End FillBlanksFacts.

Lemma fill_blanks_submission_witness :
  let sentences := [FillBlanks.mkSentence "s1" "fox"] in
  let answers := FillBlanks.handleAnswerChange "s1" "fox" [] in
  let submit := FillBlanks.handleSubmit (fun s => s) (fun _ => "{}") Demo.alice "a1"
                                        sentences answers in
  (length (FillBlanks.Object_keys answers) <> length sentences -> submit = NoRequest) /\
  (length (FillBlanks.Object_keys answers) = length sentences ->
   exists request,
     submit = Sent request /\
     success (fst (request Demo.enrolled)) = true /\
     exists row,
       progressRows "alice" "a1" (db (snd (request Demo.enrolled))) = [row] /\
       up_completed row = true /\
       0 <= up_score row <= 5 /\
       up_time_spent row
       = match priorProgress "alice" "a1" (db Demo.enrolled) with
         | Some prior => up_time_spent prior
         | None => 0
         end).
Proof.
  apply (fill_blanks_submission (fun s => s) (fun _ => "{}") Demo.alice (mkUser "alice")
           (mkActivity "a1" "c1" "published") "a1" [FillBlanks.mkSentence "s1" "fox"]
           (FillBlanks.handleAnswerChange "s1" "fox" []) Demo.enrolled);
    [reflexivity | apply demo_enrolled_wf | reflexivity | reflexivity | reflexivity
    | discriminate | discriminate].
Defined.

(** ** The flip cards *)

Section FlipCardsFacts.
Import FlipCards.

Lemma split_nonempty c s : split c s <> [].
Proof.
  destruct s as [|a s]; simpl; [discriminate |].
  destruct (Ascii.eqb a c); [discriminate |].
  destruct (split c s); discriminate.
Qed.

(** A string without the separator is one piece. *)
Lemma split_without c s : without c s = true -> split c s = [s].
Proof.
  induction s as [|a s IH]; simpl; [reflexivity |].
  intros H. apply andb_prop in H as [Ha Hs]. apply negb_true_iff in Ha.
  now rewrite Ha, (IH Hs).
Qed.

(** The first piece ends at the first separator. *)
Lemma split_at_first c a b :
  without c a = true -> split c (a ++ String c b)%string = a :: split c b.
Proof.
  induction a as [|x a IH]; simpl.
  - intros _. now rewrite Ascii.eqb_refl.
  - intros H. apply andb_prop in H as [Hx Ha]. apply negb_true_iff in Hx.
    now rewrite Hx, (IH Ha).
Qed.

(** The first piece holds no separator. *)
Lemma split_head_without c s piece pieces :
  split c s = piece :: pieces -> without c piece = true.
Proof.
  revert piece pieces. induction s as [|a s IH]; simpl; intros piece pieces.
  - now intros [= <- _].
  - destruct (Ascii.eqb a c) eqn:Ha; [now intros [= <- _] |].
    destruct (split c s) as [|h t] eqn:Hs.
    + intros [= <- _]. simpl. now rewrite Ha.
    + intros [= <- _]. simpl. rewrite Ha. simpl. now apply (IH h t).
Qed.

(** The piece that the click guard reads off the id of a card. *)
Lemma guard_piece prefix id :
  without "-" prefix = true ->
  nth_error (split "-" (prefix ++ String "-" id)%string) 1 = hd_error (split "-" id).
Proof.
  intros Hp. rewrite split_at_first by exact Hp. simpl.
  now destruct (split "-" id).
Qed.

Lemma card_of_pair pairs card :
  In card (allCards pairs) ->
  In (pairId card) (map p_id pairs) /\
  (card_id card = ("term-" ++ pairId card)%string \/
   card_id card = ("match-" ++ pairId card)%string).
Proof.
  unfold allCards. rewrite in_flat_map. intros (pair & Hpair & [<- | [<- | []]]);
    simpl; (split; [now apply in_map | auto]).
Qed.

Lemma guard_reads_pair pairs card :
  (forall pair, In pair pairs -> without "-" (p_id pair) = true) ->
  In card (allCards pairs) ->
  nth_error (split "-" (card_id card)) 1 = Some (pairId card).
Proof.
  intros Hids Hcard. destruct (card_of_pair pairs card Hcard) as [Hin Hid].
  apply in_map_iff in Hin as (pair & Hp & Hpair).
  assert (Hw : without "-" (pairId card) = true) by (rewrite <- Hp; now apply Hids).
  destruct Hid as [-> | ->].
  - change ("term-" ++ pairId card)%string
      with ("term" ++ String "-" (pairId card))%string.
    rewrite guard_piece by reflexivity. now rewrite split_without.
  - change ("match-" ++ pairId card)%string
      with ("match" ++ String "-" (pairId card))%string.
    rewrite guard_piece by reflexivity. now rewrite split_without.
Qed.

Lemma includes_spec l s : includes l (Some s) = true <-> In s l.
Proof.
  simpl. rewrite existsb_exists. split.
  - intros (x & Hx & E). apply String.eqb_eq in E. now subst.
  - intros H. exists s. split; [exact H | apply String.eqb_refl].
Qed.

Lemma step_keeps_invariant pairs cards0 st e :
  (forall pair, In pair pairs -> without "-" (p_id pair) = true) ->
  incl cards0 (allCards pairs) ->
  flip_invariant pairs cards0 st -> flip_invariant pairs cards0 (step st e).
Proof.
  intros Hids Hcards (Hc & Hnd & Hincl). destruct e as [cardId|]; simpl.
  - unfold handleCardClick.
    destruct (isCompleted st || includes (matchedPairs st)
                                         (nth_error (split "-" cardId) 1)) eqn:G;
      [now repeat split |].
    apply orb_false_elim in G as [_ G].
    destruct (Z.of_nat (length (flippedCards st)) =? 2); [now repeat split |].
    destruct (includes (flippedCards st) (Some cardId)); [now repeat split |].
    destruct (Z.of_nat (length (flippedCards st)) =? 1); [| now repeat split].
    destruct (match hd_error (flippedCards st) with
              | Some first => find (fun card => (card_id card =? first)%string) (cards st)
              | None => None
              end) as [first|] eqn:Hfirst; [| now repeat split].
    destruct (find (fun card => (card_id card =? cardId)%string) (cards st))
      as [second|] eqn:Hsecond; [| now repeat split].
    destruct (pairId first =? pairId second)%string eqn:Hpair; [| now repeat split].
    apply String.eqb_eq in Hpair.
    apply find_some in Hsecond as [Hin2 Hid2]. apply String.eqb_eq in Hid2.
    rewrite Hc in Hin2. apply Hcards in Hin2.
    pose proof (guard_reads_pair pairs second Hids Hin2) as Hguard.
    rewrite Hid2, <- Hpair in Hguard. rewrite Hguard in G.
    split; [exact Hc |]. cbn [matchedPairs]. split.
    + apply NoDup_snoc; [exact Hnd |]. intros Hin.
      apply includes_spec in Hin. congruence.
    + apply incl_app; [exact Hincl |]. intros x [<- | []].
      rewrite Hpair. apply (card_of_pair pairs second Hin2).
  - unfold timeout. destruct (timers st); now repeat split.
Qed.

Lemma run_keeps_invariant pairs cards0 events st :
  (forall pair, In pair pairs -> without "-" (p_id pair) = true) ->
  incl cards0 (allCards pairs) ->
  flip_invariant pairs cards0 st ->
  flip_invariant pairs cards0 (fold_left step events st).
Proof.
  intros Hids Hcards. revert st.
  induction events as [|e events IH]; intros st Hinv; simpl; [exact Hinv |].
  apply IH. now apply step_keeps_invariant.
Qed.

(** X20. The flip-cards score.  When no pair id contains the character that
    separates the card ids and the cards shown are cards of the pairs, then
    after any sequence of clicks and timer expiries from the initial state no
    pair is matched twice, every matched pair is a pair of the activity, and
    with at least one pair the score that [handleSave] computes is a number
    between 0 and 100. *)
Theorem flip_cards_score pairs cards0 events :
  pairs <> [] ->
  (forall pair, In pair pairs -> without "-" (p_id pair) = true) ->
  incl cards0 (allCards pairs) ->
  let st := fold_left step events (initial cards0) in
  NoDup (matchedPairs st) /\
  incl (matchedPairs st) (map p_id pairs) /\
  exists s, calculatedScore pairs st = Some s /\ 0 <= s <= 100.
Proof.
  intros Hne Hids Hcards st.
  assert (Hinv : flip_invariant pairs cards0 st).
  { apply run_keeps_invariant; [exact Hids | exact Hcards |].
    split; [reflexivity |]. split; [constructor | intros x []]. }
  destruct Hinv as (_ & Hnd & Hincl).
  split; [exact Hnd |]. split; [exact Hincl |].
  pose proof (NoDup_incl_length Hnd Hincl) as Hle. rewrite length_map in Hle.
  assert (Hlen : 0 < Z.of_nat (length pairs)).
  { destruct pairs; [now elim Hne | simpl length; lia]. }
  unfold calculatedScore. rewrite (proj2 (Z.eqb_neq _ 0)) by lia.
  eexists. split; [reflexivity |].
  fold (progressPercentage (Z.of_nat (length (matchedPairs st)))
                           (Z.of_nat (length pairs))).
  rewrite progressPercentage_spec. apply spec_progress_range; lia.
Qed.

Lemma flip_cards_score_witness :
  let pairs := [mkPair "p1" "cat" "meows"; mkPair "p2" "dog" "barks"] in
  let st := fold_left step
              [Click "term-p1"; Click "match-p1"; Timeout; Click "match-p1";
               Click "term-p2"; Click "match-p1"]
              (initial (allCards pairs)) in
  NoDup (matchedPairs st) /\
  incl (matchedPairs st) (map p_id pairs) /\
  exists s, calculatedScore pairs st = Some s /\ 0 <= s <= 100.
Proof.
  apply (flip_cards_score [mkPair "p1" "cat" "meows"; mkPair "p2" "dog" "barks"]).
  - discriminate.
  - intros pair [<- | [<- | []]]; reflexivity.
  - apply incl_refl.
Defined.

(** X21. A pair id that contains the separator defeats the click guard: the
    guard compares the piece of the card id between the first and the second
    separator, which is not the pair id, so the pair can be matched again
    after the timer, and with that pair alone the score computed is 200. *)
Theorem dashed_pair_matched_twice pair :
  without "-" (p_id pair) = false ->
  let term := ("term-" ++ p_id pair)%string in
  let mate := ("match-" ++ p_id pair)%string in
  let st := fold_left step
              [Click term; Click mate; Timeout; Click term; Click mate]
              (initial (allCards [pair])) in
  matchedPairs st = [p_id pair; p_id pair] /\
  calculatedScore [pair] st = Some 200.
Proof.
  intros Hdash term mate.
  destruct (split "-" (p_id pair)) as [|piece pieces] eqn:Hsplit;
    [now elim (split_nonempty "-" (p_id pair)) |].
  assert (Hpiece : (piece =? p_id pair)%string = false).
  { apply String.eqb_neq. intros E.
    pose proof (split_head_without _ _ _ _ Hsplit) as Hw. congruence. }
  assert (Gterm : nth_error (split "-" term) 1 = Some piece).
  { subst term. change ("term-" ++ p_id pair)%string
      with ("term" ++ String "-" (p_id pair))%string.
    rewrite guard_piece by reflexivity. now rewrite Hsplit. }
  assert (Gmate : nth_error (split "-" mate) 1 = Some piece).
  { subst mate. change ("match-" ++ p_id pair)%string
      with ("match" ++ String "-" (p_id pair))%string.
    rewrite guard_piece by reflexivity. now rewrite Hsplit. }
  assert (Hdiff : (term =? mate)%string = false) by reflexivity.
  assert (Hdiff' : (mate =? term)%string = false) by reflexivity.
  set (deck := allCards [pair]).
  set (first := mkCard term (p_term pair) (p_id pair) "term").
  set (second := mkCard mate (p_match pair) (p_id pair) "match").
  assert (Ffirst : find (fun card => (card_id card =? term)%string) deck = Some first).
  { subst deck. unfold allCards. simpl. fold term. now rewrite String.eqb_refl. }
  assert (Fsecond : find (fun card => (card_id card =? mate)%string) deck = Some second).
  { subst deck. unfold allCards. simpl. now rewrite String.eqb_refl. }
  assert (Hopen : forall matched pending,
             includes matched (Some piece) = false ->
             handleCardClick (mkState false deck [] matched pending) term
             = mkState false deck [term] matched pending).
  { intros matched pending Hg. unfold handleCardClick.
    cbn [isCompleted matchedPairs flippedCards cards timers orb].
    rewrite Gterm, Hg. reflexivity. }
  assert (Hclose : forall matched pending,
             includes matched (Some piece) = false ->
             handleCardClick (mkState false deck [term] matched pending) mate
             = mkState false deck [term; mate] (matched ++ [p_id pair])
                       (pending ++ [1000])).
  { intros matched pending Hg. unfold handleCardClick.
    cbn [isCompleted matchedPairs flippedCards cards timers orb hd_error].
    rewrite Gmate, Hg. cbn [includes existsb length]. rewrite Hdiff'.
    cbn [orb]. rewrite Ffirst, Fsecond. cbn [pairId first second].
    now rewrite String.eqb_refl. }
  assert (Hseen : includes [p_id pair] (Some piece) = false).
  { cbn [includes existsb]. now rewrite Hpiece. }
  cbv zeta. cbn [fold_left step]. fold deck. unfold initial.
  rewrite (Hopen [] []) by reflexivity.
  rewrite (Hclose [] []) by reflexivity. cbn [app].
  unfold timeout. cbn [timers isCompleted cards matchedPairs].
  rewrite (Hopen [p_id pair] []) by exact Hseen.
  rewrite (Hclose [p_id pair] []) by exact Hseen.
  split; reflexivity.
Qed.

Lemma dashed_pair_matched_twice_witness :
  let pair := mkPair "a-b" "cat" "meows" in
  let st := fold_left step
              [Click "term-a-b"; Click "match-a-b"; Timeout; Click "term-a-b";
               Click "match-a-b"]
              (initial (allCards [pair])) in
  matchedPairs st = [p_id pair; p_id pair] /\
  calculatedScore [pair] st = Some 200.
Proof.
  apply (dashed_pair_matched_twice (mkPair "a-b" "cat" "meows")). reflexivity.
Defined.

End FlipCardsFacts.

(** ** Objects as records *)

Lemma get_set_other {V} (o : JSObject.t V) k (v : V) k' :
  (k' =? k)%string = false ->
  JSObject.get (map (fun kv => if (fst kv =? k)%string then (k, v) else kv) o) k'
  = JSObject.get o k'.
Proof.
  intros Hk. unfold JSObject.get. induction o as [|[a b] o IH]; simpl; [reflexivity |].
  destruct (a =? k)%string eqn:Ha; simpl.
  - apply String.eqb_eq in Ha. subst a. rewrite String.eqb_sym, Hk. exact IH.
  - destruct (a =? k')%string; [reflexivity | exact IH].
Qed.

(** Reading after writing. *)
Lemma get_set {V} (o : JSObject.t V) k (v : V) k' :
  JSObject.get (JSObject.set k v o) k'
  = if (k' =? k)%string then Some v else JSObject.get o k'.
Proof.
  unfold JSObject.set.
  destruct (k' =? k)%string eqn:Hk.
  - apply String.eqb_eq in Hk. subst k'.
    destruct (existsb _ o) eqn:Hex.
    + unfold JSObject.get. induction o as [|[a b] o IH]; simpl in *; [discriminate |].
      destruct (a =? k)%string eqn:Ha; simpl.
      * now rewrite String.eqb_refl.
      * rewrite Ha. apply IH. exact Hex.
    + unfold JSObject.get. induction o as [|[a b] o IH]; simpl in *.
      * now rewrite String.eqb_refl.
      * apply orb_false_elim in Hex as [Ha Hex]. rewrite Ha. now apply IH.
  - destruct (existsb _ o); [now apply get_set_other |].
    unfold JSObject.get. induction o as [|[a b] o IH]; simpl.
    + now rewrite String.eqb_sym, Hk.
    + destruct (a =? k')%string; [reflexivity | exact IH].
Qed.

Lemma keys_set {V} (o : JSObject.t V) k (v : V) :
  JSObject.keys (JSObject.set k v o)
  = if existsb (fun kv => (fst kv =? k)%string) o
    then JSObject.keys o else JSObject.keys o ++ [k].
Proof.
  unfold JSObject.set, JSObject.keys.
  destruct (existsb _ o); [| now rewrite map_app].
  rewrite map_map. apply map_ext. intros [a b]. simpl.
  destruct (a =? k)%string eqn:Ha; [| reflexivity].
  apply String.eqb_eq in Ha. now subst.
Qed.

Lemma key_present {V} (o : JSObject.t V) k :
  existsb (fun kv => (fst kv =? k)%string) o = true <-> In k (JSObject.keys o).
Proof.
  unfold JSObject.keys. rewrite existsb_exists, in_map_iff. split.
  - intros (kv & Hin & E). apply String.eqb_eq in E. now exists kv.
  - intros (kv & E & Hin). exists kv. split; [exact Hin | now apply String.eqb_eq].
Qed.

(** Writing keeps the keys distinct and among those allowed. *)
Lemma set_keeps_keys {V} (o : JSObject.t V) k (v : V) allowed :
  NoDup (JSObject.keys o) -> incl (JSObject.keys o) allowed -> In k allowed ->
  NoDup (JSObject.keys (JSObject.set k v o)) /\
  incl (JSObject.keys (JSObject.set k v o)) allowed.
Proof.
  intros Hnd Hincl Hk. rewrite keys_set.
  destruct (existsb _ o) eqn:Hex; [now split |]. split.
  - apply NoDup_snoc; [exact Hnd |]. intros Hin. apply key_present in Hin. congruence.
  - apply incl_app; [exact Hincl |]. now intros x [<- | []].
Qed.

Lemma append_eqb prefix a b : (prefix ++ a =? prefix ++ b)%string = (a =? b)%string.
Proof.
  induction prefix as [|c prefix IH]; simpl; [reflexivity |].
  now rewrite Ascii.eqb_refl.
Qed.

(** ** The lines *)

Section MatchLinesFacts.
Import MatchLines.

Lemma lines_step_invariant pairs st click :
  rendered pairs click -> lines_invariant pairs st -> lines_invariant pairs (step st click).
Proof.
  intros (pair & Hpair & Hclick) (Hsel & Hnd & Hincl).
  assert (Hselect : lines_invariant pairs
                      (mkState (isCompleted st) (matches st) (results st)
                               (Some ("term-" ++ p_id pair)%string))).
  { split; [| now split]. intros selected [= <-]. now exists pair. }
  assert (Hclear : lines_invariant pairs
                     (mkState (isCompleted st) (matches st) (results st) None)).
  { split; [| now split]. intros selected. discriminate. }
  assert (Hsame : lines_invariant pairs st) by now repeat split.
  unfold step, handleItemClick.
  destruct (isCompleted st); [exact Hsame |].
  destruct (selectedTerm st) as [selected|] eqn:Hs.
  - destruct (JS.truthy_str selected).
    + destruct (selected =? fst click)%string; [exact Hclear |].
      destruct Hclick as [-> | ->]; cbn [fst snd]; [exact Hsame |].
      destruct (Hsel selected eq_refl) as (chosen & Hchosen & ->).
      split; [intros selected; discriminate |]. cbn [results].
      apply set_keeps_keys; [exact Hnd | exact Hincl |].
      apply in_map_iff. now exists chosen.
    + destruct Hclick as [-> | ->]; cbn [fst snd]; [exact Hselect | exact Hsame].
  - destruct Hclick as [-> | ->]; cbn [fst snd]; [exact Hselect | exact Hsame].
Qed.

Lemma lines_run_invariant pairs clicks st :
  Forall (rendered pairs) clicks -> lines_invariant pairs st ->
  lines_invariant pairs (fold_left step clicks st).
Proof.
  intros Hclicks. revert st.
  induction Hclicks as [|click clicks Hclick _ IH]; intros st Hinv; simpl; [exact Hinv |].
  apply IH. now apply lines_step_invariant.
Qed.

Lemma lines_initial_invariant pairs : lines_invariant pairs initial.
Proof.
  split; [intros selected; discriminate |]. split; [constructor | intros x []].
Qed.

(** X22. The match-lines score.  After any sequence of clicks on the items
    that the component renders, the results hold at most one entry per pair,
    and with at least one pair the score that [handleSave] computes is a
    number between 0 and 100, whatever the pair ids are. *)
Theorem match_lines_score pairs clicks :
  pairs <> [] ->
  Forall (rendered pairs) clicks ->
  let st := fold_left step clicks initial in
  (length (JSObject.keys (results st)) <= length pairs)%nat /\
  exists s, calculatedScore pairs st = Some s /\ 0 <= s <= 100.
Proof.
  intros Hne Hclicks st.
  destruct (lines_run_invariant pairs clicks initial Hclicks
              (lines_initial_invariant pairs)) as (_ & Hnd & Hincl).
  fold st in Hnd, Hincl.
  pose proof (NoDup_incl_length Hnd Hincl) as Hle. rewrite length_map in Hle.
  split; [exact Hle |].
  assert (Hlen : 0 < Z.of_nat (length pairs)).
  { destruct pairs; [now elim Hne | simpl length; lia]. }
  assert (Hcount : 0 <= correctMatches st <= Z.of_nat (length pairs)).
  { unfold correctMatches.
    pose proof (filter_length_le (fun r : bool => r) (JSObject.values (results st)))
      as Hf.
    unfold JSObject.values, JSObject.keys in *. rewrite length_map in *. lia. }
  unfold calculatedScore. rewrite (proj2 (Z.eqb_neq _ 0)) by lia.
  eexists. split; [reflexivity |].
  fold (progressPercentage (correctMatches st) (Z.of_nat (length pairs))).
  rewrite progressPercentage_spec. now apply spec_progress_range.
Qed.

Lemma match_lines_score_witness :
  let pairs := [mkPair "p1" "cat" "meows"; mkPair "p2" "dog" "barks"] in
  let st := fold_left step
              [("term-p1", term); ("match-p2", definition);
               ("term-p1", term); ("match-p1", definition)]%string initial in
  (length (JSObject.keys (results st)) <= length pairs)%nat /\
  exists s, calculatedScore pairs st = Some s /\ 0 <= s <= 100.
Proof.
  apply (match_lines_score [mkPair "p1" "cat" "meows"; mkPair "p2" "dog" "barks"]).
  - discriminate.
  - repeat constructor.
    + exists (mkPair "p1" "cat" "meows"). split; [now left | now left].
    + exists (mkPair "p2" "dog" "barks"). split; [right; now left | now right].
    + exists (mkPair "p1" "cat" "meows"). split; [now left | now left].
    + exists (mkPair "p1" "cat" "meows"). split; [now left | now right].
Defined.

Lemma secondPiece_plain prefix id :
  FlipCards.without "-" prefix = true -> FlipCards.without "-" id = true ->
  secondPiece (prefix ++ String "-" id)%string = Some id.
Proof.
  intros Hp Hi. unfold secondPiece. rewrite guard_piece by exact Hp.
  now rewrite split_without.
Qed.

Lemma lines_step_follow pairs st click :
  (forall pair, In pair pairs -> FlipCards.without "-" (p_id pair) = true) ->
  rendered pairs click ->
  lines_invariant pairs st -> results_follow_matches pairs st ->
  results_follow_matches pairs (step st click).
Proof.
  intros Hids (pair & Hpair & Hclick) (Hsel & _ & _) Hfollow.
  unfold step, handleItemClick.
  destruct (isCompleted st); [exact Hfollow |].
  destruct (selectedTerm st) as [selected|] eqn:Hs.
  - destruct (JS.truthy_str selected).
    + destruct (selected =? fst click)%string; [exact Hfollow |].
      destruct Hclick as [-> | ->]; cbn [fst snd]; [exact Hfollow |].
      destruct (Hsel selected eq_refl) as (chosen & Hchosen & ->).
      change ("term-" ++ p_id chosen)%string
        with ("term" ++ String "-" (p_id chosen))%string.
      change ("match-" ++ p_id pair)%string
        with ("match" ++ String "-" (p_id pair))%string.
      rewrite !secondPiece_plain by (first [reflexivity | now apply Hids]).
      intros other Hother. cbn [results matches asKey same].
      rewrite !get_set.
      change ("term" ++ String "-" (p_id chosen))%string
        with ("term-" ++ p_id chosen)%string.
      change ("match" ++ String "-" (p_id pair))%string
        with ("match-" ++ p_id pair)%string.
      rewrite append_eqb.
      destruct (p_id other =? p_id chosen)%string eqn:E; [| now apply Hfollow].
      apply String.eqb_eq in E. rewrite E. cbn [option_map].
      now rewrite append_eqb, String.eqb_sym.
    + destruct Hclick as [-> | ->]; exact Hfollow.
  - destruct Hclick as [-> | ->]; exact Hfollow.
Qed.

(** X23. What the match-lines score counts.  When no pair id contains the
    separator of the item ids, then after any sequence of clicks on the
    rendered items a pair has a result exactly when its term is connected,
    and the result is true exactly when the term is connected to the
    definition of the same pair. *)
Theorem match_lines_results pairs clicks :
  (forall pair, In pair pairs -> FlipCards.without "-" (p_id pair) = true) ->
  Forall (rendered pairs) clicks ->
  let st := fold_left step clicks initial in
  forall pair, In pair pairs ->
    JSObject.get (results st) (p_id pair)
    = option_map (fun matchId => (matchId =? "match-" ++ p_id pair)%string)
                 (JSObject.get (matches st) ("term-" ++ p_id pair)%string).
Proof.
  intros Hids Hclicks. cbv zeta.
  assert (Hrun : forall st,
             lines_invariant pairs st -> results_follow_matches pairs st ->
             results_follow_matches pairs (fold_left step clicks st)).
  { induction Hclicks as [|click clicks Hclick _ IH]; intros st Hinv Hfollow; simpl;
      [exact Hfollow |].
    apply IH; [now apply lines_step_invariant | now apply lines_step_follow]. }
  apply Hrun; [apply lines_initial_invariant |]. intros pair _. reflexivity.
Qed.

Lemma match_lines_results_witness :
  let pairs := [mkPair "p1" "cat" "meows"; mkPair "p2" "dog" "barks"] in
  let st := fold_left step
              [("term-p1", term); ("match-p2", definition);
               ("term-p1", term); ("match-p1", definition)]%string initial in
  JSObject.get (results st) "p1"
  = option_map (fun matchId => (matchId =? "match-p1")%string)
               (JSObject.get (matches st) "term-p1").
Proof.
  intros pairs st.
  refine (match_lines_results pairs
            [("term-p1", term); ("match-p2", definition);
             ("term-p1", term); ("match-p1", definition)]%string
            _ _ (mkPair "p1" "cat" "meows") _).
  - intros pair [<- | [<- | []]]; reflexivity.
  - repeat constructor.
    + exists (mkPair "p1" "cat" "meows"). split; [now left | now left].
    + exists (mkPair "p2" "dog" "barks"). split; [right; now left | now right].
    + exists (mkPair "p1" "cat" "meows"). split; [now left | now left].
    + exists (mkPair "p1" "cat" "meows"). split; [now left | now right].
  - now left.
Defined.

End MatchLinesFacts.
